(** * Isaac command core: routing and safety tiers

    A shallow embedding of the C++ core of Isaac ([src/core/tier_validator.cpp],
    [src/core/command_router.cpp], [src/core/strategies.{hpp,cpp}],
    [src/core/routing/*.cpp], [src/adapters/shell_adapter.cpp]) together with the
    properties its specification states about it.

    Conventions of the embedding:
    - [std::string] is [string]; a [char] is an [ascii] read as an unsigned
      byte, in the C locale.
    - a C++ exception is the [Throw] case of [outcome].
    - [float] tiers are exact rationals [Q]; see [stof].
    - the shell, the standard output and the rule file are explicit state or
      explicit arguments.
    - [std::sort] is any function with the guarantee the C++ standard gives.

    The model comes first, then facts about it, then the statements of the
    specification, numbered C1 to C10, and examples. *)

From Stdlib Require Import List String Ascii Bool Arith ZArith QArith Lia Lqa.
From Stdlib Require Import Permutation Sorted.
Import ListNotations.

#[local] Open Scope list_scope.
#[local] Open Scope nat_scope.
#[local] Open Scope string_scope.

Set Implicit Arguments.

(* ================================================================== *)
(** ** Characters ([<cctype>], C locale) *)

Module CType.

Definition code (c : ascii) : nat := nat_of_ascii c.

(** [isspace]: space, \t, \n, \v, \f, \r. *)
Definition isspace (c : ascii) : bool :=
  let n := code c in ((n =? 32) || ((9 <=? n) && (n <=? 13)))%nat.

(** [isdigit], which is what [\d] of the ECMAScript grammar matches. *)
Definition isdigit (c : ascii) : bool :=
  let n := code c in ((48 <=? n) && (n <=? 57))%nat.

Definition digit_value (c : ascii) : Z := Z.of_nat (code c - 48).

(** [tolower]: only 'A'..'Z' change. *)
Definition tolower (c : ascii) : ascii :=
  let n := code c in
  if ((65 <=? n) && (n <=? 90))%nat then ascii_of_nat (n + 32) else c.

Definition newline : ascii := ascii_of_nat 10.
Definition carriage_return : ascii := ascii_of_nat 13.
Definition quote : ascii := ascii_of_nat 34.

End CType.

(* ================================================================== *)
(** ** Exceptions *)

Inductive exception : Type :=
| invalid_argument
| out_of_range.

Inductive outcome (A : Type) : Type :=
| Ret (a : A)
| Throw (e : exception).

Arguments Ret {A} a.
Arguments Throw {A} e.

(* ================================================================== *)
(** ** [std::string] operations used by the core *)

Module Str.

Fixpoint map (f : ascii -> ascii) (s : string) : string :=
  match s with
  | EmptyString => EmptyString
  | String c s' => String (f c) (map f s')
  end.

(** [std::transform(s.begin(), s.end(), s.begin(), ::tolower)]. *)
Definition to_lower (s : string) : string := map CType.tolower s.

Fixpoint all_of (p : ascii -> bool) (s : string) : bool :=
  match s with
  | EmptyString => true
  | String c s' => p c && all_of p s'
  end.

Definition empty (s : string) : bool :=
  match s with EmptyString => true | _ => false end.

(** [s.find(needle, pos)]; [None] is [npos]. *)
Definition find (needle : string) (pos : nat) (s : string) : option nat :=
  index pos needle s.

Definition find_char (c : ascii) (pos : nat) (s : string) : option nat :=
  find (String c EmptyString) pos s.

(** [s.find(needle) == 0]. *)
Definition found_at_0 (needle s : string) : bool :=
  match find needle 0 s with
  | Some 0 => true
  | _ => false
  end.

(** [!s.empty() && s[0] == c]. *)
Definition first_is (c : ascii) (s : string) : bool :=
  match s with
  | EmptyString => false
  | String c' _ => Ascii.eqb c' c
  end.

Fixpoint drop (n : nat) (s : string) : string :=
  match n, s with
  | 0, _ => s
  | S n', String _ s' => drop n' s'
  | S _, EmptyString => EmptyString
  end.

(** [s.substr(pos)]: throws [std::out_of_range] when [pos > s.size()]. *)
Definition substr (pos : nat) (s : string) : outcome string :=
  if (pos <=? length s)%nat then Ret (drop pos s) else Throw out_of_range.

(** [s.substr(pos, n)], same exception. *)
Definition substr_n (pos n : nat) (s : string) : outcome string :=
  if (pos <=? length s)%nat then Ret (substring pos n s) else Throw out_of_range.

(** [s.erase(s.begin(), find_if(s.begin(), s.end(), not isspace))]. *)
Fixpoint ltrim (s : string) : string :=
  match s with
  | EmptyString => EmptyString
  | String c s' => if CType.isspace c then ltrim s' else s
  end.

(** Longest prefix of characters satisfying [p], and what follows it. *)
Fixpoint span (p : ascii -> bool) (s : string) : string * string :=
  match s with
  | EmptyString => (EmptyString, EmptyString)
  | String c s' =>
      if p c then let (a, b) := span p s' in (String c a, b)
      else (EmptyString, s)
  end.

End Str.

(* ================================================================== *)
(** ** [std::istringstream] and formatted extraction of words *)

Module IStream.

(** The stream is the text not yet consumed and its fail bit. *)
Record istringstream : Type := mk {
  buf : string;
  fail : bool
}.

Definition open (s : string) : istringstream := mk s false.

(** [iss >> word]: skips leading white space, then reads up to the next
    white space.  When nothing can be read the fail bit is set; on a failed
    stream nothing is done.  In both cases the target keeps what it held,
    and every target of the core is a fresh empty string, so the word is
    empty. *)
Definition extract (iss : istringstream) : string * istringstream :=
  if fail iss then (EmptyString, iss)
  else
    let (w, rest) := Str.span (fun c => negb (CType.isspace c))
                              (Str.ltrim (buf iss)) in
    if Str.empty w then (EmptyString, mk rest true)
    else (w, mk rest false).

(** [while (iss >> arg) args.push_back(arg);] with the loop bound made
    explicit: every successful extraction consumes a character. *)
Fixpoint extract_all (fuel : nat) (iss : istringstream) : list string :=
  match fuel with
  | 0 => []
  | S fuel' =>
      let (w, iss') := extract iss in
      if fail iss' then [] else w :: extract_all fuel' iss'
  end.

Definition read_all (iss : istringstream) : list string :=
  extract_all (S (length (buf iss))) iss.

End IStream.

(* ================================================================== *)
(** ** [std::map<std::string, std::vector<std::string>>]

    An association list kept in ascending key order ([std::less] on
    [std::string] is the lexicographic order on unsigned bytes, which is
    [String.compare]); iteration is the list order. *)

Module StdMap.

Definition t : Type := list (string * list string).

Definition empty : t := [].

(** [m[k] = v]: insert or overwrite. *)
Fixpoint assign (k : string) (v : list string) (m : t) : t :=
  match m with
  | [] => [(k, v)]
  | (k', v') :: m' =>
      match String.compare k k' with
      | Lt => (k, v) :: m
      | Eq => (k, v) :: m'
      | Gt => (k', v') :: assign k v m'
      end
  end.

(** [m.insert({k, v})]: a key already present keeps its value. *)
Fixpoint insert (k : string) (v : list string) (m : t) : t :=
  match m with
  | [] => [(k, v)]
  | (k', v') :: m' =>
      match String.compare k k' with
      | Lt => (k, v) :: m
      | Eq => m
      | Gt => (k', v') :: insert k v m'
      end
  end.

(** Construction from an initializer list: the pairs are inserted in the
    order written. *)
Definition of_initializer_list (l : list (string * list string)) : t :=
  fold_left (fun m kv => insert (fst kv) (snd kv) m) l empty.

Definition keys (m : t) : list string := List.map fst m.

End StdMap.

(* ================================================================== *)
(** ** Tiers as numbers, and [std::stof] *)

(** A tier is a C++ [float], kept as the rational number the binary32
    value stands for; the constants the code compares with (4.0f, 3.0f,
    2.5f, 2.0f) are exact. *)
Definition float : Type := Q.

Definition FLT_MAX : Q := ((2 ^ 24 - 1) * 2 ^ 104)%Z # 1.

Definition FLT_MIN : Q := 1 # Z.to_pos (2 ^ 126).

Fixpoint decimal_value (acc : Z) (s : string) : Z :=
  match s with
  | EmptyString => acc
  | String c s' => decimal_value (10 * acc + CType.digit_value c) s'
  end.

(** [n * 2^k] as a rational. *)
Definition scaled (n k : Z) : Q :=
  if (0 <=? k)%Z then (n * 2 ^ k)%Z # 1
  else Qred (n # Z.to_pos (2 ^ (- k))).

(** The integer nearest to [n / d], for [0 <= n] and [0 < d]; a tie goes to
    the even one. *)
Definition round_half_even (n d : Z) : Z :=
  let q := (n / d)%Z in
  match (2 * (n mod d) ?= d)%Z with
  | Lt => q
  | Gt => (q + 1)%Z
  | Eq => if Z.even q then q else (q + 1)%Z
  end.

(** The integer nearest to [n / d / 2^k]. *)
Definition round_at (n d k : Z) : Z :=
  if (0 <=? k)%Z then round_half_even n (d * 2 ^ k)
  else round_half_even (n * 2 ^ (- k)) d.

(** The [e] with [2^e <= n / d < 2^(e + 1)], for [0 < n] and [0 < d]. *)
Definition binary_exponent (n d : Z) : Z :=
  let e := (Z.log2 n - Z.log2 d)%Z in
  let below := if (0 <=? e)%Z then (n <? d * 2 ^ e)%Z
               else (n * 2 ^ (- e) <? d)%Z in
  if below then (e - 1)%Z else e.

(** What [std::stof] does with the decimal [n / d] it has read: it calls
    [strtof] and throws [std::out_of_range] when that sets [ERANGE].
    [strtof] (glibc, default rounding mode) rounds to the nearest binary32
    value, ties to even: with 24 significant bits when the result is
    normal, on the grid of 2^-149 when it is below [FLT_MIN].  [ERANGE] is
    set when the rounded value is beyond [FLT_MAX], and when it is below
    [FLT_MIN] (tininess is detected after rounding, as on x86-64) and not
    the number read. *)
Definition strtof_value (n d : Z) : outcome float :=
  if (n =? 0)%Z then Ret 0%Q
  else
    let e := binary_exponent n d in
    let nearest := scaled (round_at n d (e - 23)) (e - 23) in
    if negb (Qle_bool nearest FLT_MAX) then Throw out_of_range
    else if Qle_bool FLT_MIN nearest then Ret nearest
    else
      let subnormal := scaled (round_at n d (- 149)) (- 149) in
      if Qeq_bool subnormal (n # Z.to_pos d) then Ret subnormal
      else Throw out_of_range.

(** [std::stof] on the grammar [digits[.digits]], which is the shape of every
    label the validator can hold (a key of the built-in table or a capture of
    [\d+(?:\.\d+)?]).  The longest such prefix is converted; with no leading
    digit there is no conversion ([std::invalid_argument]). *)
Definition stof (s : string) : outcome float :=
  let (ip, rest) := Str.span CType.isdigit s in
  if Str.empty ip then Throw invalid_argument
  else
    let fp := match rest with
              | String "."%char r => fst (Str.span CType.isdigit r)
              | _ => EmptyString
              end in
    strtof_value (decimal_value 0 (ip ++ fp)) (10 ^ Z.of_nat (String.length fp)).

(* ================================================================== *)
(** ** The two regular expressions of [parse_json]

    [std::regex] (ECMAScript grammar) searches for the leftmost match and,
    at a position, explores alternatives in priority order.  For these two
    patterns the exploration is deterministic, which the functions below
    spell out. *)

Module Regex.

(** The lazy group [(.*?)] followed by a closing bracket and a double quote:
    the shortest run of characters other than line terminators after which
    that pair stands. *)
Fixpoint lazy_body (s : string) : option (string * string) :=
  match s with
  | EmptyString => None
  | String c s' =>
      match (if Ascii.eqb c "]"%char then
               match s' with
               | String q rest => if Ascii.eqb q CType.quote then Some rest else None
               | EmptyString => None
               end
             else None) with
      | Some rest => Some (EmptyString, rest)
      | None =>
          if Ascii.eqb c CType.newline || Ascii.eqb c CType.carriage_return
          then None
          else match lazy_body s' with
               | Some (b, rest) => Some (String c b, rest)
               | None => None
               end
      end
  end.

(** A match of the tier pattern (written here with DQ for the double quote)
    [DQ(\d+(?:\.\d+)?)DQ:\s*\[(.*?)\]DQ] starting at the head of [s]:
    capture 1, capture 2 and the suffix after the match.  The greedy [\d+]
    and [\s*] cannot give characters back usefully: what follows them in the
    pattern (a quote, a dot, a bracket) is in neither class. *)
Definition match_tier_here (s : string) : option (string * string * string) :=
  match s with
  | String q s1 =>
      if negb (Ascii.eqb q CType.quote) then None else
      let (ip, s2) := Str.span CType.isdigit s1 in
      if Str.empty ip then None else
      let (label, s3) :=
        match s2 with
        | String "."%char r =>
            let (fp, r') := Str.span CType.isdigit r in
            if Str.empty fp then (ip, s2) else (ip ++ "." ++ fp, r')
        | _ => (ip, s2)
        end in
      match s3 with
      | String q' (String ":"%char s4) =>
          if negb (Ascii.eqb q' CType.quote) then None else
          match Str.ltrim s4 with
          | String "["%char s6 =>
              match lazy_body s6 with
              | Some (body, rest) => Some (label, body, rest)
              | None => None
              end
          | _ => None
          end
      | _ => None
      end
  | EmptyString => None
  end.

(** [std::regex_search] with the tier pattern. *)
Fixpoint search_tier (s : string) : option (string * string * string) :=
  match match_tier_here s with
  | Some r => Some r
  | None =>
      match s with
      | EmptyString => None
      | String _ s' => search_tier s'
      end
  end.

(** A match of the command pattern [DQ([^DQ]+)DQ] at the head of [s]:
    capture 1 and the suffix. *)
Definition match_cmd_here (s : string) : option (string * string) :=
  match s with
  | String q s1 =>
      if negb (Ascii.eqb q CType.quote) then None else
      let (w, s2) := Str.span (fun c => negb (Ascii.eqb c CType.quote)) s1 in
      if Str.empty w then None else
      match s2 with
      | String _ s3 => Some (w, s3)
      | EmptyString => None
      end
  | EmptyString => None
  end.

Fixpoint search_cmd (s : string) : option (string * string) :=
  match match_cmd_here s with
  | Some r => Some r
  | None =>
      match s with
      | EmptyString => None
      | String _ s' => search_cmd s'
      end
  end.

End Regex.

(* ================================================================== *)
(** ** TierValidator ([tier_validator.cpp]) *)

Record TierValidator : Type := mkTierValidator {
  tier_defaults_ : StdMap.t
}.

(** The inner [while] of [parse_json]: the quoted words of one bracket body.
    A match is at least three characters long, so the length bounds the
    number of iterations. *)
Fixpoint parse_commands (fuel : nat) (commands_str : string) : list string :=
  match fuel with
  | 0 => []
  | S fuel' =>
      match Regex.search_cmd commands_str with
      | Some (cmd, suffix) => cmd :: parse_commands fuel' suffix
      | None => []
      end
  end.

(** The outer [while] of [parse_json]. *)
Fixpoint parse_tiers (fuel : nat) (json : string) (m : StdMap.t) : StdMap.t :=
  match fuel with
  | 0 => m
  | S fuel' =>
      match Regex.search_tier json with
      | Some (tier, commands_str, suffix) =>
          let commands := parse_commands (length commands_str) commands_str in
          parse_tiers fuel' suffix (StdMap.assign tier commands m)
      | None => m
      end
  end.

Definition parse_json (json_content : string) (v : TierValidator) : TierValidator :=
  mkTierValidator (parse_tiers (length json_content) json_content (tier_defaults_ v)).

(** [load_from_file].  The argument is the content of
    [../isaac/data/tier_defaults.json], [None] when the file cannot be
    opened.  The [catch (...)] of the source guards exceptions of the stream
    and regex libraries; [parse_json] itself reports nothing, so once the file
    is open the answer is [true]. *)
Definition load_from_file (file : option string) (v : TierValidator)
  : bool * TierValidator :=
  match file with
  | None => (false, v)
  | Some json_content => (true, parse_json json_content v)
  end.

Definition hardcoded_defaults : list (string * list string) :=
  [ ("1", ["ls"; "cd"; "clear"; "cls"; "pwd"; "echo"; "cat"; "type";
           "Get-ChildItem"; "Set-Location"; "Get-Location"]);
    ("2", ["grep"; "Select-String"; "head"; "tail"; "sort"; "uniq"]);
    ("2.5", ["find"; "sed"; "awk"; "Where-Object"; "ForEach-Object"]);
    ("3", ["cp"; "mv"; "git"; "npm"; "pip"; "reset";
           "Copy-Item"; "Move-Item"; "New-Item"; "Remove-Item"]);
    ("4", ["rm"; "del"; "format"; "dd"; "Remove-Item"; "Format-Volume";
           "Clear-Disk"]) ].

Definition load_hardcoded_defaults (v : TierValidator) : TierValidator :=
  mkTierValidator (StdMap.of_initializer_list hardcoded_defaults).

Definition load_tier_defaults (file : option string) (v : TierValidator)
  : TierValidator :=
  let (loaded, v') := load_from_file file v in
  if negb loaded then load_hardcoded_defaults v' else v'.

(** The constructor; the rule file is its only input. *)
Definition TierValidator_new (file : option string) : TierValidator :=
  load_tier_defaults file (mkTierValidator StdMap.empty).

(** The base command of [get_tier]: first word, lower-cased. *)
Definition base_command (command : string) : string :=
  let (base_cmd, _) := IStream.extract (IStream.open command) in
  Str.to_lower base_cmd.

(** The inner [for] of [get_tier]. *)
Definition matches_any (base_cmd : string) (commands : list string) : bool :=
  existsb (fun cmd => String.eqb base_cmd (Str.to_lower cmd)) commands.

(** The outer [for] of [get_tier], in the iteration order of the map. *)
Fixpoint scan_tiers (m : StdMap.t) (base_cmd : string) : outcome float :=
  match m with
  | [] => Ret (3 # 1)
  | (tier_str, commands) :: m' =>
      if matches_any base_cmd commands then stof tier_str
      else scan_tiers m' base_cmd
  end.

Definition get_tier (v : TierValidator) (command : string) : outcome float :=
  if Str.empty command || Str.all_of CType.isspace command then Ret (3 # 1)
  else scan_tiers (tier_defaults_ v) (base_command command).

Definition lift_tier (p : float -> bool) (t : outcome float) : outcome bool :=
  match t with
  | Ret q => Ret (p q)
  | Throw e => Throw e
  end.

Definition is_safe (v : TierValidator) (command : string) : outcome bool :=
  lift_tier (fun tier => Qle_bool tier (2 # 1)) (get_tier v command).

Definition requires_confirmation (v : TierValidator) (command : string)
  : outcome bool :=
  lift_tier (fun tier => Qeq_bool tier (5 # 2)) (get_tier v command).

Definition requires_validation (v : TierValidator) (command : string)
  : outcome bool :=
  lift_tier (fun tier => Qle_bool (3 # 1) tier) (get_tier v command).

(* ================================================================== *)
(** ** CommandResult and the shell adapter ([shell_adapter.cpp]) *)

Record CommandResult : Type := mkResult {
  success : bool;
  output : string;
  exit_code : Z
}.

(** The operating system behind [popen]/[fgets]/[pclose]: running a command
    line changes the world and gives back either nothing (the pipe could not
    be opened) or everything the process wrote and its exit status. *)
Class OperatingSystem : Type := {
  World : Type;
  popen_read : string -> World -> option (string * Z) * World
}.

(** State threaded through a call of the core: the world, the commands handed
    to [ShellAdapter::execute] so far (oldest first) and what was written to
    [std::cout]. *)
Record Sys `{OperatingSystem} : Type := mkSys {
  world : World;
  shell_calls : list string;
  cout : list string
}.

Arguments mkSys {_} _ _ _.

(** Computations of the core: state passing, with exceptions. *)
Definition M `{OperatingSystem} (A : Type) : Type := Sys -> outcome A * Sys.

Definition ret `{OperatingSystem} {A : Type} (a : A) : M A :=
  fun s => (Ret a, s).

Definition bind `{OperatingSystem} {A B : Type} (m : M A) (k : A -> M B) : M B :=
  fun s =>
    match m s with
    | (Ret a, s') => k a s'
    | (Throw e, s') => (Throw e, s')
    end.

(** A pure computation that may throw. *)
Definition lift `{OperatingSystem} {A : Type} (o : outcome A) : M A :=
  fun s => (o, s).

Notation "x <- m ;; k" := (bind m (fun x => k))
  (at level 61, m at next level, right associativity).

Definition nl : string := String CType.newline EmptyString.

Module ShellAdapter.

(** [execute_unix] (the build without [_WIN32]); the timeout is accepted and
    not used, as in the source. *)
Definition execute_unix `{OperatingSystem} (command : string) (timeout_seconds : Z)
  (w : World) : CommandResult * World :=
  match popen_read command w with
  | (None, w') => (mkResult false "Isaac > Failed to execute command" (-1), w')
  | (Some (result, code), w') => (mkResult (Z.eqb code 0) result code, w')
  end.

Definition execute_with_timeout `{OperatingSystem} (command : string)
  (timeout_seconds : Z) (w : World) : CommandResult * World :=
  execute_unix command timeout_seconds w.

(** [execute]: the default timeout is 30 seconds.  The call is recorded. *)
Definition execute `{OperatingSystem} (command : string) : M CommandResult :=
  fun s =>
    let (r, w') := execute_with_timeout command 30 (world s) in
    (Ret r, mkSys w' (shell_calls s ++ [command])%list (cout s)).

End ShellAdapter.

(** [std::cout << line << std::endl]. *)
Definition print `{OperatingSystem} (line : string) : M unit :=
  fun s => (Ret tt, mkSys (world s) (shell_calls s) (cout s ++ [line])%list).

(* ================================================================== *)
(** ** Strategies ([strategies.hpp]): the closed set of variants *)

Inductive CommandStrategy : Type :=
| PipeStrategy
| CdStrategy
| ForceExecutionStrategy
| ExitQuitStrategy
| ConfigStrategy
| DeviceRoutingStrategy
| ExitBlockerStrategy
| TaskModeStrategy
| AgenticModeStrategy
| MetaCommandStrategy
| NaturalLanguageStrategy
| UnixAliasStrategy
| TierExecutionStrategy.

(** The priority each constructor passes to [BaseStrategy]. *)
Definition get_priority (s : CommandStrategy) : Z :=
  match s with
  | PipeStrategy => 10
  | CdStrategy => 15
  | ForceExecutionStrategy => 20
  | ExitQuitStrategy => 25
  | ConfigStrategy => 35
  | DeviceRoutingStrategy => 40
  | ExitBlockerStrategy => 40
  | TaskModeStrategy => 45
  | AgenticModeStrategy => 48
  | MetaCommandStrategy => 50
  | NaturalLanguageStrategy => 55
  | UnixAliasStrategy => 60
  | TierExecutionStrategy => 100
  end.

Definition exit_words : list string :=
  ["exit"; "quit"; "q"; "/exit"; "/quit"; "/q"].

Definition can_handle (s : CommandStrategy) (input : string) : bool :=
  match s with
  | PipeStrategy =>
      match Str.find_char "|"%char 0 input with Some _ => true | None => false end
  | CdStrategy => Str.found_at_0 "cd " input || String.eqb input "cd"
  | ForceExecutionStrategy => Str.first_is "!"%char input
  | ExitQuitStrategy =>
      existsb (String.eqb (Str.to_lower input)) exit_words
  | ConfigStrategy => Str.found_at_0 "/config" input
  | DeviceRoutingStrategy => Str.first_is "!"%char input
  | ExitBlockerStrategy => false
  | TaskModeStrategy => Str.found_at_0 "isaac task:" input
  | AgenticModeStrategy =>
      Str.found_at_0 "isaac agent:" input || Str.found_at_0 "isaac agentic:" input
  | MetaCommandStrategy => Str.first_is "/"%char input
  | NaturalLanguageStrategy => Str.found_at_0 "isaac" (Str.to_lower input)
  | UnixAliasStrategy => false
  | TierExecutionStrategy => true
  end.

(** [get_help] of a strategy; the base class gives the empty string. *)
Definition strategy_help (s : CommandStrategy) : string :=
  match s with
  | PipeStrategy => "Pipe commands: cmd1 | cmd2"
  | CdStrategy => "Change directory: cd <path>"
  | ForceExecutionStrategy => "Force execute: !command"
  | ExitQuitStrategy => "Exit shell: exit, quit, q"
  | ConfigStrategy => "Configuration commands: /config set/get/list"
  | DeviceRoutingStrategy => "Device routing: !device command"
  | ExitBlockerStrategy => EmptyString
  | TaskModeStrategy => "Task mode: isaac task: <description>"
  | AgenticModeStrategy => "Agentic mode: isaac agent: <query>"
  | MetaCommandStrategy => "Meta commands: /help, /status, etc."
  | NaturalLanguageStrategy => "AI queries: isaac <question>"
  | UnixAliasStrategy => EmptyString
  | TierExecutionStrategy => "Shell commands with safety validation"
  end.

(* ================================================================== *)
(** ** [std::sort]

    Library code, taken through the guarantee the C++ standard gives for it:
    for a comparator that is a strict weak ordering the result is a
    permutation of the input in which no element is followed by a smaller
    one.  Nothing is promised about the relative order of equivalent
    elements. *)

Record StrictWeakOrder {A : Type} (comp : A -> A -> bool) : Prop := {
  swo_asym : forall a b, comp a b = true -> comp b a = false;
  swo_negtrans : forall a b c, comp a b = false -> comp b c = false -> comp a c = false
}.

Definition sorted_wrt {A : Type} (comp : A -> A -> bool) (l : list A) : Prop :=
  StronglySorted (fun a b => comp b a = false) l.

Class StdSort : Type := {
  std_sort : forall A : Type, (A -> A -> bool) -> list A -> list A;
  std_sort_permutation :
    forall (A : Type) (comp : A -> A -> bool) (l : list A),
      Permutation l (std_sort comp l);
  std_sort_sorted :
    forall (A : Type) (comp : A -> A -> bool),
      StrictWeakOrder comp ->
      forall l : list A, sorted_wrt comp (std_sort comp l)
}.

(** Two sorts to run the model with.  [stable_insert] puts the new element in
    front of the first one that is not smaller, [late_insert] behind the last
    one that is not greater. *)
Fixpoint stable_insert {A : Type} (comp : A -> A -> bool) (x : A) (l : list A)
  : list A :=
  match l with
  | [] => [x]
  | y :: l' => if comp y x then y :: stable_insert comp x l' else x :: l
  end.

Fixpoint late_insert {A : Type} (comp : A -> A -> bool) (x : A) (l : list A)
  : list A :=
  match l with
  | [] => [x]
  | y :: l' => if comp x y then x :: l else y :: late_insert comp x l'
  end.

Definition stable_insertion_sort {A : Type} (comp : A -> A -> bool) (l : list A)
  : list A :=
  fold_right (stable_insert comp) [] l.

Definition tie_reversing_sort {A : Type} (comp : A -> A -> bool) (l : list A)
  : list A :=
  fold_right (late_insert comp) [] l.

(** The sort the program runs when built with libstdc++.  On a range of at
    most sixteen elements ([_S_threshold]) the introsort loop of [std::sort]
    does nothing and [__final_insertion_sort] hands the whole range to
    [__insertion_sort], which is modelled here; longer ranges are partitioned
    first and are not modelled.  The router sorts thirteen strategies. *)

(** [__unguarded_linear_insert]: the value moves towards the front past every
    element it is smaller than.  The part in front of it is given nearest
    element first, and so is the result. *)
Fixpoint unguarded_linear_insert {A : Type} (comp : A -> A -> bool) (val : A)
  (before : list A) : list A :=
  match before with
  | [] => [val]
  | next :: rest =>
      if comp val next then next :: unguarded_linear_insert comp val rest
      else val :: before
  end.

(** One turn of the loop of [__insertion_sort]: an element smaller than the
    first one is moved to the front ([std::move_backward]); any other is
    inserted linearly from the back. *)
Definition insertion_step {A : Type} (comp : A -> A -> bool) (sorted : list A)
  (val : A) : list A :=
  match sorted with
  | [] => [val]
  | first :: _ =>
      if comp val first then val :: sorted
      else rev (unguarded_linear_insert comp val (rev sorted))
  end.

Definition insertion_sort {A : Type} (comp : A -> A -> bool) (l : list A)
  : list A :=
  match l with
  | [] => []
  | first :: rest => fold_left (insertion_step comp) rest [first]
  end.

Definition _S_threshold : nat := 16.

(* ================================================================== *)
(** ** CommandRouter ([command_router.cpp]) *)

(** [load_count] is instrumentation, not a field of the class: the number of
    times [load_strategies] has run on this router. *)
Record CommandRouter : Type := mkRouter {
  validator_ : TierValidator;
  strategies_ : list CommandStrategy;
  strategies_loaded_ : bool;
  load_count : nat
}.

(** The constructor: a fresh validator, no strategy, not loaded. *)
Definition CommandRouter_new (file : option string) : CommandRouter :=
  mkRouter (TierValidator_new file) [] false 0.

(** The initializer list of [load_strategies], in the order written. *)
Definition registered : list CommandStrategy :=
  [ PipeStrategy; CdStrategy; ForceExecutionStrategy; ExitQuitStrategy;
    ConfigStrategy; DeviceRoutingStrategy; ExitBlockerStrategy;
    TaskModeStrategy; AgenticModeStrategy;
    MetaCommandStrategy; NaturalLanguageStrategy; UnixAliasStrategy;
    TierExecutionStrategy ].

Definition by_priority (a b : CommandStrategy) : bool :=
  (get_priority a <? get_priority b)%Z.

Definition load_strategies `{StdSort} (r : CommandRouter) : CommandRouter :=
  mkRouter (validator_ r) (std_sort by_priority registered)
           (strategies_loaded_ r) (S (load_count r)).

Definition ensure_strategies_loaded `{StdSort} (r : CommandRouter) : CommandRouter :=
  if negb (strategies_loaded_ r) then
    let r' := load_strategies r in
    mkRouter (validator_ r') (strategies_ r') true (load_count r')
  else r.

(** The seven bytes the source file holds between the quotes of the bullet
    literal. *)
Definition bullet : string :=
  String (ascii_of_nat 195) (String (ascii_of_nat 162)
  (String (ascii_of_nat 226) (String (ascii_of_nat 130) (String (ascii_of_nat 172)
  (String (ascii_of_nat 194) (String (ascii_of_nat 162) EmptyString)))))).

(** [CommandRouter::get_help], a [const] member: it reads [strategies_] as
    it finds it. *)
Definition get_help (r : CommandRouter) : string :=
  fold_left
    (fun help strategy =>
       let strategy_help := strategy_help strategy in
       if negb (Str.empty strategy_help)
       then help ++ ("  " ++ bullet ++ " " ++ strategy_help ++ nl)
       else help)
    (strategies_ r)
    ("Isaac Command Router - Available command types:" ++ nl).

Record StrategyContext : Type := mkContext {
  router : CommandRouter;
  validator : TierValidator
}.

(* ================================================================== *)
(** ** The [execute] members ([strategies.cpp], [routing/*.cpp]) *)

Section Execute.

Context `{OperatingSystem}.

Definition PipeStrategy_execute (input : string) : M CommandResult :=
  ShellAdapter.execute input.

Definition CdStrategy_execute (input : string) : M CommandResult :=
  let iss := IStream.open input in
  let (cmd, iss1) := IStream.extract iss in
  let (dir, _) := IStream.extract iss1 in
  let dir := if Str.empty dir then "~" else dir in
  ShellAdapter.execute ("cd " ++ dir).

Definition ForceExecutionStrategy_execute (input : string) : M CommandResult :=
  command <- lift (Str.substr 1 input) ;;
  ShellAdapter.execute (Str.ltrim command).

Definition ExitQuitStrategy_execute (input : string) : M CommandResult :=
  ret (mkResult true "Isaac > Goodbye!" 0).

Definition MetaCommandStrategy_execute (input : string) (context : StrategyContext)
  : M CommandResult :=
  command <- lift (Str.substr 1 input) ;;
  let command := Str.to_lower (Str.ltrim command) in
  if String.eqb command "help" then
    ret (mkResult true (get_help (router context)) 0)
  else if String.eqb command "status" then
    ret (mkResult true "Isaac > System status: C++ core active" 0)
  else
    ret (mkResult false ("Isaac > Unknown meta command: " ++ command) (-1)).

Definition NaturalLanguageStrategy_execute (input : string) : M CommandResult :=
  query <- lift (Str.substr 5 input) ;;
  ret (mkResult true ("Isaac > AI query: " ++ Str.ltrim query ++ " (C++ processing)") 0).

Definition tier3_warning : string :=
  "Isaac > Warning: Tier 3 command executed" ++ nl.

Definition tier25_notice : string :=
  "Isaac > Confirmation required for Tier 2.5 command" ++ nl.

Definition TierExecutionStrategy_execute (input : string) (context : StrategyContext)
  : M CommandResult :=
  tier <- lift (get_tier (validator context) input) ;;
  if Qle_bool (4 # 1) tier then
    ret (mkResult false "Isaac > Command blocked (Tier 4 - lockdown)" (-1))
  else if Qle_bool (3 # 1) tier then
    result <- ShellAdapter.execute input ;;
    ret (mkResult (success result) (tier3_warning ++ output result) (exit_code result))
  else if Qeq_bool tier (5 # 2) then
    result <- ShellAdapter.execute input ;;
    ret (mkResult (success result) (tier25_notice ++ output result) (exit_code result))
  else
    ShellAdapter.execute input.

(** The words after the first one: [iss >> command] then the [while] loop. *)
Definition config_args (input : string) : list string :=
  let iss := IStream.open input in
  let (command, iss1) := IStream.extract iss in
  IStream.read_all iss1.

Definition config_overview : string :=
  "Isaac > Configuration overview" ++ nl ++ "Available commands:" ++ nl ++
  "  /config set <key> <value>" ++ nl ++ "  /config get <key>" ++ nl ++
  "  /config list" ++ nl ++ "  /config status" ++ nl ++ nl ++
  "C++ ConfigStrategy implementation active".

Definition config_set_text (key value : string) : string :=
  "Isaac > Config set (C++): " ++ key ++ " = " ++ value ++ nl ++
  "Note: Full persistence requires Python config integration".

Definition config_get_text (key : string) : string :=
  "Isaac > Config get (C++): " ++ key ++ " = <value not implemented>" ++ nl ++
  "Note: Full config retrieval requires Python integration".

Definition config_list_text : string :=
  "Isaac > Available config keys (C++ implementation):" ++ nl ++
  "  machine_id" ++ nl ++ "  api_keys" ++ nl ++ "  preferences" ++ nl ++
  "  cloud_settings" ++ nl ++ nl ++
  "Note: Full listing requires Python config integration".

Definition config_status_text : string :=
  "Isaac > Config status: C++ ConfigStrategy active" ++ nl ++
  "  Implementation: Basic command parsing" ++ nl ++
  "  Persistence: Not yet integrated" ++ nl ++
  "  Features: set/get/list/status commands".

Definition config_unknown_text : string :=
  "Isaac > Unknown config command. Try: /config set/get/list/status" ++ nl ++ nl ++
  "C++ ConfigStrategy: Basic implementation active".

(** [args[i]]: every use below is behind the size test that makes it
    defined. *)
Definition at_index (args : list string) (i : nat) : string :=
  nth i args EmptyString.

Definition ConfigStrategy_execute (input : string) : M CommandResult :=
  let args := config_args input in
  match args with
  | [] => ret (mkResult true config_overview 0)
  | _ =>
      let subcommand := at_index args 0 in
      if String.eqb subcommand "set" && (3 <=? List.length args)%nat then
        let key := at_index args 1 in
        let value := at_index args 2 in
        ret (mkResult true (config_set_text key value) 0)
      else if String.eqb subcommand "get" && (2 <=? List.length args)%nat then
        let key := at_index args 1 in
        ret (mkResult true (config_get_text key) 0)
      else if String.eqb subcommand "list" then
        ret (mkResult true config_list_text 0)
      else if String.eqb subcommand "status" then
        ret (mkResult true config_status_text 0)
      else
        ret (mkResult false config_unknown_text 1)
  end.

Definition device_usage : string :=
  "Usage: !device_alias /command" ++ nl ++ "       !device_alias:strategy /command".

Definition DeviceRoutingStrategy_execute (input : string) : M CommandResult :=
  match Str.find_char " "%char 1 input with
  | None => ret (mkResult false device_usage 1)
  | Some space_pos =>
      device_spec <- lift (Str.substr_n 1 (space_pos - 1) input) ;;
      device_cmd <- lift (Str.substr (space_pos + 1) input) ;;
      names <- match Str.find_char ":"%char 0 device_spec with
               | Some colon_pos =>
                   device_alias <- lift (Str.substr_n 0 colon_pos device_spec) ;;
                   strategy_name <- lift (Str.substr (colon_pos + 1) device_spec) ;;
                   ret (device_alias, strategy_name)
               | None => ret (device_spec, "least_load")
               end ;;
      let (device_alias, strategy_name) := names : string * string in
      _ <- print ("Isaac > Executing on " ++ device_alias ++ ": " ++ device_cmd) ;;
      if String.eqb device_alias "local" || String.eqb device_alias "localhost" then
        ret (mkResult true
               ("Isaac > Executed locally: " ++ device_cmd ++ nl ++
                "Note: Full local execution requires shell adapter integration") 0)
      else if Str.found_at_0 "group" device_alias then
        ret (mkResult true
               ("Isaac > Load balancing across group '" ++ device_alias ++
                "' with strategy '" ++ strategy_name ++ "': " ++ device_cmd ++ nl ++
                "Note: Full group execution requires MachineRegistry integration") 0)
      else
        ret (mkResult true
               ("Isaac > Command queued for " ++ device_alias ++ " (strategy: " ++
                strategy_name ++ "): " ++ device_cmd ++ nl ++
                "Note: Full remote execution requires RemoteExecutor and cloud integration") 0)
  end.

Definition TaskModeStrategy_execute (input : string) : M CommandResult :=
  task_desc <- lift (Str.substr 11 input) ;;
  if Str.empty task_desc then
    ret (mkResult false
           "Isaac > Task mode requires a description. Usage: isaac task: <description>" 1)
  else
    ret (mkResult false
           ("Isaac > Task mode not yet fully implemented in C++: " ++ task_desc ++ nl ++
            "Note: Full task execution requires AI task planner integration") 1).

(** [npos + 1] wraps to 0. *)
Definition AgenticModeStrategy_execute (input : string) : M CommandResult :=
  let start := match Str.find_char ":"%char 0 input with
               | Some colon_pos => colon_pos + 1
               | None => 0
               end in
  agentic_query <- lift (Str.substr start input) ;;
  if Str.empty agentic_query then
    ret (mkResult false
           "Isaac > Agentic mode requires a query. Usage: isaac agent: <query> or isaac agentic: <query>" 1)
  else
    ret (mkResult false
           ("Isaac > Agentic mode not yet fully implemented in C++: " ++ agentic_query ++ nl ++
            "Note: Full agentic execution requires AgenticOrchestrator integration") 1).

(** Virtual dispatch of [execute]. *)
Definition execute (s : CommandStrategy) (input : string) (context : StrategyContext)
  : M CommandResult :=
  match s with
  | PipeStrategy => PipeStrategy_execute input
  | CdStrategy => CdStrategy_execute input
  | ForceExecutionStrategy => ForceExecutionStrategy_execute input
  | ExitQuitStrategy => ExitQuitStrategy_execute input
  | ConfigStrategy => ConfigStrategy_execute input
  | DeviceRoutingStrategy => DeviceRoutingStrategy_execute input
  | ExitBlockerStrategy =>
      ret (mkResult false "Exit blocker strategy not implemented" (-1))
  | TaskModeStrategy => TaskModeStrategy_execute input
  | AgenticModeStrategy => AgenticModeStrategy_execute input
  | MetaCommandStrategy => MetaCommandStrategy_execute input context
  | NaturalLanguageStrategy => NaturalLanguageStrategy_execute input
  | UnixAliasStrategy =>
      ret (mkResult false "Unix alias strategy not implemented" (-1))
  | TierExecutionStrategy => TierExecutionStrategy_execute input context
  end.

(* ------------------------------------------------------------------ *)
(** *** [route_command] *)

Definition no_strategy : CommandResult :=
  mkResult false "Isaac > No strategy could handle command" (-1).

(** The [for] loop of [route_command] and the statement after it. *)
Fixpoint try_strategies (strategies : list CommandStrategy) (input : string)
  (context : StrategyContext) : M CommandResult :=
  match strategies with
  | [] => ret no_strategy
  | strategy :: rest =>
      if can_handle strategy input then execute strategy input context
      else try_strategies rest input context
  end.

(** The strategy the loop stops at, if any. *)
Definition selected (strategies : list CommandStrategy) (input : string)
  : option CommandStrategy :=
  List.find (fun strategy => can_handle strategy input) strategies.

Context `{StdSort}.

(** [route_command]: the router after the call, the result (or the exception
    that leaves the call) and the state after the call.  The router is
    owned by a [shared_ptr], as the bindings hold it, so that
    [shared_from_this] gives the back reference of the context. *)
Definition route_command (r : CommandRouter) (input_text : string) (s : Sys)
  : CommandRouter * outcome CommandResult * Sys :=
  let r' := ensure_strategies_loaded r in
  let context := mkContext r' (validator_ r') in
  let (res, s') := try_strategies (strategies_ r') input_text context s in
  (r', res, s').

(* ------------------------------------------------------------------ *)
(** *** The public interface as a transition system *)

Inductive Call : Type :=
| RouteCommand (input_text : string)
| GetHelp.

Inductive Answer : Type :=
| Routed (res : outcome CommandResult)
| Help (text : string).

Definition step (c : Call) (st : CommandRouter * Sys) : Answer * (CommandRouter * Sys) :=
  let (r, s) := st in
  match c with
  | RouteCommand input_text =>
      match route_command r input_text s with
      | (r', res, s') => (Routed res, (r', s'))
      end
  | GetHelp => (Help (get_help r), (r, s))
  end.

Fixpoint run (cs : list Call) (st : CommandRouter * Sys) : CommandRouter * Sys :=
  match cs with
  | [] => st
  | c :: cs' => run cs' (snd (step c st))
  end.

End Execute.

(* ================================================================== *)
(** ** Vocabulary of the statements *)

(** Empty or white space only: the first test of [get_tier]. *)
Definition blank (command : string) : Prop :=
  Str.all_of CType.isspace command = true.

(** No alias of the rule table is the base command, letter case aside. *)
Definition no_alias_matches (v : TierValidator) (command : string) : Prop :=
  forall tier_str commands cmd,
    In (tier_str, commands) (tier_defaults_ v) ->
    In cmd commands ->
    Str.to_lower cmd <> base_command command.

Definition no_alias_matchesb (v : TierValidator) (command : string) : bool :=
  forallb (fun kv => negb (matches_any (base_command command) (snd kv)))
          (tier_defaults_ v).

(** The character occurs in the string. *)
Definition contains (c : ascii) (s : string) : Prop :=
  In c (list_ascii_of_string s).

(** Every label of the rule table converts with [std::stof]. *)
Definition labels_convert (v : TierValidator) : bool :=
  forallb (fun kv => match stof (fst kv) with Ret _ => true | Throw _ => false end)
          (tier_defaults_ v).

(** The aliases listed under a label. *)
Definition aliases (v : TierValidator) (tier_str : string) : list string :=
  match List.find (fun kv => String.eqb (fst kv) tier_str) (tier_defaults_ v) with
  | Some kv => snd kv
  | None => []
  end.

Definition dq : string := String CType.quote EmptyString.

(** A rule file cut short while being written. *)
Definition truncated_rule_file : string :=
  "{ " ++ dq ++ "1" ++ dq ++ ": [" ++ dq ++ "ls" ++ dq ++ ", " ++ dq ++ "cd" ++ dq.

(** A complete rule file in JSON. *)
Definition json_rule_file : string :=
  "{ " ++ dq ++ "1" ++ dq ++ ": [" ++ dq ++ "ls" ++ dq ++ "], " ++
  dq ++ "4" ++ dq ++ ": [" ++ dq ++ "rm" ++ dq ++ "] }".

(** A text shaped the way the tier pattern wants it, a double quote after
    each closing bracket. *)
Definition matching_rule_file : string :=
  dq ++ "4" ++ dq ++ ": [" ++ dq ++ "rm" ++ dq ++ ", " ++ dq ++ "del" ++ dq ++ "]" ++ dq ++
  " " ++ dq ++ "2.5" ++ dq ++ ":[" ++ dq ++ "find" ++ dq ++ "]" ++ dq.

(** A rule file with one label beyond the range of [float], 10^39, and one
    with a label below it, 10^-50. *)
Fixpoint zeros (n : nat) : string :=
  match n with
  | O => EmptyString
  | S n' => String "0" (zeros n')
  end.

Definition overflowing_label : string := "1" ++ zeros 39.

Definition underflowing_label : string := "0." ++ zeros 49 ++ "1".

Definition one_rule_file (label alias : string) : string :=
  dq ++ label ++ dq ++ ": [" ++ dq ++ alias ++ dq ++ "]" ++ dq.

Definition overflowing_rule_file : string := one_rule_file overflowing_label "ls".

Definition underflowing_rule_file : string := one_rule_file underflowing_label "ls".

(** The operating system used to run the model on examples: every command
    line succeeds and prints itself; the world counts the processes run. *)
Definition echo_os : OperatingSystem :=
  {| World := nat;
     popen_read := fun command w => (Some (command, 0%Z), S w) |}.

Definition boot `{OperatingSystem} (w : World) : Sys := mkSys w [] [].

(** The registration order with the two strategies of priority 40
    exchanged. *)
Definition registered_swapped : list CommandStrategy :=
  [ PipeStrategy; CdStrategy; ForceExecutionStrategy; ExitQuitStrategy;
    ConfigStrategy; ExitBlockerStrategy; DeviceRoutingStrategy;
    TaskModeStrategy; AgenticModeStrategy;
    MetaCommandStrategy; NaturalLanguageStrategy; UnixAliasStrategy;
    TierExecutionStrategy ].

(** In the list, the first element stands somewhere before the second. *)
Definition precedes {A : Type} (a b : A) (l : list A) : Prop :=
  exists l1 l2 l3, l = (l1 ++ a :: l2 ++ b :: l3)%list.

(** The first line of the help text. *)
Definition help_heading : string :=
  "Isaac Command Router - Available command types:" ++ nl.

(** Priorities never decrease along the list. *)
Definition ascending (l : list CommandStrategy) : Prop :=
  StronglySorted (fun a b => (get_priority a <= get_priority b)%Z) l.

(** The base commands the built-in table sends to tier 4: the aliases under
    the label 4 that no earlier label lists. *)
Definition tier4_bases : list string :=
  ["rm"; "del"; "format"; "dd"; "format-volume"; "clear-disk"].

Definition lockdown_result : CommandResult :=
  mkResult false "Isaac > Command blocked (Tier 4 - lockdown)" (-1).

(** A word: not empty, no white space. *)
Definition word (w : string) : Prop :=
  w <> EmptyString /\ Str.all_of (fun c => negb (CType.isspace c)) w = true.

(** The text occurs in the other one. *)
Definition mentions (needle text : string) : Prop :=
  exists before after, text = before ++ needle ++ after.

(** The example system at rest, and after one process. *)
Definition echo_boot : @Sys echo_os := @mkSys echo_os 0%nat [] [].

Definition echo_after (command : string) : @Sys echo_os :=
  @mkSys echo_os 1%nat [command] [].

(** The context of a fresh router over the built-in table. *)
Definition builtin_context : StrategyContext :=
  mkContext (CommandRouter_new None) (TierValidator_new None).

(** The two states of the registry of a router built over a rule file. *)
Inductive router_state `{StdSort} (file : option string) (r : CommandRouter) : Prop :=
| Unloaded :
    validator_ r = TierValidator_new file ->
    strategies_loaded_ r = false ->
    strategies_ r = [] ->
    load_count r = 0 ->
    router_state file r
| Loaded :
    validator_ r = TierValidator_new file ->
    strategies_loaded_ r = true ->
    strategies_ r = std_sort by_priority registered ->
    load_count r = 1 ->
    router_state file r.

(* ================================================================== *)
(** ** MemoryPool<CommandResult> ([memory_pool.hpp])

    The router owns a [MemoryPool<CommandResult>].  The pool is a vector of
    owning pointers; an object never moves and the vector never shrinks, so
    the address of an object is its position in the vector.  Each operation
    runs under the mutex of the pool, one at a time. *)

Module MemoryPool.

(** A pooled object: the flag it inherits from [Poolable] and the fields of
    the [CommandResult]. *)
Record slot : Type := mkSlot {
  in_use_ : bool;
  object : CommandResult
}.

Definition t : Type := list slot.

(** [CommandResult() = default]. *)
Definition default_result : CommandResult := mkResult false EmptyString (-1).

(** What [allocate] can forward to a constructor of [CommandResult]:
    nothing, the three fields, or another [CommandResult] for the implicit
    copy or move constructor.  That other object is given by value, flag
    included; it is not the object being rebuilt. *)
Inductive arguments : Type :=
| NoArguments
| Fields (success : bool) (output : string) (exit_code : Z)
| Copy (other : slot).

(** The object a constructor builds.  The two constructors of the class run
    [Poolable() : in_use_(false)] first; the implicit copy and move
    constructors copy the base with the rest, flag included. *)
Definition construct (args : arguments) : slot :=
  match args with
  | NoArguments => mkSlot false default_result
  | Fields success output exit_code => mkSlot false (mkResult success output exit_code)
  | Copy other => other
  end.

(** [MemoryPool(initial_capacity)]: [std::make_unique<T>()] for each. *)
Definition create (initial_capacity : nat) : t :=
  repeat (construct NoArguments) initial_capacity.

(** The [for] loop of [allocate]: at the first object not in use, the flag
    is set, the object is destroyed and a new one is constructed in its
    place from the arguments, which is what the slot then holds. *)
Fixpoint reuse (args : arguments) (pool : t) : option (nat * t) :=
  match pool with
  | [] => None
  | obj :: rest =>
      if negb (in_use_ obj) then
        let marked := mkSlot true (object obj) in
        let rebuilt := construct args in
        Some (0, rebuilt :: rest)
      else
        match reuse args rest with
        | Some (i, rest') => Some (S i, obj :: rest')
        | None => None
        end
  end.

(** [allocate(args...)]: the address returned and the pool afterwards.  With
    no free object a new one is made from the arguments, marked in use and
    appended. *)
Definition allocate (args : arguments) (pool : t) : nat * t :=
  match reuse args pool with
  | Some found => found
  | None =>
      let new_obj := construct args in
      (List.length pool, (pool ++ [mkSlot true (object new_obj)])%list)
  end.

(** [deallocate(obj)]: the object at that address, if the pool has it, is
    marked free. *)
Fixpoint deallocate (obj : nat) (pool : t) : t :=
  match pool, obj with
  | [], _ => []
  | pool_obj :: rest, 0 => mkSlot false (object pool_obj) :: rest
  | pool_obj :: rest, S obj' => pool_obj :: deallocate obj' rest
  end.

Definition size (pool : t) : nat := List.length pool.

Definition available (pool : t) : nat :=
  List.length (List.filter (fun obj => negb (in_use_ obj)) pool).

(** A use of the pool, and a run of uses with the addresses handed out. *)
Inductive use : Type :=
| Allocate (args : arguments)
| Deallocate (obj : nat).

Fixpoint run (uses : list use) (pool : t) : list nat * t :=
  match uses with
  | [] => ([], pool)
  | Allocate args :: uses' =>
      let (obj, pool') := allocate args pool in
      let (handed, final) := run uses' pool' in
      (obj :: handed, final)
  | Deallocate obj :: uses' => run uses' (deallocate obj pool)
  end.

(** Position of the first object not in use. *)
Fixpoint first_free (pool : t) : option nat :=
  match pool with
  | [] => None
  | obj :: rest =>
      if negb (in_use_ obj) then Some 0 else option_map S (first_free rest)
  end.

(** The constructor the arguments select leaves the object marked free. *)
Definition builds_free (args : arguments) : bool := negb (in_use_ (construct args)).

(** No allocation of the run copies an object that is marked in use. *)
Definition copies_no_object_in_use (uses : list use) : Prop :=
  Forall (fun u => match u with
                   | Allocate args => builds_free args = true
                   | Deallocate _ => True
                   end) uses.

(** All objects free. *)
Definition all_free (pool : t) : Prop := Forall (fun s => in_use_ s = false) pool.

End MemoryPool.

(* ================================================================== *)
(** ** Vocabulary of the further statements *)

(** The text starts with a digit. *)
Definition digit_led (s : string) : bool :=
  match s with
  | String c _ => CType.isdigit c
  | EmptyString => false
  end.

(** The first text ends the second. *)
Definition suffix_of (t s : string) : Prop := exists a, s = a ++ t.

(** The three ways an [execute] can go: nothing but an answer; one call of
    the shell, whose success and exit code the answer keeps; for device
    routing, one line on the standard output. *)
Inductive execute_shape `{OperatingSystem} (strategy : CommandStrategy) (s : Sys)
  : outcome CommandResult * Sys -> Prop :=
| PureAnswer (out : outcome CommandResult) :
    (forall res, out = Ret res -> (success res = true <-> exit_code res = 0%Z)) ->
    execute_shape strategy s (out, s)
| ShellAnswer (command : string) (r res : CommandResult) (s' : Sys) :
    ShellAdapter.execute command s = (Ret r, s') ->
    success res = success r -> exit_code res = exit_code r ->
    In strategy [PipeStrategy; CdStrategy; ForceExecutionStrategy;
                 TierExecutionStrategy] ->
    execute_shape strategy s (Ret res, s')
| LoggedAnswer (line : string) (res : CommandResult) :
    strategy = DeviceRoutingStrategy ->
    success res = true -> exit_code res = 0%Z ->
    execute_shape strategy s
      (Ret res, mkSys (world s) (shell_calls s) (cout s ++ [line])%list).


(* ================================================================== *)
(** * Facts about strings and streams *)

Module StrFacts.

Lemma prefix_empty (s : string) : prefix EmptyString s = true.
Proof. destruct s; reflexivity. Qed.

Lemma prefix_length (p s : string) :
  prefix p s = true -> String.length p <= String.length s.
Proof.
  revert s. induction p as [|a p IH]; intros [|b s] Hp; simpl in *;
    try discriminate; try lia.
  destruct (ascii_dec a b); [apply IH in Hp; lia | discriminate].
Qed.

Lemma index_0_cons (p : string) (b : ascii) (s : string) :
  index 0 p (String b s) =
  if prefix p (String b s) then Some 0
  else match index 0 p s with Some n => Some (S n) | None => None end.
Proof. reflexivity. Qed.

Lemma found_at_0_prefix (p s : string) :
  Str.found_at_0 p s = true -> prefix p s = true.
Proof.
  unfold Str.found_at_0, Str.find. destruct s as [|b s].
  - destruct p; [reflexivity | discriminate].
  - rewrite index_0_cons.
    destruct (prefix p (String b s)) eqn:E; [reflexivity|].
    destruct (index 0 p s); discriminate.
Qed.

Lemma found_at_0_length (p s : string) :
  Str.found_at_0 p s = true -> String.length p <= String.length s.
Proof. intros Hf. apply prefix_length, found_at_0_prefix, Hf. Qed.

Lemma prefix_char (c b : ascii) (s : string) :
  prefix (String c EmptyString) (String b s) = if ascii_dec c b then true else false.
Proof. simpl. destruct (ascii_dec c b); [apply prefix_empty | reflexivity]. Qed.

(** A character found is found inside the string. *)
Lemma find_char_bound (c : ascii) (s : string) :
  forall n m, Str.find_char c n s = Some m -> m < String.length s.
Proof.
  unfold Str.find_char, Str.find.
  induction s as [|b s IH]; intros [|n] m Hm; try discriminate.
  - rewrite index_0_cons, prefix_char in Hm.
    destruct (ascii_dec c b).
    + injection Hm as <-. simpl. lia.
    + destruct (index 0 (String c EmptyString) s) eqn:E; [|discriminate].
      injection Hm as <-. apply IH in E. simpl. lia.
  - simpl in Hm.
    destruct (index n (String c EmptyString) s) eqn:E; [|discriminate].
    injection Hm as <-. apply IH in E. simpl. lia.
Qed.

(** [s.find(c) != npos] says that [c] occurs in [s]. *)
Lemma find_char_occurs (c : ascii) (s : string) :
  In c (list_ascii_of_string s) <-> Str.find_char c 0 s <> None.
Proof.
  unfold Str.find_char, Str.find.
  induction s as [|b s IH].
  - simpl. split; [intros [] | intros Hn; now elim Hn].
  - rewrite index_0_cons, prefix_char. simpl.
    destruct (ascii_dec c b) as [->|Hne].
    + split; [discriminate | auto].
    + split.
      * intros [Heq | Hin]; [congruence|].
        apply IH in Hin. destruct (index 0 (String c EmptyString) s); congruence.
      * intros Hn. right. apply IH.
        destruct (index 0 (String c EmptyString) s); congruence.
Qed.

Lemma append_assoc (a b c : string) : (a ++ b) ++ c = a ++ (b ++ c).
Proof. induction a as [|x a IH]; simpl; [reflexivity | now rewrite IH]. Qed.

Lemma length_map (f : ascii -> ascii) (s : string) :
  String.length (Str.map f s) = String.length s.
Proof. induction s; simpl; congruence. Qed.

Lemma substr_ok (pos : nat) (s : string) :
  pos <= String.length s -> Str.substr pos s = Ret (Str.drop pos s).
Proof.
  intros Hle. unfold Str.substr.
  destruct (Nat.leb_spec pos (String.length s)); [reflexivity | lia].
Qed.

Lemma substr_n_ok (pos n : nat) (s : string) :
  pos <= String.length s -> Str.substr_n pos n s = Ret (substring pos n s).
Proof.
  intros Hle. unfold Str.substr_n.
  destruct (Nat.leb_spec pos (String.length s)); [reflexivity | lia].
Qed.

Lemma first_is_cons (c : ascii) (s : string) :
  Str.first_is c s = true -> exists rest, s = String c rest.
Proof.
  destruct s as [|b s]; simpl; [discriminate|].
  intros Hb. apply Ascii.eqb_eq in Hb. subst. now exists s.
Qed.

Lemma prefix_cons (a : ascii) (p : string) (s : string) :
  prefix (String a p) s = true -> exists rest, s = String a rest /\ prefix p rest = true.
Proof.
  destruct s as [|b s]; simpl; [discriminate|].
  destruct (ascii_dec a b) as [->|]; [|discriminate].
  intros Hp. now exists s.
Qed.

(** [tolower] neither creates nor removes white space. *)
Lemma isspace_tolower (c : ascii) :
  CType.isspace (CType.tolower c) = CType.isspace c.
Proof.
  destruct c as [[] [] [] [] [] [] [] []]; reflexivity.
Qed.

Lemma all_of_isspace_ltrim (s : string) :
  Str.all_of CType.isspace s = true -> Str.ltrim s = EmptyString.
Proof.
  induction s as [|c s IH]; simpl; [reflexivity|].
  destruct (CType.isspace c); simpl; [exact IH | discriminate].
Qed.

End StrFacts.

(* ================================================================== *)
(** * The two sorts meet the guarantee of [std::sort] *)

Section SortFacts.

Variable A : Type.
Variable comp : A -> A -> bool.

Lemma stable_insert_permutation (x : A) (l : list A) :
  Permutation (x :: l) (stable_insert comp x l).
Proof.
  induction l as [|y l IH]; simpl; [reflexivity|].
  destruct (comp y x); [|reflexivity].
  rewrite perm_swap. now apply perm_skip.
Qed.

Lemma late_insert_permutation (x : A) (l : list A) :
  Permutation (x :: l) (late_insert comp x l).
Proof.
  induction l as [|y l IH]; simpl; [reflexivity|].
  destruct (comp x y); [reflexivity|].
  rewrite perm_swap. now apply perm_skip.
Qed.

Lemma stable_insertion_sort_permutation (l : list A) :
  Permutation l (stable_insertion_sort comp l).
Proof.
  induction l as [|x l IH]; simpl; [reflexivity|].
  rewrite <- stable_insert_permutation. now apply perm_skip.
Qed.

Lemma tie_reversing_sort_permutation (l : list A) :
  Permutation l (tie_reversing_sort comp l).
Proof.
  induction l as [|x l IH]; simpl; [reflexivity|].
  rewrite <- late_insert_permutation. now apply perm_skip.
Qed.

Lemma linear_insert_permutation (val : A) (before : list A) :
  Permutation (val :: before) (unguarded_linear_insert comp val before).
Proof.
  induction before as [|next rest IH]; simpl; [reflexivity|].
  destruct (comp val next); [|reflexivity].
  rewrite perm_swap. now apply perm_skip.
Qed.

Lemma insertion_step_permutation (sorted : list A) (val : A) :
  Permutation (val :: sorted) (insertion_step comp sorted val).
Proof.
  destruct sorted as [|first rest]; [reflexivity|].
  unfold insertion_step. destruct (comp val first); [reflexivity|].
  rewrite <- Permutation_rev, <- linear_insert_permutation.
  apply perm_skip, Permutation_rev.
Qed.

Lemma insertion_fold_permutation (rest sorted : list A) :
  Permutation (sorted ++ rest)%list (fold_left (insertion_step comp) rest sorted).
Proof.
  revert sorted. induction rest as [|val rest IH]; intros sorted; simpl.
  - now rewrite app_nil_r.
  - rewrite <- IH, <- insertion_step_permutation.
    rewrite <- Permutation_middle. reflexivity.
Qed.

Lemma insertion_sort_permutation (l : list A) :
  Permutation l (insertion_sort comp l).
Proof.
  destruct l as [|first rest]; [reflexivity|].
  unfold insertion_sort. now rewrite <- insertion_fold_permutation.
Qed.

(** An element that nothing before it is greater than stays where it is. *)
Lemma insertion_step_in_place (sorted : list A) (val : A) :
  sorted <> [] ->
  Forall (fun a => comp val a = false) sorted ->
  insertion_step comp sorted val = (sorted ++ [val])%list.
Proof.
  intros Hne Hall. destruct sorted as [|first rest]; [congruence|].
  unfold insertion_step.
  inversion Hall as [|? ? Hfirst Hrest]; subst. rewrite Hfirst.
  assert (Hrev : Forall (fun a => comp val a = false) (rev (first :: rest))).
  { apply Forall_rev. exact Hall. }
  destruct (rev (first :: rest)) as [|next before] eqn:E.
  - apply (f_equal (@rev A)) in E. rewrite rev_involutive in E. discriminate E.
  - inversion Hrev; subst. cbn [unguarded_linear_insert].
    replace (comp val next) with false by congruence.
    replace (first :: rest) with (rev (next :: before))
      by (rewrite <- E; apply rev_involutive).
    reflexivity.
Qed.

(** A range already in order comes out as it went in: no element moves. *)
Lemma insertion_fold_sorted_input (rest sorted : list A) :
  sorted <> [] ->
  sorted_wrt comp (sorted ++ rest)%list ->
  fold_left (insertion_step comp) rest sorted = (sorted ++ rest)%list.
Proof.
  revert sorted. induction rest as [|val rest IH]; intros sorted Hne Hs; simpl.
  - now rewrite app_nil_r.
  - rewrite insertion_step_in_place; [| exact Hne |].
    + rewrite IH; [now rewrite <- app_assoc | now destruct sorted |].
      now rewrite <- app_assoc.
    + unfold sorted_wrt in Hs. clear IH Hne.
      induction sorted as [|a sorted IHs]; [constructor|].
      simpl in Hs. inversion Hs as [|? ? Hs' Ha]; subst.
      constructor; [|now apply IHs].
      rewrite Forall_forall in Ha. apply Ha, in_or_app. right. now left.
Qed.

Lemma insertion_sort_sorted_input (l : list A) :
  sorted_wrt comp l -> insertion_sort comp l = l.
Proof.
  destruct l as [|first rest]; [reflexivity|]. intros Hs.
  unfold insertion_sort.
  now rewrite insertion_fold_sorted_input.
Qed.

Hypothesis comp_swo : StrictWeakOrder comp.

Lemma stable_insert_sorted (x : A) (l : list A) :
  sorted_wrt comp l -> sorted_wrt comp (stable_insert comp x l).
Proof.
  unfold sorted_wrt.
  induction l as [|y l IH]; intros Hs; simpl.
  - repeat constructor.
  - inversion Hs as [|? ? Hl Hy]; subst.
    destruct (comp y x) eqn:E.
    + constructor; [now apply IH|].
      apply (Permutation_Forall (stable_insert_permutation x l)).
      constructor; [now apply (swo_asym comp_swo) | exact Hy].
    + constructor; [exact Hs|].
      constructor; [exact E|].
      rewrite Forall_forall in *. intros z Hz.
      apply (swo_negtrans comp_swo) with (b := y); [now apply Hy | exact E].
Qed.

Lemma late_insert_sorted (x : A) (l : list A) :
  sorted_wrt comp l -> sorted_wrt comp (late_insert comp x l).
Proof.
  unfold sorted_wrt.
  induction l as [|y l IH]; intros Hs; simpl.
  - repeat constructor.
  - inversion Hs as [|? ? Hl Hy]; subst.
    destruct (comp x y) eqn:E.
    + constructor; [exact Hs|].
      constructor; [now apply (swo_asym comp_swo)|].
      rewrite Forall_forall in *. intros z Hz.
      apply (swo_negtrans comp_swo) with (b := y);
        [now apply Hy | now apply (swo_asym comp_swo)].
    + constructor; [now apply IH|].
      apply (Permutation_Forall (late_insert_permutation x l)).
      constructor; [exact E | exact Hy].
Qed.

Lemma stable_insertion_sort_sorted (l : list A) :
  sorted_wrt comp (stable_insertion_sort comp l).
Proof.
  induction l as [|x l IH]; simpl; [constructor|].
  now apply stable_insert_sorted.
Qed.

Lemma tie_reversing_sort_sorted (l : list A) :
  sorted_wrt comp (tie_reversing_sort comp l).
Proof.
  induction l as [|x l IH]; simpl; [constructor|].
  now apply late_insert_sorted.
Qed.

Lemma linear_insert_all (val : A) (before : list A) :
  forallb (comp val) before = true ->
  unguarded_linear_insert comp val before = (before ++ [val])%list.
Proof.
  induction before as [|next rest IH]; simpl; [reflexivity|].
  intros Hall. apply andb_prop in Hall as [Hn Hr].
  now rewrite Hn, IH.
Qed.

Lemma linear_insert_app (val y : A) (before : list A) :
  unguarded_linear_insert comp val (before ++ [y]) =
  if forallb (comp val) before
  then (before ++ (if comp val y then [y; val] else [val; y]))%list
  else (unguarded_linear_insert comp val before ++ [y])%list.
Proof.
  induction before as [|next rest IH]; simpl; [reflexivity|].
  destruct (comp val next); simpl; [|reflexivity].
  rewrite IH. destruct (forallb (comp val) rest); reflexivity.
Qed.

(** On a range in order the linear insertion from the back puts the value
    where [late_insert] puts it from the front. *)
Lemma linear_insert_late_insert (val : A) (l : list A) :
  sorted_wrt comp l ->
  rev (unguarded_linear_insert comp val (rev l)) = late_insert comp val l.
Proof.
  unfold sorted_wrt. induction l as [|y l IH]; intros Hs; [reflexivity|].
  inversion Hs as [|? ? Hl Hy]; subst.
  cbn [rev late_insert]. rewrite linear_insert_app.
  destruct (comp val y) eqn:Ey.
  - assert (Hall : forallb (comp val) (rev l) = true).
    { apply forallb_forall. intros z Hz. apply in_rev in Hz.
      rewrite Forall_forall in Hy. specialize (Hy z Hz).
      destruct (comp val z) eqn:Ez; [reflexivity|].
      pose proof (swo_negtrans comp_swo _ _ _ Ez Hy). congruence. }
    rewrite Hall, rev_app_distr, rev_involutive. reflexivity.
  - destruct (forallb (comp val) (rev l)) eqn:Hall.
    + rewrite rev_app_distr, rev_involutive. cbn [rev app].
      f_equal. rewrite <- (IH Hl), linear_insert_all by exact Hall.
      now rewrite rev_app_distr, rev_involutive.
    + rewrite rev_app_distr. cbn [rev app]. f_equal. now apply IH.
Qed.

Lemma insertion_step_late_insert (sorted : list A) (val : A) :
  sorted_wrt comp sorted ->
  insertion_step comp sorted val = late_insert comp val sorted.
Proof.
  intros Hs. destruct sorted as [|first rest]; [reflexivity|].
  unfold insertion_step. destruct (comp val first) eqn:E.
  - cbn [late_insert]. now rewrite E.
  - now apply linear_insert_late_insert.
Qed.

Lemma insertion_fold_sorted (rest sorted : list A) :
  sorted_wrt comp sorted ->
  sorted_wrt comp (fold_left (insertion_step comp) rest sorted).
Proof.
  revert sorted. induction rest as [|val rest IH]; intros sorted Hs; simpl;
    [exact Hs|].
  apply IH. rewrite insertion_step_late_insert by exact Hs.
  now apply late_insert_sorted.
Qed.

Lemma insertion_sort_sorted (l : list A) : sorted_wrt comp (insertion_sort comp l).
Proof.
  destruct l as [|first rest]; [constructor|].
  unfold insertion_sort. apply insertion_fold_sorted.
  repeat constructor.
Qed.

End SortFacts.

(** The insertion sort that keeps equivalent elements in their order. *)
Definition stable_impl : StdSort :=
  {| std_sort := @stable_insertion_sort;
     std_sort_permutation := stable_insertion_sort_permutation;
     std_sort_sorted := stable_insertion_sort_sorted |}.

(** The insertion sort that reverses them. *)
Definition tie_reversing_impl : StdSort :=
  {| std_sort := @tie_reversing_sort;
     std_sort_permutation := tie_reversing_sort_permutation;
     std_sort_sorted := tie_reversing_sort_sorted |}.

(** libstdc++'s [std::sort] on the ranges it sorts by insertion alone, those
    of at most [_S_threshold] elements. *)
Definition libstdcxx_impl : StdSort :=
  {| std_sort := @insertion_sort;
     std_sort_permutation := insertion_sort_permutation;
     std_sort_sorted := insertion_sort_sorted |}.

(* ================================================================== *)
(** * Facts about the tier validator *)

Module TierFacts.

Lemma builtin_table :
  tier_defaults_ (TierValidator_new None) = hardcoded_defaults.
Proof. reflexivity. Qed.

Lemma builtin_keys :
  StdMap.keys (tier_defaults_ (TierValidator_new None)) = ["1"; "2"; "2.5"; "3"; "4"].
Proof. reflexivity. Qed.

Lemma builtin_labels_convert : labels_convert (TierValidator_new None) = true.
Proof. vm_compute. reflexivity. Qed.

Lemma matches_any_spec (b : string) (commands : list string) :
  matches_any b commands = true <-> In b (List.map Str.to_lower commands).
Proof.
  unfold matches_any. rewrite existsb_exists, in_map_iff.
  split; intros [cmd [H1 H2]]; exists cmd.
  - apply String.eqb_eq in H2. auto.
  - split; [exact H2 | apply String.eqb_eq; auto].
Qed.

Lemma scan_tiers_no_match (m : StdMap.t) (b : string) :
  (forall kv, In kv m -> matches_any b (snd kv) = false) ->
  scan_tiers m b = Ret (3 # 1).
Proof.
  induction m as [|[tier_str commands] m IH]; intros Hno; simpl; [reflexivity|].
  pose proof (Hno (tier_str, commands) (or_introl eq_refl)) as H0.
  simpl in H0. rewrite H0.
  apply IH. intros kv Hin. apply Hno. right. exact Hin.
Qed.

(** With convertible labels the scan returns a number. *)
Lemma scan_tiers_returns (m : StdMap.t) (b : string) :
  forallb (fun kv => match stof (fst kv) with Ret _ => true | Throw _ => false end) m = true ->
  exists t, scan_tiers m b = Ret t.
Proof.
  induction m as [|[tier_str commands] m IH]; simpl; intros Hok.
  - now exists (3 # 1).
  - apply andb_prop in Hok as [H1 H2].
    destruct (matches_any b commands); [|now apply IH].
    destruct (stof tier_str) as [t|]; [now exists t | discriminate].
Qed.

Lemma get_tier_blank (v : TierValidator) (command : string) :
  blank command -> get_tier v command = Ret (3 # 1).
Proof.
  unfold blank, get_tier. intros ->. now rewrite orb_true_r.
Qed.

Lemma get_tier_scan (v : TierValidator) (command : string) :
  Str.all_of CType.isspace command = false ->
  get_tier v command = scan_tiers (tier_defaults_ v) (base_command command).
Proof.
  unfold get_tier. intros Hnb. rewrite Hnb.
  destruct command; [discriminate | reflexivity].
Qed.

Lemma get_tier_returns (v : TierValidator) (command : string) :
  labels_convert v = true -> exists t, get_tier v command = Ret t.
Proof.
  intros Hok. unfold get_tier.
  destruct (Str.empty command || Str.all_of CType.isspace command).
  - now exists (3 # 1).
  - now apply scan_tiers_returns.
Qed.

Lemma base_command_blank (command : string) :
  blank command -> base_command command = EmptyString.
Proof.
  unfold blank, base_command, IStream.extract. simpl. intros Hb.
  rewrite (StrFacts.all_of_isspace_ltrim _ Hb). reflexivity.
Qed.

(** A command whose base command is not empty is not blank. *)
Lemma base_command_not_blank (command : string) :
  base_command command <> EmptyString ->
  Str.all_of CType.isspace command = false.
Proof.
  intros Hne. destruct (Str.all_of CType.isspace command) eqn:E; [|reflexivity].
  elim Hne. now apply base_command_blank.
Qed.

Lemma no_alias_matchesb_sound (v : TierValidator) (command : string) :
  no_alias_matchesb v command = true -> no_alias_matches v command.
Proof.
  unfold no_alias_matchesb, no_alias_matches.
  rewrite forallb_forall. intros Hall tier_str commands cmd Hin Hcmd Heq.
  specialize (Hall _ Hin). simpl in Hall.
  apply negb_true_iff in Hall.
  assert (Hm : matches_any (base_command command) commands = true).
  { apply matches_any_spec. rewrite <- Heq. now apply in_map. }
  congruence.
Qed.

Lemma get_tier_no_match (v : TierValidator) (command : string) :
  no_alias_matches v command -> get_tier v command = Ret (3 # 1).
Proof.
  intros Hno. unfold get_tier.
  destruct (Str.empty command || Str.all_of CType.isspace command); [reflexivity|].
  apply scan_tiers_no_match. intros [tier_str commands] Hin. simpl.
  destruct (matches_any (base_command command) commands) eqn:E; [|reflexivity].
  apply matches_any_spec in E. apply in_map_iff in E as [cmd [Hlow Hcmd]].
  elim (Hno tier_str commands cmd Hin Hcmd Hlow).
Qed.

(** A word without white space is its own first word. *)
Lemma span_nonspace_all (s : string) :
  Str.all_of (fun c => negb (CType.isspace c)) s = true ->
  Str.span (fun c => negb (CType.isspace c)) s = (s, EmptyString).
Proof.
  induction s as [|c s IH]; simpl; [reflexivity|].
  intros Hall. apply andb_prop in Hall as [Hc Hs].
  rewrite Hc, (IH Hs). reflexivity.
Qed.

Lemma base_command_word (s : string) :
  Str.all_of (fun c => negb (CType.isspace c)) s = true ->
  base_command s = Str.to_lower s.
Proof.
  intros Hall. unfold base_command, IStream.extract. simpl.
  destruct s as [|c s]; [reflexivity|].
  pose proof Hall as Hall'. simpl in Hall'. apply andb_prop in Hall' as [Hc _].
  apply negb_true_iff in Hc.
  replace (Str.ltrim (String c s)) with (String c s) by (simpl; now rewrite Hc).
  rewrite (span_nonspace_all _ Hall). reflexivity.
Qed.

Lemma nonspace_to_lower (s : string) :
  Str.all_of (fun c => negb (CType.isspace c)) (Str.to_lower s) =
  Str.all_of (fun c => negb (CType.isspace c)) s.
Proof.
  induction s as [|c s IH]; simpl; [reflexivity|].
  unfold Str.to_lower in IH. now rewrite IH, StrFacts.isspace_tolower.
Qed.

(** What [get_tier] answers under the built-in table, on the examples of the
    specification. *)
Lemma builtin_examples :
  let v := TierValidator_new None in
  get_tier v "ls" = Ret (1 # 1) /\
  get_tier v "grep x" = Ret (2 # 1) /\
  get_tier v "find ." = Ret (5 # 2) /\
  get_tier v "rm -rf /" = Ret (4 # 1) /\
  get_tier v EmptyString = Ret (3 # 1) /\
  get_tier v "   " = Ret (3 # 1) /\
  is_safe v "ls" = Ret true /\
  is_safe v "rm -rf /" = Ret false /\
  requires_confirmation v "find ." = Ret true /\
  requires_validation v "git status" = Ret true.
Proof. vm_compute. repeat split. Qed.

End TierFacts.

(* ================================================================== *)
(** * The dispatch order whatever [std::sort] does with ties *)

Module OrderFacts.

Lemma by_priority_swo : StrictWeakOrder by_priority.
Proof.
  split; unfold by_priority; intros.
  - apply Z.ltb_lt in H. apply Z.ltb_ge. lia.
  - apply Z.ltb_ge in H, H0. apply Z.ltb_ge. lia.
Qed.

Lemma sorted_ascending (l : list CommandStrategy) :
  sorted_wrt by_priority l <-> ascending l.
Proof.
  unfold sorted_wrt, ascending, by_priority.
  induction l as [|x l IH]; split; intros Hs; try constructor;
    inversion Hs as [|? ? Hl Hx]; subst; try (now apply IH).
  - rewrite Forall_forall in *. intros y Hy. apply Z.ltb_ge. now apply Hx.
  - rewrite Forall_forall in *. intros y Hy. apply Z.ltb_ge. now apply Hx.
Qed.

(** The only element of least priority comes first in every ascending
    arrangement. *)
Lemma unique_min_first (a : CommandStrategy) (rest l' : list CommandStrategy) :
  Permutation (a :: rest) l' ->
  ascending l' ->
  Forall (fun y => (get_priority a < get_priority y)%Z) rest ->
  exists t, l' = a :: t /\ Permutation rest t /\ ascending t.
Proof.
  intros HP HS HF.
  destruct l' as [|x t].
  { apply Permutation_sym, Permutation_nil in HP. discriminate. }
  inversion HS as [|? ? Ht Hx]; subst.
  assert (Hin : In x (a :: rest)).
  { apply Permutation_in with (l := x :: t); [now symmetry | now left]. }
  destruct Hin as [<- | Hin].
  - exists t. repeat split; [now apply Permutation_cons_inv with (a := a) | exact Ht].
  - exfalso. rewrite Forall_forall in HF, Hx.
    pose proof (HF x Hin) as Hlt.
    assert (Ha : In a (x :: t)).
    { apply Permutation_in with (l := a :: rest); [exact HP | now left]. }
    destruct Ha as [-> | Ha]; [lia|].
    specialize (Hx a Ha). lia.
Qed.

(** Two elements that share the least priority come first, in either
    order. *)
Lemma tied_min_first (a b : CommandStrategy) (rest l' : list CommandStrategy) :
  Permutation (a :: b :: rest) l' ->
  ascending l' ->
  get_priority a = get_priority b ->
  Forall (fun y => (get_priority a < get_priority y)%Z) rest ->
  exists t, (l' = a :: b :: t \/ l' = b :: a :: t) /\ Permutation rest t /\ ascending t.
Proof.
  intros HP HS Hab HF.
  destruct l' as [|x t].
  { apply Permutation_sym, Permutation_nil in HP. discriminate. }
  inversion HS as [|? ? Ht Hx]; subst.
  assert (Hin : In x (a :: b :: rest)).
  { apply Permutation_in with (l := x :: t); [now symmetry | now left]. }
  destruct Hin as [<- | [<- | Hin]].
  - apply Permutation_cons_inv in HP.
    destruct (unique_min_first HP Ht) as (t' & -> & HP' & Ht').
    { now rewrite <- Hab. }
    exists t'. auto.
  - rewrite perm_swap in HP. apply Permutation_cons_inv in HP.
    destruct (unique_min_first HP Ht) as (t' & -> & HP' & Ht'); [exact HF|].
    exists t'. auto.
  - exfalso. rewrite Forall_forall in HF, Hx.
    pose proof (HF x Hin) as Hlt.
    assert (Ha : In a (x :: t)).
    { apply Permutation_in with (l := a :: b :: rest); [exact HP | now left]. }
    destruct Ha as [-> | Ha]; [lia|].
    specialize (Hx a Ha). lia.
Qed.

Ltac min_step HP HS :=
  let t := fresh "t" in
  let E := fresh "E" in
  let HP' := fresh "HP" in
  let HS' := fresh "HS" in
  destruct (unique_min_first HP HS) as (t & E & HP' & HS');
  [ repeat constructor; reflexivity | ];
  subst; clear HP HS; rename HP' into HP; rename HS' into HS.

(** Every ascending arrangement of the thirteen strategies is the
    registration order, up to the order of the two strategies of priority
    40. *)
Lemma ascending_arrangements (l : list CommandStrategy) :
  Permutation registered l -> ascending l ->
  l = registered \/ l = registered_swapped.
Proof.
  intros HP HS. unfold registered in HP.
  do 5 min_step HP HS.
  destruct (tied_min_first HP HS) as (t' & E & HP' & HS');
    [ reflexivity | repeat constructor; reflexivity | ].
  clear HP HS. rename HP' into HP. rename HS' into HS.
  assert (Ht' : t' = [TaskModeStrategy; AgenticModeStrategy; MetaCommandStrategy;
                      NaturalLanguageStrategy; UnixAliasStrategy; TierExecutionStrategy]).
  { do 6 min_step HP HS.
    apply Permutation_nil in HP. now subst. }
  subst t'. destruct E as [-> | ->]; [now left | now right].
Qed.

Lemma std_sort_arrangements `{StdSort} :
  std_sort by_priority registered = registered \/
  std_sort by_priority registered = registered_swapped.
Proof.
  apply ascending_arrangements.
  - apply std_sort_permutation.
  - apply sorted_ascending, std_sort_sorted, by_priority_swo.
Qed.

Lemma selected_swapped (input : string) :
  selected registered_swapped input = selected registered input.
Proof. reflexivity. Qed.

Lemma help_swapped (v : TierValidator) (b : bool) (n : nat) :
  get_help (mkRouter v registered_swapped b n) = get_help (mkRouter v registered b n).
Proof. reflexivity. Qed.

End OrderFacts.

(* ================================================================== *)
(** * Facts about strategies and the router *)

Section RouterFacts.

Context `{OperatingSystem}.

Lemma bind_lift_ret {A B : Type} (a : A) (k : A -> M B) (s : Sys) :
  bind (lift (Ret a)) k s = k a s.
Proof. reflexivity. Qed.

Lemma bind_ret {A B : Type} (a : A) (k : A -> M B) (s : Sys) :
  bind (ret a) k s = k a s.
Proof. reflexivity. Qed.

(** A call of the shell returns, and is recorded. *)
Lemma shell_execute_spec (command : string) (s : Sys) :
  exists r w',
    ShellAdapter.execute_with_timeout command 30 (world s) = (r, w') /\
    ShellAdapter.execute command s =
      (Ret r, mkSys w' (shell_calls s ++ [command])%list (cout s)).
Proof.
  unfold ShellAdapter.execute.
  destruct (ShellAdapter.execute_with_timeout command 30 (world s)) as [r w'].
  now exists r, w'.
Qed.

Lemma shell_execute_returns (command : string) (s : Sys) :
  exists res s', ShellAdapter.execute command s = (Ret res, s').
Proof.
  destruct (shell_execute_spec command s) as (r & w' & _ & E).
  rewrite E. eauto.
Qed.

(** The result of the shell adapter is a success exactly when the exit code
    is zero. *)
Lemma shell_success_iff_zero (command : string) (timeout : Z) (w : World) :
  let r := fst (ShellAdapter.execute_with_timeout command timeout w) in
  success r = true <-> exit_code r = 0%Z.
Proof.
  unfold ShellAdapter.execute_with_timeout, ShellAdapter.execute_unix.
  destruct (popen_read command w) as [[[result code]|] w']; simpl.
  - apply Z.eqb_eq.
  - split; [discriminate | lia].
Qed.

Lemma DeviceRouting_returns (input : string) (s : Sys) :
  exists res s', DeviceRoutingStrategy_execute input s = (Ret res, s').
Proof.
  unfold DeviceRoutingStrategy_execute.
  destruct (Str.find_char " " 1 input) as [space_pos|] eqn:E; [|unfold ret; eauto].
  apply StrFacts.find_char_bound in E.
  rewrite StrFacts.substr_n_ok by lia. rewrite bind_lift_ret.
  rewrite StrFacts.substr_ok by lia. rewrite bind_lift_ret.
  set (device_spec := substring 1 (space_pos - 1) input).
  set (device_cmd := Str.drop (space_pos + 1) input).
  destruct (Str.find_char ":" 0 device_spec) as [colon_pos|] eqn:E2.
  - apply StrFacts.find_char_bound in E2.
    rewrite StrFacts.substr_n_ok by lia.
    rewrite StrFacts.substr_ok by lia.
    unfold bind, lift, ret, print.
    destruct (_ || _); [eauto|]. destruct (Str.found_at_0 _ _); eauto.
  - unfold bind, lift, ret, print.
    destruct (_ || _); [eauto|]. destruct (Str.found_at_0 _ _); eauto.
Qed.

Lemma TierExecution_returns (input : string) (context : StrategyContext) (s : Sys) :
  labels_convert (validator context) = true ->
  exists res s', TierExecutionStrategy_execute input context s = (Ret res, s').
Proof.
  intros Hok. unfold TierExecutionStrategy_execute.
  destruct (TierFacts.get_tier_returns _ input Hok) as [t ->].
  rewrite bind_lift_ret.
  destruct (shell_execute_spec input s) as (r & w' & _ & E).
  destruct (Qle_bool (4 # 1) t); [unfold ret; eauto|].
  destruct (Qle_bool (3 # 1) t); [unfold bind, ret; rewrite E; eauto|].
  destruct (Qeq_bool t (5 # 2)); [unfold bind, ret; rewrite E; eauto|].
  rewrite E. eauto.
Qed.

(** No [execute] throws on an input its own predicate accepts, as long as
    the labels of the rule table convert. *)
Lemma execute_returns (strategy : CommandStrategy) (input : string)
      (context : StrategyContext) (s : Sys) :
  can_handle strategy input = true ->
  labels_convert (validator context) = true ->
  exists res s', execute strategy input context s = (Ret res, s').
Proof.
  intros Hcan Hok.
  destruct strategy; simpl in Hcan; try discriminate; unfold execute.
  - apply shell_execute_returns.
  - unfold CdStrategy_execute.
    destruct (IStream.extract (IStream.open input)) as [cmd iss1].
    destruct (IStream.extract iss1) as [dir iss2].
    apply shell_execute_returns.
  - apply StrFacts.first_is_cons in Hcan as [rest ->].
    unfold ForceExecutionStrategy_execute.
    rewrite StrFacts.substr_ok by (simpl; lia). rewrite bind_lift_ret.
    apply shell_execute_returns.
  - unfold ExitQuitStrategy_execute, ret. eauto.
  - unfold ConfigStrategy_execute.
    destruct (config_args input) as [|a args]; [unfold ret; eauto|].
    repeat match goal with
           | |- context [if ?b then _ else _] => destruct b
           end; unfold ret; eauto.
  - apply DeviceRouting_returns.
  - apply StrFacts.found_at_0_length in Hcan. simpl in Hcan.
    unfold TaskModeStrategy_execute.
    rewrite StrFacts.substr_ok by lia. rewrite bind_lift_ret.
    destruct (Str.empty _); unfold ret; eauto.
  - unfold AgenticModeStrategy_execute.
    destruct (Str.find_char ":" 0 input) as [colon_pos|] eqn:E.
    + apply StrFacts.find_char_bound in E.
      rewrite StrFacts.substr_ok by lia. rewrite bind_lift_ret.
      destruct (Str.empty _); unfold ret; eauto.
    + rewrite StrFacts.substr_ok by lia. rewrite bind_lift_ret.
      destruct (Str.empty _); unfold ret; eauto.
  - apply StrFacts.first_is_cons in Hcan as [rest ->].
    unfold MetaCommandStrategy_execute.
    rewrite StrFacts.substr_ok by (simpl; lia). rewrite bind_lift_ret.
    repeat match goal with
           | |- context [if ?b then _ else _] => destruct b
           end; unfold ret; eauto.
  - apply StrFacts.found_at_0_length in Hcan.
    unfold Str.to_lower in Hcan. rewrite StrFacts.length_map in Hcan. simpl in Hcan.
    unfold NaturalLanguageStrategy_execute.
    rewrite StrFacts.substr_ok by lia. rewrite bind_lift_ret.
    unfold ret; eauto.
  - now apply TierExecution_returns.
Qed.

(** The loop of [route_command] runs the strategy it stops at. *)
Lemma try_strategies_selected (l : list CommandStrategy) (input : string)
      (context : StrategyContext) :
  try_strategies l input context =
  match selected l input with
  | Some strategy => execute strategy input context
  | None => ret no_strategy
  end.
Proof.
  induction l as [|x l IH]; simpl; [reflexivity|].
  destruct (can_handle x input); [reflexivity | exact IH].
Qed.

Lemma selected_accepts (l : list CommandStrategy) (input : string)
      (strategy : CommandStrategy) :
  selected l input = Some strategy ->
  In strategy l /\ can_handle strategy input = true.
Proof. unfold selected. apply find_some. Qed.

(** What stands before the selected strategy refused the input. *)
Lemma selected_first (l : list CommandStrategy) (input : string)
      (strategy : CommandStrategy) :
  selected l input = Some strategy ->
  exists before after,
    l = (before ++ strategy :: after)%list /\
    Forall (fun other => can_handle other input = false) before.
Proof.
  unfold selected. induction l as [|x l IH]; simpl; [discriminate|].
  destruct (can_handle x input) eqn:E.
  - intros [= <-]. now exists [], l.
  - intros Hs. destruct (IH Hs) as (before & after & -> & HF).
    exists (x :: before), after. split; [reflexivity | now constructor].
Qed.

(** The default strategy closes the registration list, so something is
    always selected. *)
Lemma selected_registered (input : string) :
  exists strategy, selected registered input = Some strategy.
Proof.
  destruct (selected registered input) as [strategy|] eqn:E; [now exists strategy|].
  unfold selected in E.
  pose proof (find_none _ _ E TierExecutionStrategy) as Hn.
  simpl in Hn. discriminate Hn. unfold registered. simpl. tauto.
Qed.

Context `{StdSort}.

Lemma selected_sorted (input : string) :
  selected (std_sort by_priority registered) input = selected registered input.
Proof.
  destruct OrderFacts.std_sort_arrangements as [-> | ->];
    [reflexivity | apply OrderFacts.selected_swapped].
Qed.

(** ** The states a router goes through *)

Lemma new_router_state (file : option string) :
  router_state file (CommandRouter_new file).
Proof. now apply Unloaded. Qed.

Lemma ensure_loaded_state (file : option string) (r : CommandRouter) :
  router_state file r ->
  let r' := ensure_strategies_loaded r in
  validator_ r' = TierValidator_new file /\
  strategies_loaded_ r' = true /\
  strategies_ r' = std_sort by_priority registered /\
  load_count r' = 1.
Proof.
  intros [Hv Hl Hs Hc | Hv Hl Hs Hc]; unfold ensure_strategies_loaded;
    rewrite Hl; simpl; try rewrite Hc; auto.
Qed.

Lemma route_command_router (r : CommandRouter) (input : string) (s : Sys) :
  fst (fst (route_command r input s)) = ensure_strategies_loaded r.
Proof.
  unfold route_command.
  destruct (try_strategies _ _ _ s). reflexivity.
Qed.

Lemma step_router_state (file : option string) (c : Call) (r : CommandRouter) (s : Sys) :
  router_state file r -> router_state file (fst (snd (step c (r, s)))).
Proof.
  intros Hr. destruct c as [input|]; simpl; [|exact Hr].
  pose proof (route_command_router r input s) as E.
  destruct (route_command r input s) as [[r' res] s']. simpl in *. subst r'.
  destruct (ensure_loaded_state Hr) as (Hv & Hl & Hs & Hc).
  now apply Loaded.
Qed.

Lemma run_router_state (file : option string) (cs : list Call) :
  forall r s, router_state file r -> router_state file (fst (run cs (r, s))).
Proof.
  induction cs as [|c cs IH]; intros r s Hr; [exact Hr|].
  change (run (c :: cs) (r, s)) with (run cs (snd (step c (r, s)))).
  pose proof (step_router_state c s Hr) as Hr'.
  destruct (step c (r, s)) as [a [r' s']]. now apply IH.
Qed.

End RouterFacts.

(* ================================================================== *)
(** * Which inputs reach the default strategy under the built-in table *)

Module DefaultPath.

Lemma base_command_cons (c : ascii) (rest : string) :
  CType.isspace c = false ->
  exists w, base_command (String c rest) = String (CType.tolower c) w.
Proof.
  intros Hsp. unfold base_command, IStream.extract. simpl.
  rewrite Hsp. simpl. rewrite Hsp. simpl.
  destruct (Str.span (fun c0 => negb (CType.isspace c0)) rest) as [a b].
  simpl. now exists (Str.to_lower a).
Qed.

Lemma cd_base_command (input : string) :
  can_handle CdStrategy input = true -> base_command input = "cd".
Proof.
  cbn [can_handle]. intros Hc. apply orb_prop in Hc as [Hc | Hc].
  - apply StrFacts.found_at_0_prefix in Hc.
    apply StrFacts.prefix_cons in Hc as (r1 & -> & Hc).
    apply StrFacts.prefix_cons in Hc as (r2 & -> & Hc).
    apply StrFacts.prefix_cons in Hc as (r3 & -> & _).
    reflexivity.
  - apply String.eqb_eq in Hc. subst. reflexivity.
Qed.

(** The strategies anchored at the start of the input, the change of
    directory aside, want one of five first characters. *)
Lemma anchored_first_char (strategy : CommandStrategy) (c : ascii) (rest : string) :
  can_handle strategy (String c rest) = true ->
  strategy <> PipeStrategy -> strategy <> CdStrategy ->
  strategy <> TierExecutionStrategy ->
  In (CType.tolower c) ["!"; "e"; "q"; "/"; "i"]%char.
Proof.
  intros Hc Hp Hcd Ht.
  assert (Hfirst : forall k, Str.first_is k (String c rest) = true -> c = k).
  { intros k Hk. now apply Ascii.eqb_eq in Hk. }
  assert (Hpre : forall k p s, Str.found_at_0 (String k p) s = true ->
                               exists r, s = String k r).
  { intros k p s Hk.
    apply StrFacts.found_at_0_prefix, StrFacts.prefix_cons in Hk as (r & Hk & _).
    now exists r. }
  destruct strategy; try congruence; cbn [can_handle] in Hc; try discriminate.
  - apply Hfirst in Hc. subst. vm_compute. tauto.
  - change (Str.to_lower (String c rest))
      with (String (CType.tolower c) (Str.to_lower rest)) in Hc.
    unfold exit_words in Hc. cbn [existsb] in Hc.
    repeat (apply orb_prop in Hc as [Hc | Hc]);
      try discriminate; apply String.eqb_eq in Hc;
      injection Hc as Hc _; rewrite Hc; simpl; auto 10.
  - apply Hpre in Hc as [r Hc]. injection Hc as -> _. vm_compute. tauto.
  - apply Hfirst in Hc. subst. vm_compute. tauto.
  - apply Hpre in Hc as [r Hc]. injection Hc as -> _. vm_compute. tauto.
  - apply orb_prop in Hc as [Hc | Hc];
      apply Hpre in Hc as [r Hc]; injection Hc as -> _; vm_compute; tauto.
  - apply Hfirst in Hc. subst. vm_compute. tauto.
  - change (Str.to_lower (String c rest))
      with (String (CType.tolower c) (Str.to_lower rest)) in Hc.
    apply Hpre in Hc as [r Hc]. injection Hc as Hc _. rewrite Hc. simpl. auto 10.
Qed.

Lemma pipe_refuses (input : string) :
  ~ contains "|" input -> can_handle PipeStrategy input = false.
Proof.
  intros Hn. cbn [can_handle].
  destruct (Str.find_char "|" 0 input) eqn:E; [|reflexivity].
  elim Hn. apply StrFacts.find_char_occurs. congruence.
Qed.

Lemma pipe_accepts (input : string) :
  contains "|" input -> can_handle PipeStrategy input = true.
Proof.
  intros Hc. apply StrFacts.find_char_occurs in Hc. cbn [can_handle].
  destruct (Str.find_char "|" 0 input); [reflexivity | now elim Hc].
Qed.

Lemma tier4_others_refuse (input : string) (strategy : CommandStrategy) :
  In (base_command input) tier4_bases ->
  ~ contains "|" input ->
  strategy <> TierExecutionStrategy ->
  can_handle strategy input = false.
Proof.
  intros Hb Hpipe Hne.
  destruct (can_handle strategy input) eqn:Hc; [exfalso | reflexivity].
  assert (Hp : strategy <> PipeStrategy).
  { intros ->. rewrite (pipe_refuses input Hpipe) in Hc. discriminate. }
  assert (Hcd : strategy <> CdStrategy).
  { intros ->. rewrite (cd_base_command _ Hc) in Hb.
    simpl in Hb. intuition discriminate. }
  destruct input as [|c rest].
  { simpl in Hb. intuition discriminate. }
  pose proof (@anchored_first_char strategy c rest Hc Hp Hcd Hne) as Hlead.
  destruct (CType.isspace c) eqn:Hsp.
  - rewrite <- StrFacts.isspace_tolower in Hsp.
    simpl in Hlead.
    repeat (destruct Hlead as [Hlead | Hlead]; [rewrite <- Hlead in Hsp; discriminate|]).
    exact Hlead.
  - destruct (@base_command_cons c rest Hsp) as [w Hw]. rewrite Hw in Hb.
    simpl in Hb, Hlead.
    repeat (destruct Hb as [Hb | Hb];
            [injection Hb as Hb _; rewrite <- Hb in Hlead;
             intuition discriminate|]).
    exact Hb.
Qed.

Lemma selected_default (input : string) :
  (forall strategy, strategy <> TierExecutionStrategy ->
                    can_handle strategy input = false) ->
  selected registered input = Some TierExecutionStrategy.
Proof.
  intros Href. unfold selected, registered. cbn [List.find].
  rewrite !Href by discriminate. reflexivity.
Qed.

(** Under the built-in table a tier of 4 or more comes from one of six base
    commands. *)
Lemma builtin_tier4_base (input : string) (t : float) :
  get_tier (TierValidator_new None) input = Ret t ->
  Qle_bool (4 # 1) t = true ->
  In (base_command input) tier4_bases.
Proof.
  intros Ht Hle.
  destruct (Str.all_of CType.isspace input) eqn:Hb.
  { rewrite TierFacts.get_tier_blank in Ht by exact Hb.
    injection Ht as <-. discriminate. }
  rewrite TierFacts.get_tier_scan in Ht by exact Hb.
  rewrite TierFacts.builtin_table in Ht.
  set (b := base_command input) in *. clearbody b.
  unfold hardcoded_defaults in Ht. cbn [scan_tiers] in Ht.
  destruct (matches_any b _) eqn:E1 in Ht.
  { vm_compute in Ht. injection Ht as <-. discriminate. }
  destruct (matches_any b _) eqn:E2 in Ht.
  { vm_compute in Ht. injection Ht as <-. discriminate. }
  destruct (matches_any b _) eqn:E25 in Ht.
  { vm_compute in Ht. injection Ht as <-. discriminate. }
  destruct (matches_any b _) eqn:E3 in Ht.
  { vm_compute in Ht. injection Ht as <-. discriminate. }
  destruct (matches_any b _) eqn:E4 in Ht.
  2:{ injection Ht as <-. discriminate. }
  apply TierFacts.matches_any_spec in E4.
  change (In b ["rm"; "del"; "format"; "dd"; "remove-item"; "format-volume";
                "clear-disk"]) in E4.
  simpl in E4. unfold tier4_bases. simpl.
  destruct E4 as [E|[E|[E|[E|[E|[E|[E|[]]]]]]]]; auto 10.
  subst b. vm_compute in E3. discriminate.
Qed.

Lemma builtin_tier4_reaches_default (input : string) (t : float) :
  get_tier (TierValidator_new None) input = Ret t ->
  Qle_bool (4 # 1) t = true ->
  ~ contains "|" input ->
  selected registered input = Some TierExecutionStrategy.
Proof.
  intros Ht Hle Hpipe. apply selected_default. intros strategy Hne.
  apply tier4_others_refuse; [now apply builtin_tier4_base with t | exact Hpipe | exact Hne].
Qed.

End DefaultPath.

(* ================================================================== *)
(** * Words of a configuration command *)

Module ConfigFacts.

Lemma span_word_space (w rest : string) :
  Str.all_of (fun c => negb (CType.isspace c)) w = true ->
  Str.span (fun c => negb (CType.isspace c)) (w ++ String " " rest)
  = (w, String " " rest).
Proof.
  induction w as [|c w IH]; simpl; [reflexivity|].
  intros Hall. apply andb_prop in Hall as [Hc Hw].
  rewrite Hc, (IH Hw). reflexivity.
Qed.

Lemma ltrim_word (w rest : string) :
  word w -> Str.ltrim (w ++ rest) = w ++ rest.
Proof.
  intros [Hne Hall]. destruct w as [|c w]; [congruence|].
  simpl in *. apply andb_prop in Hall as [Hc _].
  apply negb_true_iff in Hc. now rewrite Hc.
Qed.

Lemma word_not_empty (w : string) : word w -> Str.empty w = false.
Proof. intros [Hne _]. destruct w; [congruence | reflexivity]. Qed.

Lemma span_word_end (w : string) :
  Str.all_of (fun c => negb (CType.isspace c)) w = true ->
  Str.span (fun c => negb (CType.isspace c)) w = (w, EmptyString).
Proof.
  induction w as [|c w IH]; simpl; [reflexivity|].
  intros Hall. apply andb_prop in Hall as [Hc Hw].
  rewrite Hc, (IH Hw). reflexivity.
Qed.

Lemma extract_word_space (w rest : string) :
  word w ->
  IStream.extract (IStream.mk (String " " (w ++ String " " rest)) false)
  = (w, IStream.mk (String " " rest) false).
Proof.
  intros Hw. unfold IStream.extract. cbn [IStream.fail IStream.buf].
  change (Str.ltrim (String " " (w ++ String " " rest)))
    with (Str.ltrim (w ++ String " " rest)).
  rewrite (@ltrim_word w _ Hw), (@span_word_space w _ (proj2 Hw)), (@word_not_empty w Hw).
  reflexivity.
Qed.

Lemma extract_word_end (w : string) :
  word w ->
  IStream.extract (IStream.mk (String " " w) false) = (w, IStream.mk EmptyString false).
Proof.
  intros Hw. unfold IStream.extract. cbn [IStream.fail IStream.buf].
  change (Str.ltrim (String " " w)) with (Str.ltrim w).
  assert (Hl : Str.ltrim w = w).
  { destruct Hw as [Hne Hall]. destruct w as [|c w]; [congruence|].
    simpl in *. apply andb_prop in Hall as [Hc _].
    apply negb_true_iff in Hc. now rewrite Hc. }
  rewrite Hl, (@span_word_end w (proj2 Hw)), (@word_not_empty w Hw).
  reflexivity.
Qed.

Lemma config_args_set (key value : string) :
  word key -> word value ->
  config_args ("/config set " ++ key ++ " " ++ value) = ["set"; key; value].
Proof.
  intros Hk Hv. unfold config_args.
  change (IStream.extract (IStream.open ("/config set " ++ key ++ " " ++ value)))
    with ("/config", IStream.mk (String " " ("set" ++ String " " (key ++ " " ++ value))) false).
  unfold IStream.read_all. cbn [IStream.buf].
  change (String.length (String " " ("set" ++ String " " (key ++ " " ++ value))))
    with (S (S (S (S (S (String.length (key ++ " " ++ value))))))).
  change (key ++ " " ++ value) with (key ++ String " " value).
  cbn [IStream.extract_all].
  rewrite (@extract_word_space "set" (key ++ String " " value))
    by (split; [discriminate | reflexivity]).
  cbn [IStream.fail].
  rewrite (@extract_word_space key value Hk). cbn [IStream.fail].
  rewrite (@extract_word_end value Hv). cbn [IStream.fail].
  reflexivity.
Qed.

Lemma config_args_set_short (key : string) :
  word key -> config_args ("/config set " ++ key) = ["set"; key].
Proof.
  intros Hk. unfold config_args.
  change (IStream.extract (IStream.open ("/config set " ++ key)))
    with ("/config", IStream.mk (String " " ("set" ++ String " " key)) false).
  unfold IStream.read_all. cbn [IStream.buf].
  change (String.length (String " " ("set" ++ String " " key)))
    with (S (S (S (S (S (String.length key)))))).
  cbn [IStream.extract_all].
  rewrite (@extract_word_space "set" key) by (split; [discriminate | reflexivity]).
  cbn [IStream.fail].
  rewrite (@extract_word_end key Hk). cbn [IStream.fail].
  reflexivity.
Qed.

End ConfigFacts.

(* ================================================================== *)
(** * The classifier *)

(** C4. [get_tier] answers 3.0 on every empty or white-space-only input and
    on every input whose lower-cased first word is no alias of the rule
    table, whatever the table; on such inputs validation is required and the
    command is neither safe nor merely to be confirmed. *)
Theorem C4_default_tier_requires_validation (v : TierValidator) (command : string) :
  blank command \/ no_alias_matches v command ->
  get_tier v command = Ret (3 # 1) /\
  requires_validation v command = Ret true /\
  is_safe v command = Ret false /\
  requires_confirmation v command = Ret false.
Proof.
  intros Hcase.
  assert (Ht : get_tier v command = Ret (3 # 1)).
  { destruct Hcase as [Hb | Hno];
      [now apply TierFacts.get_tier_blank | now apply TierFacts.get_tier_no_match]. }
  unfold requires_validation, is_safe, requires_confirmation.
  rewrite Ht. repeat split.
Qed.

Lemma C4_witness :
  let v := TierValidator_new None in
  (get_tier v "   " = Ret (3 # 1) /\ requires_validation v "   " = Ret true) /\
  (get_tier v EmptyString = Ret (3 # 1) /\ requires_validation v EmptyString = Ret true) /\
  (get_tier v "frobnicate -x" = Ret (3 # 1) /\
   requires_validation v "frobnicate -x" = Ret true).
Proof.
  intros v.
  pose proof (@C4_default_tier_requires_validation v "   "
                (or_introl (eq_refl true))) as (H1 & H2 & _).
  pose proof (@C4_default_tier_requires_validation v EmptyString
                (or_introl (eq_refl true))) as (H3 & H4 & _).
  pose proof (@C4_default_tier_requires_validation v "frobnicate -x"
                (or_intror (TierFacts.no_alias_matchesb_sound v "frobnicate -x"
                              (eq_refl true)))) as (H5 & H6 & _).
  exact (conj (conj H1 H2) (conj (conj H3 H4) (conj H5 H6))).
Defined.

(** C5, at the input where the code departs from it.  A rule file that is
    there but cut short does not bring the built-in table back: the table
    stays empty and the four examples are all classified 3.0. *)
Theorem C5_malformed_rule_file_empties_the_table :
  let v := TierValidator_new (Some truncated_rule_file) in
  load_from_file (Some truncated_rule_file) (mkTierValidator StdMap.empty)
    = (true, mkTierValidator StdMap.empty) /\
  tier_defaults_ v = [] /\
  get_tier v "ls" = Ret (3 # 1) /\
  get_tier v "grep x" = Ret (3 # 1) /\
  get_tier v "find ." = Ret (3 # 1) /\
  get_tier v "rm -rf /" = Ret (3 # 1).
Proof. vm_compute. repeat split. Qed.

(** With the file missing, the four examples have the tiers the
    specification gives. *)
Lemma missing_rule_file_tiers :
  let v := TierValidator_new None in
  tier_defaults_ v = hardcoded_defaults /\
  get_tier v "ls" = Ret (1 # 1) /\
  get_tier v "grep x" = Ret (2 # 1) /\
  get_tier v "find ." = Ret (5 # 2) /\
  get_tier v "rm -rf /" = Ret (4 # 1).
Proof. vm_compute. repeat split. Qed.

(** A complete JSON rule file fares no better: the tier pattern wants a
    double quote right after the closing bracket, which JSON never has. *)
Lemma json_rule_file_empties_the_table :
  let v := TierValidator_new (Some json_rule_file) in
  tier_defaults_ v = [] /\ get_tier v "rm -rf /" = Ret (3 # 1).
Proof. vm_compute. repeat split. Qed.

(** Once the file opens, whatever it holds, the built-in table is out of
    the picture. *)
Lemma present_rule_file_never_falls_back (json_content : string) :
  fst (load_from_file (Some json_content) (mkTierValidator StdMap.empty)) = true /\
  TierValidator_new (Some json_content)
    = parse_json json_content (mkTierValidator StdMap.empty).
Proof. split; reflexivity. Qed.

(** What [parse_json] does read. *)
Lemma matching_rule_file_is_read :
  let v := TierValidator_new (Some matching_rule_file) in
  tier_defaults_ v = [("2.5", ["find"]); ("4", ["rm"; "del"])] /\
  get_tier v "rm -rf /" = Ret (4 # 1) /\
  get_tier v "FIND ." = Ret (5 # 2) /\
  get_tier v "ls" = Ret (3 # 1).
Proof. vm_compute. repeat split. Qed.

(** C10. In the built-in table Remove-Item stands under both 3 and 4; the
    map is walked in the order 1, 2, 2.5, 3, 4; so Remove-Item, in any letter
    case, is classified 3.0 and not 4.0. *)
Theorem C10_remove_item_is_tier_3 (command : string) :
  Str.to_lower command = "remove-item" ->
  let v := TierValidator_new None in
  In "Remove-Item" (aliases v "3") /\
  In "Remove-Item" (aliases v "4") /\
  StdMap.keys (tier_defaults_ v) = ["1"; "2"; "2.5"; "3"; "4"] /\
  get_tier v command = Ret (3 # 1) /\
  get_tier v command <> Ret (4 # 1).
Proof.
  intros Hlow v.
  assert (Ht : get_tier v command = Ret (3 # 1)).
  { assert (Hw : Str.all_of (fun c => negb (CType.isspace c)) command = true).
    { rewrite <- TierFacts.nonspace_to_lower, Hlow. reflexivity. }
    assert (Hb : base_command command = "remove-item").
    { now rewrite TierFacts.base_command_word. }
    unfold v. rewrite TierFacts.get_tier_scan.
    - rewrite Hb. reflexivity.
    - apply TierFacts.base_command_not_blank. rewrite Hb. discriminate. }
  split; [vm_compute; auto 20|].
  split; [vm_compute; auto 20|].
  split; [reflexivity|].
  split; [exact Ht|].
  rewrite Ht. discriminate.
Qed.

Lemma C10_witness :
  get_tier (TierValidator_new None) "Remove-Item" = Ret (3 # 1) /\
  get_tier (TierValidator_new None) "REMOVE-ITEM" = Ret (3 # 1) /\
  get_tier (TierValidator_new None) "remove-item" = Ret (3 # 1).
Proof.
  pose proof (@C10_remove_item_is_tier_3 "Remove-Item" eq_refl) as (_ & _ & _ & H1 & _).
  pose proof (@C10_remove_item_is_tier_3 "REMOVE-ITEM" eq_refl) as (_ & _ & _ & H2 & _).
  pose proof (@C10_remove_item_is_tier_3 "remove-item" eq_refl) as (_ & _ & _ & H3 & _).
  exact (conj H1 (conj H2 H3)).
Defined.

(** The same with arguments after the command. *)
Lemma remove_item_with_arguments (command : string) :
  base_command command = "remove-item" ->
  get_tier (TierValidator_new None) command = Ret (3 # 1).
Proof.
  intros Hb. rewrite TierFacts.get_tier_scan.
  - rewrite Hb. reflexivity.
  - apply TierFacts.base_command_not_blank. rewrite Hb. discriminate.
Qed.

(* ================================================================== *)
(** * The default strategy and the configuration strategy *)

Section StrategyClaims.

Context `{OperatingSystem}.

(** C6, as the code has it.  When the tier is 2.5, or at least 3 and below
    4, the default strategy hands the input to the shell once and returns the
    shell's result with the notice put in front of its output, success and
    exit code untouched; below 2.5 the shell's result comes back as it is. *)
Theorem C6_annotation_goes_in_front
    (input : string) (context : StrategyContext) (s s1 : Sys)
    (t : float) (r : CommandResult) :
  get_tier (validator context) input = Ret t ->
  ShellAdapter.execute input s = (Ret r, s1) ->
  shell_calls s1 = (shell_calls s ++ [input])%list /\
  ((t == 5 # 2)%Q ->
   TierExecutionStrategy_execute input context s =
     (Ret (mkResult (success r) (tier25_notice ++ output r) (exit_code r)), s1)) /\
  (((3 # 1) <= t)%Q /\ (t < (4 # 1))%Q ->
   TierExecutionStrategy_execute input context s =
     (Ret (mkResult (success r) (tier3_warning ++ output r) (exit_code r)), s1)) /\
  ((t < 5 # 2)%Q ->
   TierExecutionStrategy_execute input context s = (Ret r, s1)).
Proof.
  intros Ht Hsh.
  split.
  { destruct (shell_execute_spec input s) as (r' & w' & _ & E).
    rewrite E in Hsh. injection Hsh as _ <-. reflexivity. }
  unfold TierExecutionStrategy_execute. rewrite Ht, bind_lift_ret.
  destruct (Qle_bool (4 # 1) t) eqn:E4;
    [apply Qle_bool_iff in E4 | apply not_true_iff_false in E4; rewrite Qle_bool_iff in E4];
  (destruct (Qle_bool (3 # 1) t) eqn:E3;
    [apply Qle_bool_iff in E3 | apply not_true_iff_false in E3; rewrite Qle_bool_iff in E3]);
  (destruct (Qeq_bool t (5 # 2)) eqn:E25;
    [apply Qeq_bool_iff in E25 | apply Qeq_bool_neq in E25]);
  unfold bind, ret; rewrite ?Hsh;
  (split; [intros Hc | split; intros Hc]);
  try reflexivity; exfalso; lra.
Qed.

End StrategyClaims.

Lemma C6_witness :
  @TierExecutionStrategy_execute echo_os "find ." builtin_context echo_boot
  = (Ret (mkResult true (tier25_notice ++ "find .") 0), echo_after "find .") /\
  @TierExecutionStrategy_execute echo_os "git status" builtin_context echo_boot
  = (Ret (mkResult true (tier3_warning ++ "git status") 0), echo_after "git status") /\
  @TierExecutionStrategy_execute echo_os "ls" builtin_context echo_boot
  = (Ret (mkResult true "ls" 0), echo_after "ls").
Proof.
  pose proof (@C6_annotation_goes_in_front echo_os "find ." builtin_context
                echo_boot (echo_after "find .") (5 # 2)
                (mkResult true "find ." 0) eq_refl eq_refl) as (_ & H1 & _ & _).
  pose proof (@C6_annotation_goes_in_front echo_os "git status" builtin_context
                echo_boot (echo_after "git status") (3 # 1)
                (mkResult true "git status" 0) eq_refl eq_refl) as (_ & _ & H2 & _).
  pose proof (@C6_annotation_goes_in_front echo_os "ls" builtin_context
                echo_boot (echo_after "ls") (1 # 1)
                (mkResult true "ls" 0) eq_refl eq_refl) as (_ & _ & _ & H3).
  split; [apply H1; reflexivity|].
  split; [apply H2; split; [discriminate | reflexivity]|].
  apply H3; reflexivity.
Defined.

(** C6 as the specification words it does not hold: the notice is not put
    after the shell's output.  On the tier-2.5 input [find .] the shell prints
    [find .] and the output returned does not even start with it. *)
Lemma C6_counterexample :
  get_tier (validator builtin_context) "find ." = Ret (5 # 2) /\
  fst (@ShellAdapter.execute echo_os "find ." echo_boot)
    = Ret (mkResult true "find ." 0) /\
  forall annotation : string,
    fst (@TierExecutionStrategy_execute echo_os "find ." builtin_context echo_boot)
    <> Ret (mkResult true ("find ." ++ annotation) 0).
Proof.
  split; [reflexivity|]. split; [reflexivity|].
  intros annotation. vm_compute. intros Heq. discriminate Heq.
Qed.

(* ================================================================== *)
(** * The configuration strategy *)

Section ConfigClaims.

Context `{OperatingSystem}.

Lemma config_set_succeeds (input key value : string) (more : list string) (s : Sys) :
  config_args input = "set" :: key :: value :: more ->
  ConfigStrategy_execute input s
    = (Ret (mkResult true (config_set_text key value) 0), s).
Proof.
  intros Hargs. unfold ConfigStrategy_execute. rewrite Hargs. reflexivity.
Qed.

Lemma config_set_short_fails (input : string) (rest : list string) (s : Sys) :
  config_args input = "set" :: rest -> (List.length rest < 2)%nat ->
  ConfigStrategy_execute input s = (Ret (mkResult false config_unknown_text 1), s).
Proof.
  intros Hargs Hlen. unfold ConfigStrategy_execute. rewrite Hargs.
  destruct rest as [|x [|y rest]]; simpl in Hlen; try lia; reflexivity.
Qed.

(** The same, on the text of the command line. *)
Lemma config_set_line (key value : string) (s : Sys) :
  word key -> word value ->
  ConfigStrategy_execute ("/config set " ++ key ++ " " ++ value) s
    = (Ret (mkResult true (config_set_text key value) 0), s) /\
  ConfigStrategy_execute ("/config set " ++ key) s
    = (Ret (mkResult false config_unknown_text 1), s).
Proof.
  intros Hk Hv. split.
  - apply config_set_succeeds with (more := []).
    now apply ConfigFacts.config_args_set.
  - apply config_set_short_fails with (rest := [key]).
    + now apply ConfigFacts.config_args_set_short.
    + simpl. lia.
Qed.

(** C9. With [set] followed by at least two words the configuration
    strategy succeeds and its output names the key and the value; with [set]
    followed by fewer than two words, and with any unknown sub-command, it
    returns a failure with exit code 1 and a text; it always returns, it never
    throws, and it leaves the state alone. *)
Theorem C9_config_set_or_failure (input : string) (s : Sys) :
  (forall key value more,
      config_args input = "set" :: key :: value :: more ->
      ConfigStrategy_execute input s
        = (Ret (mkResult true (config_set_text key value) 0), s) /\
      mentions key (config_set_text key value) /\
      mentions value (config_set_text key value)) /\
  (forall rest,
      config_args input = "set" :: rest -> (List.length rest < 2)%nat ->
      ConfigStrategy_execute input s = (Ret (mkResult false config_unknown_text 1), s)) /\
  (forall sub rest,
      config_args input = sub :: rest ->
      ~ In sub ["set"; "get"; "list"; "status"] ->
      ConfigStrategy_execute input s = (Ret (mkResult false config_unknown_text 1), s)) /\
  (exists res,
      ConfigStrategy_execute input s = (Ret res, s) /\
      (success res = false -> exit_code res <> 0%Z /\ output res <> EmptyString)).
Proof.
  split; [|split; [|split]].
  - intros key value more Hargs. split; [|split].
    + now apply config_set_succeeds with (more := more).
    + exists "Isaac > Config set (C++): ",
        (" = " ++ value ++ nl ++
         "Note: Full persistence requires Python config integration").
      reflexivity.
    + exists ("Isaac > Config set (C++): " ++ key ++ " = "),
        (nl ++ "Note: Full persistence requires Python config integration").
      unfold config_set_text. now rewrite !StrFacts.append_assoc.
  - intros rest Hargs Hlen. now apply config_set_short_fails with (rest := rest).
  - intros sub rest Hargs Hsub. unfold ConfigStrategy_execute. rewrite Hargs.
    cbn [at_index nth].
    assert (E1 : String.eqb sub "set" = false)
      by (apply String.eqb_neq; intros ->; apply Hsub; simpl; auto).
    assert (E2 : String.eqb sub "get" = false)
      by (apply String.eqb_neq; intros ->; apply Hsub; simpl; auto).
    assert (E3 : String.eqb sub "list" = false)
      by (apply String.eqb_neq; intros ->; apply Hsub; simpl; auto).
    assert (E4 : String.eqb sub "status" = false)
      by (apply String.eqb_neq; intros ->; apply Hsub; simpl; auto).
    rewrite E1, E2, E3, E4. reflexivity.
  - unfold ConfigStrategy_execute.
    destruct (config_args input) as [|a args].
    { eexists. split; [reflexivity | discriminate]. }
    repeat match goal with
           | |- context [if ?b then _ else _] => destruct b
           end;
      (eexists; split; [reflexivity |]); cbn [success exit_code output];
      intros Hf; try discriminate Hf.
    split; [discriminate | unfold config_unknown_text; simpl; discriminate].
Qed.

End ConfigClaims.

Lemma C9_witness :
  @ConfigStrategy_execute echo_os "/config set foo bar" echo_boot
    = (Ret (mkResult true (config_set_text "foo" "bar") 0), echo_boot) /\
  @ConfigStrategy_execute echo_os "/config set foo" echo_boot
    = (Ret (mkResult false config_unknown_text 1), echo_boot) /\
  @ConfigStrategy_execute echo_os "/config frobnicate" echo_boot
    = (Ret (mkResult false config_unknown_text 1), echo_boot).
Proof.
  pose proof (@C9_config_set_or_failure echo_os "/config set foo bar" echo_boot)
    as (H1 & _).
  pose proof (@C9_config_set_or_failure echo_os "/config set foo" echo_boot)
    as (_ & H2 & _).
  pose proof (@C9_config_set_or_failure echo_os "/config frobnicate" echo_boot)
    as (_ & _ & H3 & _).
  split; [exact (proj1 (H1 "foo" "bar" [] eq_refl))|].
  split; [apply (H2 ["foo"] eq_refl); simpl; lia|].
  apply (H3 "frobnicate" [] eq_refl). simpl. intuition discriminate.
Defined.

(* ================================================================== *)
(** * The router *)

Section RouterClaims.

Context `{OperatingSystem} `{StdSort}.

Lemma default_priority_is_greatest (other : CommandStrategy) :
  (get_priority other <= get_priority TierExecutionStrategy)%Z.
Proof. destruct other; simpl; lia. Qed.

Lemma pipe_priority_is_least (other : CommandStrategy) :
  other <> PipeStrategy -> (get_priority PipeStrategy < get_priority other)%Z.
Proof. destruct other; simpl; intros Hne; try lia. now elim Hne. Qed.

(** [route_command] in terms of the strategy it selects. *)
Lemma route_command_selected (file : option string) (r : CommandRouter)
      (input : string) (s : Sys) (strategy : CommandStrategy) :
  router_state file r ->
  selected registered input = Some strategy ->
  let r' := ensure_strategies_loaded r in
  route_command r input s =
    (let (res, s') := execute strategy input (mkContext r' (validator_ r')) s in
     (r', res, s')).
Proof.
  intros Hr Hsel r'.
  destruct (ensure_loaded_state Hr) as (Hv & Hl & Hs & Hc).
  unfold route_command. fold r'.
  rewrite try_strategies_selected. unfold r'. rewrite Hs, selected_sorted, Hsel.
  reflexivity.
Qed.

(** Whatever the rule file, the calls made before and the input,
    [route_command] stops at a registered strategy whose predicate accepts
    the input and its outcome is that strategy's: the statement after the
    loop is never reached, because the default strategy accepts everything
    and, with the greatest priority (100), closes the list.  When the labels
    of the rule table convert to numbers, which they do for the built-in
    table, that outcome is a CommandResult. *)
Lemma route_command_stops_at_a_strategy
    (file : option string) (history : list Call) (s0 : Sys) (input : string) :
  let st := run history (CommandRouter_new file, s0) in
  let r := fst st in
  let s := snd st in
  let r' := ensure_strategies_loaded r in
  can_handle TierExecutionStrategy input = true /\
  get_priority TierExecutionStrategy = 100%Z /\
  (forall other, (get_priority other <= get_priority TierExecutionStrategy)%Z) /\
  exists strategy,
    selected (strategies_ r') input = Some strategy /\
    In strategy registered /\
    can_handle strategy input = true /\
    route_command r input s =
      (let (res, s') := execute strategy input (mkContext r' (validator_ r')) s in
       (r', res, s')) /\
    (labels_convert (TierValidator_new file) = true ->
     exists res s', route_command r input s = (r', Ret res, s')).
Proof.
  intros st r s r'.
  split; [reflexivity|]. split; [reflexivity|].
  split; [exact default_priority_is_greatest|].
  assert (Hr : router_state file r).
  { apply run_router_state, new_router_state. }
  destruct (ensure_loaded_state Hr) as (Hv & Hl & Hs & Hc).
  destruct (selected_registered input) as [strategy Hsel].
  destruct (selected_accepts _ _ Hsel) as [Hin Hcan].
  exists strategy.
  split; [fold r' in Hs; now rewrite Hs, selected_sorted|].
  split; [exact Hin|]. split; [exact Hcan|].
  pose proof (@route_command_selected file r input s strategy Hr Hsel) as Hroute.
  split; [exact Hroute|].
  intros Hok.
  destruct (@execute_returns _ strategy input (mkContext r' (validator_ r')) s Hcan)
    as (res & s' & E).
  { cbn [validator]. fold r' in Hv. now rewrite Hv. }
  exists res, s'. rewrite Hroute. fold r'. now rewrite E.
Qed.

(** C1, where the code leaves it.  [get_tier] converts the label of the
    matching alias with [std::stof] and catches nothing, and neither do the
    default strategy and [route_command]: when the label is outside the
    range of [float], [std::out_of_range] leaves [route_command] and no
    CommandResult is returned.  The shell is not run. *)
Theorem C1_out_of_range_label_leaves_route_command
    (file : option string) (history : list Call) (s0 s : Sys) (input : string) :
  selected registered input = Some TierExecutionStrategy ->
  get_tier (TierValidator_new file) input = Throw out_of_range ->
  let r := fst (run history (CommandRouter_new file, s0)) in
  route_command r input s = (ensure_strategies_loaded r, Throw out_of_range, s) /\
  ~ exists res s', route_command r input s = (ensure_strategies_loaded r, Ret res, s').
Proof.
  intros Hsel Htier r.
  assert (Hr : router_state file r).
  { apply run_router_state, new_router_state. }
  destruct (ensure_loaded_state Hr) as (Hv & _ & _ & _).
  pose proof (@route_command_selected file r input s _ Hr Hsel) as Hroute.
  cbv zeta in Hroute. cbn [execute] in Hroute.
  unfold TierExecutionStrategy_execute in Hroute. cbn [validator] in Hroute.
  rewrite Hv, Htier in Hroute.
  split; [exact Hroute|].
  intros (res & s' & E). rewrite Hroute in E. discriminate E.
Qed.

(** C3. An input with a pipe character goes to the Pipe strategy, which
    stands first in the dispatch order with the least priority (10), whatever
    else would accept the input; the input is handed to the shell as it is,
    once, and the shell's result is the result of the call. *)
Theorem C3_pipe_goes_first
    (file : option string) (history : list Call) (s0 : Sys) (input : string) :
  contains "|" input ->
  let st := run history (CommandRouter_new file, s0) in
  let r := fst st in
  let s := snd st in
  let r' := ensure_strategies_loaded r in
  selected (strategies_ r') input = Some PipeStrategy /\
  hd_error (strategies_ r') = Some PipeStrategy /\
  get_priority PipeStrategy = 10%Z /\
  (forall other, other <> PipeStrategy ->
                 (get_priority PipeStrategy < get_priority other)%Z) /\
  route_command r input s =
    (let (res, s') := ShellAdapter.execute input s in (r', res, s')) /\
  exists res s',
    route_command r input s = (r', Ret res, s') /\
    shell_calls s' = (shell_calls s ++ [input])%list.
Proof.
  intros Hpipe st r s r'.
  assert (Hr : router_state file r).
  { apply run_router_state, new_router_state. }
  destruct (ensure_loaded_state Hr) as (Hv & Hl & Hs & Hc). fold r' in Hs.
  assert (Hsel : selected registered input = Some PipeStrategy).
  { unfold selected, registered. cbn [List.find].
    now rewrite (DefaultPath.pipe_accepts input Hpipe). }
  pose proof (@route_command_selected file r input s PipeStrategy Hr Hsel) as Hroute.
  cbn [execute] in Hroute. unfold PipeStrategy_execute in Hroute. fold r' in Hroute.
  split; [now rewrite Hs, selected_sorted|].
  split.
  { rewrite Hs. destruct OrderFacts.std_sort_arrangements as [-> | ->]; reflexivity. }
  split; [reflexivity|].
  split; [exact pipe_priority_is_least|].
  split; [exact Hroute|].
  destruct (shell_execute_spec input s) as (res & w' & _ & E).
  exists res, (mkSys w' (shell_calls s ++ [input])%list (cout s)).
  split; [|reflexivity].
  rewrite Hroute, E. reflexivity.
Qed.

(** C2, as the code has it.  An input classified 4 or more that reaches the
    default strategy is refused: the result is the lockdown failure and the
    state, with its record of shell calls, is the one before the call.  Under
    the built-in table every such input without a pipe character reaches the
    default strategy. *)
Theorem C2_lockdown_on_the_default_path
    (file : option string) (history : list Call) (s0 : Sys) (input : string)
    (t : float) :
  let st := run history (CommandRouter_new file, s0) in
  let r := fst st in
  let s := snd st in
  get_tier (validator_ r) input = Ret t ->
  ((4 # 1) <= t)%Q ->
  selected registered input = Some TierExecutionStrategy \/
  (file = None /\ ~ contains "|" input) ->
  route_command r input s = (ensure_strategies_loaded r, Ret lockdown_result, s) /\
  success lockdown_result = false /\
  shell_calls (snd (route_command r input s)) = shell_calls s.
Proof.
  intros st r s Ht Hle Hpath.
  assert (Hr : router_state file r).
  { apply run_router_state, new_router_state. }
  destruct (ensure_loaded_state Hr) as (Hv & Hl & Hs & Hc).
  assert (Hvr : validator_ r = TierValidator_new file).
  { destruct Hr; assumption. }
  apply Qle_bool_iff in Hle.
  assert (Hsel : selected registered input = Some TierExecutionStrategy).
  { destruct Hpath as [Hsel | [-> Hpipe]]; [exact Hsel|].
    rewrite Hvr in Ht. now apply DefaultPath.builtin_tier4_reaches_default with t. }
  assert (Hroute : route_command r input s
                   = (ensure_strategies_loaded r, Ret lockdown_result, s)).
  { rewrite (@route_command_selected file r input s _ Hr Hsel).
    cbn [execute]. unfold TierExecutionStrategy_execute. cbn [validator].
    rewrite Hv, <- Hvr, Ht, bind_lift_ret, Hle. reflexivity. }
  split; [exact Hroute|]. split; [reflexivity|].
  now rewrite Hroute.
Qed.

(** ** Loading *)

Lemma step_loaded (c : Call) (r : CommandRouter) (s : Sys) :
  strategies_loaded_ (fst (snd (step c (r, s)))) =
  match c with
  | RouteCommand _ => true
  | GetHelp => strategies_loaded_ r
  end.
Proof.
  destruct c as [input|]; simpl; [|reflexivity].
  pose proof (route_command_router r input s) as E.
  destruct (route_command r input s) as [[r' res] s']. simpl in *. subst r'.
  unfold ensure_strategies_loaded. destruct (strategies_loaded_ r) eqn:El; simpl; auto.
Qed.

(** A loaded router is not touched by any call. *)
Lemma step_loaded_fixed (c : Call) (r : CommandRouter) (s : Sys) :
  strategies_loaded_ r = true -> fst (snd (step c (r, s))) = r.
Proof.
  intros Hl. destruct c as [input|]; simpl; [|reflexivity].
  pose proof (route_command_router r input s) as E.
  destruct (route_command r input s) as [[r' res] s']. simpl in *. subst r'.
  unfold ensure_strategies_loaded. now rewrite Hl.
Qed.

Lemma run_loaded_iff (cs : list Call) :
  forall r s,
    strategies_loaded_ (fst (run cs (r, s))) = true <->
    strategies_loaded_ r = true \/ exists input, In (RouteCommand input) cs.
Proof.
  induction cs as [|c cs IH]; intros r s.
  - simpl. split; [auto | intros [Hl | [input []]]; exact Hl].
  - change (run (c :: cs) (r, s)) with (run cs (snd (step c (r, s)))).
    pose proof (step_loaded c r s) as Hstep.
    destruct (step c (r, s)) as [a [r1 s1]]. cbn [fst snd] in *.
    rewrite IH, Hstep. destruct c as [input|].
    + split; intros _; [right; exists input; now left | now left].
    + split; (intros [Hl | [input Hin]]; [now left | right; exists input]).
      * now right.
      * destruct Hin as [Hin | Hin]; [discriminate | exact Hin].
Qed.

(** The strategy list is loaded by the first [route_command] and by nothing
    else: [load_strategies] runs at most once, the router is loaded exactly
    when some [route_command] has been made, [get_help] changes nothing, and
    once the router is loaded no call changes it, so the list is neither
    rebuilt nor sorted again. *)
Lemma loaded_once_by_route_command
    (file : option string) (history : list Call) (s0 : Sys) :
  let r := fst (run history (CommandRouter_new file, s0)) in
  (load_count r <= 1)%nat /\
  (strategies_loaded_ r = true <-> load_count r = 1%nat) /\
  (strategies_loaded_ r = true <-> exists input, In (RouteCommand input) history) /\
  (strategies_loaded_ r = true ->
   strategies_ r = std_sort by_priority registered /\
   forall c s, fst (snd (step c (r, s))) = r) /\
  (strategies_loaded_ r = false -> strategies_ r = []) /\
  (forall s, snd (step GetHelp (r, s)) = (r, s)).
Proof.
  intros r.
  assert (Hr : router_state file r).
  { apply run_router_state, new_router_state. }
  split; [destruct Hr as [_ _ _ Hc | _ _ _ Hc]; rewrite Hc; lia|].
  split.
  { destruct Hr as [_ Hl _ Hc | _ Hl _ Hc]; rewrite Hl, Hc;
      split; intros; (discriminate || reflexivity). }
  split.
  { unfold r. rewrite run_loaded_iff. cbn [CommandRouter_new strategies_loaded_].
    split; [intros [Hf | He]; [discriminate | exact He] | now right]. }
  split.
  { intros Hl. split.
    - destruct Hr as [_ Hl' _ _ | _ _ Hs _]; [congruence | exact Hs].
    - intros c s. now apply step_loaded_fixed. }
  split.
  { intros Hl. destruct Hr as [_ _ Hs _ | _ Hl' _ _]; [exact Hs | congruence]. }
  reflexivity.
Qed.

(** C8, where the code leaves it.  [get_help] does not load the strategies:
    asked any number of times of a fresh router it leaves the router
    unloaded and answers with the heading alone.  Only [route_command]
    loads; after it the same question gets the full list. *)
Theorem C8_get_help_does_not_load
    (file : option string) (helps : nat) (s : Sys) (input : string) :
  let asked := run (repeat GetHelp helps) (CommandRouter_new file, s) in
  asked = (CommandRouter_new file, s) /\
  strategies_loaded_ (fst asked) = false /\
  step GetHelp asked = (Help help_heading, (CommandRouter_new file, s)) /\
  let routed := fst (snd (step (RouteCommand input) asked)) in
  strategies_loaded_ routed = true /\
  fst (step GetHelp (routed, s)) =
    Help (get_help (mkRouter (TierValidator_new file) registered true 1)) /\
  get_help (mkRouter (TierValidator_new file) registered true 1) <> help_heading.
Proof.
  intros asked.
  assert (Hasked : asked = (CommandRouter_new file, s)).
  { unfold asked. induction helps as [|n IH]; [reflexivity | exact IH]. }
  rewrite Hasked. split; [reflexivity|]. split; [reflexivity|].
  split; [reflexivity|].
  intros routed.
  assert (Hrouted : routed = ensure_strategies_loaded (CommandRouter_new file)).
  { unfold routed. cbn [step].
    pose proof (route_command_router (CommandRouter_new file) input s) as E.
    destruct (route_command (CommandRouter_new file) input s) as [[r1 res] s1].
    exact E. }
  rewrite Hrouted. split; [reflexivity|]. split.
  - cbn [step fst]. f_equal.
    unfold get_help, ensure_strategies_loaded, load_strategies.
    cbn [CommandRouter_new strategies_loaded_ negb strategies_].
    destruct OrderFacts.std_sort_arrangements as [-> | ->]; reflexivity.
  - unfold get_help. cbn [strategies_]. vm_compute. intros E. discriminate E.
Qed.

End RouterClaims.

(** For every sort with the guarantee of [std::sort], the loaded list is
    the registration list rearranged in ascending priority; the guarantee
    leaves open which of the two strategies of priority 40 comes first, so
    the list is one of two; the strategy selected for an input and the help
    text are the same for both. *)
Lemma sorted_up_to_the_tie `{StdSort} (file : option string) :
  let r' := ensure_strategies_loaded (CommandRouter_new file) in
  Permutation registered (strategies_ r') /\
  ascending (strategies_ r') /\
  (strategies_ r' = registered \/ strategies_ r' = registered_swapped) /\
  (forall input, selected (strategies_ r') input = selected registered input) /\
  get_help r' = get_help (mkRouter (TierValidator_new file) registered true 1).
Proof.
  intros r'. cbn [r' ensure_strategies_loaded CommandRouter_new strategies_loaded_
                  negb load_strategies strategies_].
  split; [apply std_sort_permutation|].
  split; [apply OrderFacts.sorted_ascending, std_sort_sorted, OrderFacts.by_priority_swo|].
  split; [apply OrderFacts.std_sort_arrangements|].
  split; [intros input; apply selected_sorted|].
  unfold r', ensure_strategies_loaded, load_strategies. simpl.
  destruct OrderFacts.std_sort_arrangements as [-> | ->]; reflexivity.
Qed.

Lemma registered_in_order : sorted_wrt by_priority registered.
Proof. unfold sorted_wrt, registered. repeat constructor. Qed.

(** C7.  The registration list is written in ascending priority, and the
    sort the program runs, an insertion sort on a range this short, moves
    no element of a range already in order: the loaded list is the
    registration list itself, which is that list stably sorted.  Strategies
    of equal priority keep their registration order; device routing stands
    before the exit blocker. *)
Theorem C7_ties_keep_registration_order (file : option string) :
  let r' := @ensure_strategies_loaded libstdcxx_impl (CommandRouter_new file) in
  (List.length registered <= _S_threshold)%nat /\
  strategies_ r' = registered /\
  strategies_ r' = stable_insertion_sort by_priority registered /\
  ascending (strategies_ r') /\
  (forall a b, get_priority a = get_priority b ->
               precedes a b registered -> precedes a b (strategies_ r')) /\
  precedes DeviceRoutingStrategy ExitBlockerStrategy (strategies_ r').
Proof.
  intros r'.
  assert (Hs : strategies_ r' = registered).
  { unfold r', ensure_strategies_loaded, load_strategies.
    cbn [CommandRouter_new strategies_loaded_ negb strategies_ std_sort libstdcxx_impl].
    apply insertion_sort_sorted_input, registered_in_order. }
  split; [unfold _S_threshold, registered; simpl; lia|].
  split; [exact Hs|]. rewrite Hs.
  split; [reflexivity|].
  split; [apply OrderFacts.sorted_ascending, registered_in_order|].
  split; [intros a b _ Hp; exact Hp|].
  exists [PipeStrategy; CdStrategy; ForceExecutionStrategy; ExitQuitStrategy;
          ConfigStrategy], [],
         [TaskModeStrategy; AgenticModeStrategy; MetaCommandStrategy;
          NaturalLanguageStrategy; UnixAliasStrategy; TierExecutionStrategy].
  reflexivity.
Qed.

(* ================================================================== *)
(** * The statements at work on examples *)

Lemma route_command_returns_example :
  exists res s',
    @route_command echo_os stable_impl (CommandRouter_new None) "cd /tmp" echo_boot
    = (@ensure_strategies_loaded stable_impl (CommandRouter_new None), Ret res, s').
Proof.
  destruct (@route_command_stops_at_a_strategy echo_os stable_impl None [] echo_boot "cd /tmp")
    as (_ & _ & _ & strategy & _ & _ & _ & _ & Hret).
  exact (Hret eq_refl).
Qed.

(** How [std::stof] converts: to the nearest binary32 value, and not at all
    beyond the range. *)
Lemma stof_rounds_or_throws :
  stof "2.5" = Ret (5 # 2) /\
  stof "3.9999999999" = Ret (4 # 1) /\
  stof "2.0000000001" = Ret (2 # 1) /\
  stof overflowing_label = Throw out_of_range /\
  stof underflowing_label = Throw out_of_range.
Proof. vm_compute. repeat split. Qed.

(** A label that overflows and one that underflows, each read from a rule
    file, make [get_tier] throw on the alias listed under them. *)
Lemma unconvertible_labels_throw :
  tier_defaults_ (TierValidator_new (Some overflowing_rule_file))
    = [(overflowing_label, ["ls"])] /\
  get_tier (TierValidator_new (Some overflowing_rule_file)) "ls" = Throw out_of_range /\
  tier_defaults_ (TierValidator_new (Some underflowing_rule_file))
    = [(underflowing_label, ["ls"])] /\
  get_tier (TierValidator_new (Some underflowing_rule_file)) "ls -l" = Throw out_of_range /\
  labels_convert (TierValidator_new (Some overflowing_rule_file)) = false /\
  labels_convert (TierValidator_new (Some underflowing_rule_file)) = false.
Proof. vm_compute. repeat split. Qed.

Lemma C1_witness :
  @route_command echo_os stable_impl
    (CommandRouter_new (Some overflowing_rule_file)) "ls" echo_boot
  = (@ensure_strategies_loaded stable_impl (CommandRouter_new (Some overflowing_rule_file)),
     Throw out_of_range, echo_boot).
Proof.
  exact (proj1 (@C1_out_of_range_label_leaves_route_command echo_os stable_impl
                  (Some overflowing_rule_file) [] echo_boot echo_boot "ls"
                  eq_refl (proj1 (proj2 unconvertible_labels_throw)))).
Defined.

Lemma no_pipe_in_rm : ~ contains "|" "rm -rf /".
Proof. unfold contains. simpl. intuition discriminate. Defined.

Lemma C2_witness :
  @route_command echo_os stable_impl (CommandRouter_new None) "rm -rf /" echo_boot
  = (@ensure_strategies_loaded stable_impl (CommandRouter_new None),
     Ret lockdown_result, echo_boot).
Proof.
  apply (@C2_lockdown_on_the_default_path echo_os stable_impl None [] echo_boot
           "rm -rf /" (4 # 1) eq_refl (Qle_refl (4 # 1))
           (or_intror (conj eq_refl no_pipe_in_rm))).
Defined.

(** C2 as the specification words it does not hold: a tier-4 command line
    with a pipe character is taken by the Pipe strategy and run by the
    shell. *)
Lemma C2_counterexample :
  let r := CommandRouter_new None in
  let out := @route_command echo_os stable_impl r "rm -rf / | cat" echo_boot in
  get_tier (validator_ r) "rm -rf / | cat" = Ret (4 # 1) /\
  snd (fst out) = Ret (mkResult true "rm -rf / | cat" 0) /\
  shell_calls (snd out) = ["rm -rf / | cat"].
Proof. vm_compute. split; [reflexivity|]. split; reflexivity. Qed.

Lemma pipe_in_example : contains "|" "ls | grep x".
Proof. unfold contains. simpl. auto 10. Defined.

Lemma C3_witness :
  @route_command echo_os stable_impl (CommandRouter_new None) "ls | grep x" echo_boot
  = (@ensure_strategies_loaded stable_impl (CommandRouter_new None),
     Ret (mkResult true "ls | grep x" 0), echo_after "ls | grep x").
Proof.
  destruct (@C3_pipe_goes_first echo_os stable_impl None [] echo_boot "ls | grep x"
              pipe_in_example) as (_ & _ & _ & _ & Hroute & _).
  exact Hroute.
Defined.

Lemma C7_witness :
  precedes DeviceRoutingStrategy ExitBlockerStrategy
    (strategies_ (@ensure_strategies_loaded libstdcxx_impl (CommandRouter_new None))).
Proof.
  destruct (@C7_ties_keep_registration_order None) as (_ & _ & _ & _ & Hties & _).
  apply (Hties DeviceRoutingStrategy ExitBlockerStrategy eq_refl).
  exists [PipeStrategy; CdStrategy; ForceExecutionStrategy; ExitQuitStrategy;
          ConfigStrategy], [],
         [TaskModeStrategy; AgenticModeStrategy; MetaCommandStrategy;
          NaturalLanguageStrategy; UnixAliasStrategy; TierExecutionStrategy].
  reflexivity.
Defined.

(** The guarantee of [std::sort] alone does not fix the order of the two
    strategies of priority 40: a sort that meets it, [tie_reversing_impl],
    puts the exit blocker first.  The sort the program runs does not. *)
Lemma the_guarantee_leaves_the_tie_open :
  let loaded := @ensure_strategies_loaded tie_reversing_impl (CommandRouter_new None) in
  stable_insertion_sort by_priority registered = registered /\
  strategies_ loaded = registered_swapped /\
  strategies_ loaded <> stable_insertion_sort by_priority registered.
Proof.
  split; [reflexivity|]. split; [reflexivity|].
  vm_compute. intros Heq. discriminate Heq.
Qed.

Lemma loaded_once_example :
  let r := fst (@run echo_os stable_impl
                  [GetHelp; RouteCommand "ls"; GetHelp; RouteCommand "pwd"]
                  (CommandRouter_new None, echo_boot)) in
  load_count r = 1%nat /\
  strategies_ r = registered /\
  forall c s, fst (snd (@step echo_os stable_impl c (r, s))) = r.
Proof.
  intros r.
  destruct (@loaded_once_by_route_command echo_os stable_impl None
              [GetHelp; RouteCommand "ls"; GetHelp; RouteCommand "pwd"] echo_boot)
    as (_ & Hcount & _ & Hloaded & _ & _).
  destruct (Hloaded eq_refl) as [Hs Hfix].
  split; [exact (proj1 Hcount eq_refl)|].
  split; [exact Hs | exact Hfix].
Qed.

(* ================================================================== *)
(** * The examples of the specification, run on the model *)

Module Examples.

Definition route (input : string) : outcome CommandResult * list string :=
  let out := @route_command echo_os stable_impl (CommandRouter_new None) input echo_boot in
  (snd (fst out), shell_calls (snd out)).

Example cd_alone_goes_home :
  route "cd" = (Ret (mkResult true "cd ~" 0), ["cd ~"]).
Proof. reflexivity. Qed.

Example cd_with_a_target :
  route "cd /tmp" = (Ret (mkResult true "cd /tmp" 0), ["cd /tmp"]).
Proof. reflexivity. Qed.

Example force_execution_skips_the_tiers :
  route "! rm -rf /" = (Ret (mkResult true "rm -rf /" 0), ["rm -rf /"]).
Proof. reflexivity. Qed.

Example task_mode_fails_with_a_text :
  exists text,
    route "isaac task: write tests" = (Ret (mkResult false text 1), []) /\
    text <> EmptyString.
Proof. eexists. split; [reflexivity | discriminate]. Qed.

Example lockdown_runs_nothing :
  route "rm -rf /" = (Ret lockdown_result, []).
Proof. reflexivity. Qed.

Example validation_tier_warns :
  route "git status" =
  (Ret (mkResult true (tier3_warning ++ "git status") 0), ["git status"]).
Proof. reflexivity. Qed.

(** The same input twice, with nothing changed in between apart from the
    counter of the example system, gives the same result. *)
Example same_input_same_result :
  let first := @route_command echo_os stable_impl (CommandRouter_new None)
                 "/config set foo bar" echo_boot in
  let second := @route_command echo_os stable_impl (fst (fst first))
                  "/config set foo bar" (snd first) in
  snd (fst first) = snd (fst second).
Proof. reflexivity. Qed.

End Examples.

(* ================================================================== *)
(** * The memory pool *)

Module PoolFacts.

Import MemoryPool.

Lemma reuse_first_free (args : arguments) (pool : t) :
  match reuse args pool, first_free pool with
  | Some (i, pool'), Some j =>
      i = j /\ List.length pool' = List.length pool /\
      nth_error pool' i = Some (construct args) /\
      (forall k, k <> i -> nth_error pool' k = nth_error pool k)
  | None, None => True
  | _, _ => False
  end.
Proof.
  induction pool as [|obj rest IH]; simpl; [exact I|].
  destruct (in_use_ obj) eqn:E; simpl.
  - destruct (reuse args rest) as [[i rest']|], (first_free rest) as [j|];
      simpl; try exact IH.
    destruct IH as (-> & Hlen & Hi & Hk).
    split; [reflexivity|]. split; [simpl; congruence|]. split; [exact Hi|].
    intros [|k] Hne; [reflexivity|]. simpl. apply Hk. congruence.
  - split; [reflexivity|]. split; [reflexivity|]. split; [reflexivity|].
    intros [|k] Hne; [congruence | reflexivity].
Qed.

Lemma first_free_available (pool : t) :
  first_free pool = None <-> available pool = 0.
Proof.
  unfold available. induction pool as [|obj rest IH]; simpl; [tauto|].
  destruct (in_use_ obj); simpl.
  - rewrite <- IH. destruct (first_free rest); simpl; split; congruence.
  - split; [discriminate | lia].
Qed.

(** Reuse takes one free object away when the constructor leaves the rebuilt
    object marked in use, and none otherwise. *)
Lemma reuse_available (args : arguments) (pool pool' : t) (i : nat) :
  reuse args pool = Some (i, pool') ->
  available pool =
  (if in_use_ (construct args) then S (available pool') else available pool').
Proof.
  unfold available. revert i pool'.
  induction pool as [|obj rest IH]; intros i pool'; simpl; [discriminate|].
  destruct (in_use_ obj) eqn:E; simpl.
  - destruct (reuse args rest) as [[j rest']|] eqn:R; [|discriminate].
    intros [= <- <-]. simpl. rewrite E. simpl. now apply IH with j.
  - intros [= <- <-]. simpl. destruct (in_use_ (construct args)); reflexivity.
Qed.

Lemma reuse_first_free_after (args : arguments) (pool pool' : t) (i : nat) :
  builds_free args = true ->
  reuse args pool = Some (i, pool') -> first_free pool' = Some i.
Proof.
  unfold builds_free. intros Hfree. apply negb_true_iff in Hfree.
  revert i pool'.
  induction pool as [|obj rest IH]; intros i pool'; simpl; [discriminate|].
  destruct (in_use_ obj) eqn:E; simpl.
  - destruct (reuse args rest) as [[j rest']|] eqn:R; [|discriminate].
    intros [= <- <-]. simpl. rewrite E. simpl. now rewrite (IH _ _ eq_refl).
  - intros [= <- <-]. simpl. now rewrite Hfree.
Qed.

Lemma reuse_some_iff (args : arguments) (pool : t) :
  reuse args pool = None <-> first_free pool = None.
Proof.
  pose proof (reuse_first_free args pool) as H.
  destruct (reuse args pool) as [[i p]|], (first_free pool); try tauto;
    split; congruence.
Qed.

Lemma deallocate_length (obj : nat) (pool : t) :
  List.length (deallocate obj pool) = List.length pool.
Proof.
  revert obj. induction pool as [|s rest IH]; intros [|obj]; simpl; auto.
Qed.

Lemma deallocate_available (obj : nat) (pool : t) :
  available pool <= available (deallocate obj pool).
Proof.
  unfold available. revert obj.
  induction pool as [|s rest IH]; intros [|obj]; simpl; auto.
  - destruct (in_use_ s); simpl; lia.
  - destruct (in_use_ s); simpl; [apply IH | apply le_n_S, IH].
Qed.

Lemma deallocate_nth (obj : nat) (pool : t) :
  forall k,
    nth_error (deallocate obj pool) k =
    if Nat.eqb k obj
    then option_map (fun s => mkSlot false (object s)) (nth_error pool k)
    else nth_error pool k.
Proof.
  revert obj. induction pool as [|s rest IH]; intros obj k.
  - simpl. destruct obj, k; simpl; try reflexivity;
      destruct (Nat.eqb _ _); reflexivity.
  - destruct obj as [|obj], k as [|k]; simpl; try reflexivity. apply IH.
Qed.

Lemma available_le_size (pool : t) : available pool <= size pool.
Proof. unfold available, size. apply filter_length_le. Qed.

Lemma create_all_free (n : nat) : all_free (create n).
Proof. unfold all_free, create. apply Forall_forall. intros s Hs.
  apply repeat_spec in Hs. now subst. Qed.

Lemma all_free_allocate (args : arguments) (pool : t) :
  builds_free args = true ->
  all_free pool -> pool <> [] ->
  fst (allocate args pool) = 0 /\
  all_free (snd (allocate args pool)) /\
  List.length (snd (allocate args pool)) = List.length pool.
Proof.
  unfold builds_free. intros Hbuilt Hfree Hne. apply negb_true_iff in Hbuilt.
  destruct pool as [|s rest]; [congruence|].
  inversion Hfree as [|? ? Hs Hrest]; subst.
  unfold allocate. simpl. rewrite Hs. simpl.
  split; [reflexivity|]. split; [|reflexivity].
  constructor; [exact Hbuilt | exact Hrest].
Qed.

Lemma all_free_deallocate (obj : nat) (pool : t) :
  all_free pool -> all_free (deallocate obj pool).
Proof.
  unfold all_free. revert obj.
  induction pool as [|s rest IH]; intros [|obj] Hfree; simpl; auto;
    inversion Hfree; subst; constructor; auto.
Qed.

Lemma all_free_available (pool : t) : all_free pool -> available pool = size pool.
Proof.
  unfold all_free, available, size. induction 1 as [|s rest Hs _ IH]; simpl; [reflexivity|].
  rewrite Hs. simpl. now rewrite IH.
Qed.

End PoolFacts.

Section PoolProperties.

Import MemoryPool.

(** X1.  When some object of the pool is free, [allocate] hands out the first
    free one, rebuilt from the arguments, and the pool does not grow.  The
    flag of the rebuilt object is the one its constructor gives it.  Built
    from nothing or from the three fields, the object is left marked free
    although it has been handed out: the count of free objects is what it
    was and the next [allocate] hands out the same address again.  Copied
    from an object marked in use, it is in use and one free object fewer
    remains. *)
Theorem allocate_reuses_the_first_free_object (args next : arguments) (pool : t) :
  (0 < available pool)%nat ->
  let (obj, pool') := allocate args pool in
  first_free pool = Some obj /\
  size pool' = size pool /\
  nth_error pool' obj = Some (construct args) /\
  (forall other, other <> obj -> nth_error pool' other = nth_error pool other) /\
  (forall success output exit_code,
     in_use_ (construct NoArguments) = false /\
     in_use_ (construct (Fields success output exit_code)) = false) /\
  (forall other, in_use_ (construct (Copy other)) = in_use_ other) /\
  (in_use_ (construct args) = false ->
   available pool' = available pool /\ fst (allocate next pool') = obj) /\
  (in_use_ (construct args) = true -> S (available pool') = available pool).
Proof.
  intros Havail.
  assert (Hff : first_free pool <> None).
  { rewrite PoolFacts.first_free_available. lia. }
  pose proof (PoolFacts.reuse_first_free args pool) as Hspec.
  unfold allocate.
  destruct (reuse args pool) as [[i pool']|] eqn:R.
  - destruct (first_free pool) as [j|]; [|contradiction].
    destruct Hspec as (-> & Hlen & Hnth & Hother).
    pose proof (@PoolFacts.reuse_available _ _ _ _ R) as Hcount.
    split; [reflexivity|]. split; [exact Hlen|]. split; [exact Hnth|].
    split; [exact Hother|].
    split; [intros; split; reflexivity|]. split; [reflexivity|].
    split.
    + intros Hfree. rewrite Hfree in Hcount. split; [now symmetry|].
      assert (Hb : builds_free args = true) by (unfold builds_free; now rewrite Hfree).
      pose proof (@PoolFacts.reuse_first_free_after _ _ _ _ Hb R) as Hagain.
      pose proof (PoolFacts.reuse_first_free next pool') as Hspec'.
      destruct (reuse next pool') as [[i' pool'']|]; rewrite Hagain in Hspec';
        [simpl; now destruct Hspec' | contradiction].
    + intros Hused. rewrite Hused in Hcount. now symmetry.
  - apply PoolFacts.reuse_some_iff in R. contradiction.
Qed.

(** X2.  When no object is free, [allocate] appends a new object, marked in use,
    and hands out its address, the old size. *)
Theorem allocate_grows_when_full (args : arguments) (pool : t) :
  available pool = 0%nat ->
  allocate args pool =
    (size pool, (pool ++ [mkSlot true (object (construct args))])%list) /\
  size (snd (allocate args pool)) = S (size pool) /\
  available (snd (allocate args pool)) = 0%nat.
Proof.
  intros Havail.
  assert (R : reuse args pool = None).
  { apply PoolFacts.reuse_some_iff, PoolFacts.first_free_available, Havail. }
  unfold allocate. rewrite R. split; [reflexivity|]. simpl.
  split.
  - unfold size. rewrite length_app. simpl. lia.
  - unfold available in *. rewrite filter_app, length_app, Havail. reflexivity.
Qed.

(** X3.  [deallocate] marks the object at the address free and touches nothing
    else; an address the pool does not have changes nothing; the pool keeps
    its size and loses no free object. *)
Theorem deallocate_frees_one_object (obj : nat) (pool : t) :
  size (deallocate obj pool) = size pool /\
  (available pool <= available (deallocate obj pool))%nat /\
  (forall s, nth_error pool obj = Some s ->
             nth_error (deallocate obj pool) obj = Some (mkSlot false (object s))) /\
  (forall other, other <> obj ->
                 nth_error (deallocate obj pool) other = nth_error pool other) /\
  ((size pool <= obj)%nat -> deallocate obj pool = pool) /\
  deallocate obj (deallocate obj pool) = deallocate obj pool.
Proof.
  split; [apply PoolFacts.deallocate_length|].
  split; [apply PoolFacts.deallocate_available|].
  split.
  { intros s Hs. rewrite PoolFacts.deallocate_nth, Nat.eqb_refl, Hs. reflexivity. }
  split.
  { intros other Hne. rewrite PoolFacts.deallocate_nth.
    destruct (Nat.eqb_spec other obj); [contradiction | reflexivity]. }
  split.
  { unfold size. revert obj. induction pool as [|s rest IH]; intros [|obj] Hle;
      simpl in *; try reflexivity; try lia.
    f_equal. apply IH. lia. }
  revert obj. induction pool as [|s rest IH]; intros [|obj]; simpl;
    try reflexivity. f_equal. apply IH.
Qed.

(** X4.  As long as no allocation copies an object marked in use, a pool built
    with a capacity of at least one never grows and never marks anything in
    use: whatever is allocated and released, in any order, every [allocate]
    hands out the first object, and the pool ends with its initial size and
    all its objects free. *)
Theorem pool_with_capacity_hands_out_one_object
    (initial_capacity : nat) (uses : list use) :
  (1 <= initial_capacity)%nat ->
  copies_no_object_in_use uses ->
  let (handed, final) := run uses (create initial_capacity) in
  Forall (fun obj => obj = 0%nat) handed /\
  size final = initial_capacity /\
  available final = initial_capacity.
Proof.
  intros Hcap Huses.
  assert (Hgen : forall pool, all_free pool -> pool <> [] ->
            let (handed, final) := run uses pool in
            Forall (fun obj => obj = 0%nat) handed /\
            size final = size pool /\ available final = size pool).
  { unfold copies_no_object_in_use in Huses.
    induction uses as [|u uses IH]; intros pool Hfree Hne.
    - simpl. split; [constructor|]. split; [reflexivity|].
      now apply PoolFacts.all_free_available.
    - inversion Huses as [|? ? Hu Hrest]; subst.
      destruct u as [args | obj]; simpl.
      + destruct (@PoolFacts.all_free_allocate _ _ Hu Hfree Hne) as (H0 & Hfree' & Hlen).
        destruct (allocate args pool) as [obj pool']. simpl in *. subst obj.
        assert (Hne' : pool' <> []).
        { intros ->. destruct pool; [congruence | discriminate]. }
        specialize (IH Hrest pool' Hfree' Hne').
        destruct (run uses pool') as [handed final].
        destruct IH as (Hh & Hs & Ha). unfold size in *.
        split; [now constructor|]. split; congruence.
      + assert (Hne' : deallocate obj pool <> []).
        { intros E. apply (f_equal (@List.length _)) in E.
          rewrite PoolFacts.deallocate_length in E.
          destruct pool; [congruence | discriminate]. }
        specialize (IH Hrest _ (PoolFacts.all_free_deallocate obj Hfree) Hne').
        destruct (run uses (deallocate obj pool)) as [handed final].
        destruct IH as (Hh & Hs & Ha). unfold size in *.
        rewrite PoolFacts.deallocate_length in Hs, Ha. auto. }
  specialize (Hgen (create initial_capacity) (PoolFacts.create_all_free _)).
  assert (Hsize : size (create initial_capacity) = initial_capacity).
  { unfold size, create. apply repeat_length. }
  destruct (run uses (create initial_capacity)) as [handed final].
  rewrite Hsize in Hgen. apply Hgen.
  intros E. apply (f_equal (@List.length _)) in E.
  unfold create in E. rewrite repeat_length in E. simpl in E. lia.
Qed.

(** An allocation that copies an object marked in use does take the slot:
    the next one gets the second object. *)
Lemma copy_of_an_object_in_use_takes_the_slot :
  run [Allocate (Copy (mkSlot true lockdown_result)); Allocate NoArguments] (create 2)
  = ([0; 1]%nat,
     [mkSlot true lockdown_result; mkSlot false default_result]).
Proof. reflexivity. Qed.

End PoolProperties.

Lemma allocate_reuses_witness :
  let pool := [MemoryPool.mkSlot true lockdown_result;
               MemoryPool.mkSlot false MemoryPool.default_result] in
  fst (MemoryPool.allocate (MemoryPool.Fields false "none" 1) pool) = 1%nat /\
  MemoryPool.available
    (snd (MemoryPool.allocate (MemoryPool.Fields false "none" 1) pool)) = 1%nat /\
  S (MemoryPool.available
       (snd (MemoryPool.allocate
               (MemoryPool.Copy (MemoryPool.mkSlot true lockdown_result)) pool))) = 1%nat.
Proof.
  pose proof (@allocate_reuses_the_first_free_object
                (MemoryPool.Fields false "none" 1) MemoryPool.NoArguments
                [MemoryPool.mkSlot true lockdown_result;
                 MemoryPool.mkSlot false MemoryPool.default_result]
                (Nat.lt_0_1)) as H.
  pose proof (@allocate_reuses_the_first_free_object
                (MemoryPool.Copy (MemoryPool.mkSlot true lockdown_result))
                MemoryPool.NoArguments
                [MemoryPool.mkSlot true lockdown_result;
                 MemoryPool.mkSlot false MemoryPool.default_result]
                (Nat.lt_0_1)) as H'.
  cbv zeta.
  destruct (MemoryPool.allocate (MemoryPool.Fields false "none" 1)
              [MemoryPool.mkSlot true lockdown_result;
               MemoryPool.mkSlot false MemoryPool.default_result]) as [obj pool'].
  destruct (MemoryPool.allocate (MemoryPool.Copy (MemoryPool.mkSlot true lockdown_result))
              [MemoryPool.mkSlot true lockdown_result;
               MemoryPool.mkSlot false MemoryPool.default_result]) as [obj2 pool2].
  destruct H as (Hff & _ & _ & _ & _ & _ & Hfree & _).
  destruct H' as (_ & _ & _ & _ & _ & _ & _ & Hused).
  split; [simpl in *; congruence|].
  split; [exact (proj1 (Hfree eq_refl)) | exact (Hused eq_refl)].
Defined.

Lemma allocate_grows_when_full_witness :
  MemoryPool.allocate (MemoryPool.Fields false "none" 1)
    [MemoryPool.mkSlot true lockdown_result]
  = (1%nat, [MemoryPool.mkSlot true lockdown_result;
             MemoryPool.mkSlot true (mkResult false "none" 1)]).
Proof.
  exact (proj1 (@allocate_grows_when_full (MemoryPool.Fields false "none" 1)
                  [MemoryPool.mkSlot true lockdown_result] eq_refl)).
Defined.

Lemma pool_with_capacity_witness :
  let (handed, final) :=
    MemoryPool.run
      [MemoryPool.Allocate (MemoryPool.Fields false "none" 1);
       MemoryPool.Allocate MemoryPool.NoArguments;
       MemoryPool.Deallocate 0;
       MemoryPool.Allocate (MemoryPool.Copy (MemoryPool.mkSlot false lockdown_result))]
      (MemoryPool.create 100) in
  Forall (fun obj => obj = 0%nat) handed /\
  MemoryPool.size final = 100%nat /\
  MemoryPool.available final = 100%nat.
Proof.
  assert (Huses : MemoryPool.copies_no_object_in_use
            [MemoryPool.Allocate (MemoryPool.Fields false "none" 1);
             MemoryPool.Allocate MemoryPool.NoArguments;
             MemoryPool.Deallocate 0;
             MemoryPool.Allocate
               (MemoryPool.Copy (MemoryPool.mkSlot false lockdown_result))]).
  { repeat constructor. }
  exact (@pool_with_capacity_hands_out_one_object 100 _
           (le_n_S 0 99 (Nat.le_0_l 99)) Huses).
Defined.

(* ================================================================== *)
(** * More about the classifier *)

Module TierMore.

Lemma tolower_idem (c : ascii) : CType.tolower (CType.tolower c) = CType.tolower c.
Proof. destruct c as [[] [] [] [] [] [] [] []]; reflexivity. Qed.

Lemma to_lower_idem (s : string) : Str.to_lower (Str.to_lower s) = Str.to_lower s.
Proof.
  unfold Str.to_lower. induction s as [|c s IH]; simpl; [reflexivity|].
  now rewrite tolower_idem, IH.
Qed.

Lemma all_of_isspace_to_lower (s : string) :
  Str.all_of CType.isspace (Str.to_lower s) = Str.all_of CType.isspace s.
Proof.
  unfold Str.to_lower. induction s as [|c s IH]; simpl; [reflexivity|].
  now rewrite StrFacts.isspace_tolower, IH.
Qed.

Lemma span_fst_all (p : ascii -> bool) (s : string) :
  Str.all_of p (fst (Str.span p s)) = true.
Proof.
  induction s as [|c s IH]; simpl; [reflexivity|].
  destruct (p c) eqn:E; [|reflexivity].
  destruct (Str.span p s) as [a b]. simpl in *. now rewrite E, IH.
Qed.

Lemma span_app (p : ascii -> bool) (s : string) :
  s = fst (Str.span p s) ++ snd (Str.span p s).
Proof.
  induction s as [|c s IH]; simpl; [reflexivity|].
  destruct (p c); [|reflexivity].
  destruct (Str.span p s) as [a b]. simpl in *. now rewrite <- IH.
Qed.

Lemma ltrim_blank_iff (s : string) :
  Str.all_of CType.isspace s = true <-> Str.ltrim s = EmptyString.
Proof.
  induction s as [|c s IH]; simpl; [tauto|].
  destruct (CType.isspace c); simpl; [exact IH|].
  split; discriminate.
Qed.

(** After [ltrim] a text is empty or starts with a character that is not
    white space. *)
Lemma ltrim_head (s : string) :
  Str.ltrim s = EmptyString \/
  exists c r, Str.ltrim s = String c r /\ CType.isspace c = false.
Proof.
  induction s as [|c s IH]; simpl; [now left|].
  destruct (CType.isspace c) eqn:E; [exact IH|].
  right. now exists c, s.
Qed.

Lemma base_command_eq (command : string) :
  base_command command =
  Str.to_lower (fst (Str.span (fun c => negb (CType.isspace c)) (Str.ltrim command))).
Proof.
  unfold base_command, IStream.extract. simpl.
  destruct (Str.span (fun c => negb (CType.isspace c)) (Str.ltrim command)) as [w rest].
  simpl. destruct w; reflexivity.
Qed.

Lemma base_command_nonspace (command : string) :
  Str.all_of (fun c => negb (CType.isspace c)) (base_command command) = true.
Proof.
  rewrite base_command_eq, TierFacts.nonspace_to_lower. apply span_fst_all.
Qed.

Lemma base_command_idem (command : string) :
  base_command (base_command command) = base_command command.
Proof.
  rewrite (@TierFacts.base_command_word (base_command command))
    by apply base_command_nonspace.
  rewrite base_command_eq. apply to_lower_idem.
Qed.

Lemma base_command_empty_iff (command : string) :
  base_command command = EmptyString <-> blank command.
Proof.
  split; [|apply TierFacts.base_command_blank].
  intros Hb. unfold blank. apply ltrim_blank_iff.
  rewrite base_command_eq in Hb.
  destruct (ltrim_head command) as [E | (c & r & E & Hc)]; [exact E|].
  rewrite E in Hb. simpl in Hb. rewrite Hc in Hb. simpl in Hb.
  destruct (Str.span (fun c0 => negb (CType.isspace c0)) r). discriminate.
Qed.

Lemma blank_base_command (command : string) :
  Str.all_of CType.isspace (base_command command) =
  Str.all_of CType.isspace command.
Proof.
  destruct (Str.all_of CType.isspace command) eqn:E.
  - now rewrite (@TierFacts.base_command_blank command E).
  - destruct (base_command command) as [|c w] eqn:Eb.
    + apply base_command_empty_iff in Eb. unfold blank in Eb. congruence.
    + pose proof (base_command_nonspace command) as Hn. rewrite Eb in Hn.
      simpl in Hn. apply andb_prop in Hn as [Hc _]. apply negb_true_iff in Hc.
      simpl. now rewrite Hc.
Qed.

(** Lower-casing the line does not change its base command. *)
Lemma base_command_to_lower (command : string) :
  base_command (Str.to_lower command) = base_command command.
Proof.
  rewrite !base_command_eq.
  assert (Hl : forall s, Str.ltrim (Str.to_lower s) = Str.to_lower (Str.ltrim s)).
  { unfold Str.to_lower. induction s as [|c s IH]; simpl; [reflexivity|].
    rewrite StrFacts.isspace_tolower. destruct (CType.isspace c); [exact IH | reflexivity]. }
  assert (Hs : forall s, fst (Str.span (fun c => negb (CType.isspace c)) (Str.to_lower s))
                         = Str.to_lower (fst (Str.span (fun c => negb (CType.isspace c)) s))).
  { unfold Str.to_lower. induction s as [|c s IH]; simpl; [reflexivity|].
    rewrite StrFacts.isspace_tolower. destruct (CType.isspace c); simpl; [reflexivity|].
    destruct (Str.span _ (Str.map CType.tolower s)) as [a b].
    destruct (Str.span _ s) as [a' b']. simpl in *. now rewrite IH. }
  rewrite Hl, Hs. apply to_lower_idem.
Qed.

(** The built-in scan, label by label. *)
Lemma builtin_scan_cases (b : string) :
  In (scan_tiers hardcoded_defaults b)
     [Ret (1 # 1); Ret (2 # 1); Ret (5 # 2); Ret (3 # 1); Ret (4 # 1)].
Proof.
  unfold hardcoded_defaults. cbn [scan_tiers].
  repeat match goal with
         | |- context [if matches_any b ?l then _ else _] =>
             destruct (matches_any b l)
         end; vm_compute; auto 10.
Qed.

End TierMore.

(** X5.  The tier of a command line is the tier of its base command alone: letter
    case, leading white space and everything after the first word play no
    part, whatever the rule table. *)
Theorem get_tier_of_base_command (v : TierValidator) (command : string) :
  get_tier v command = get_tier v (base_command command) /\
  get_tier v (Str.to_lower command) = get_tier v command /\
  base_command (Str.to_lower command) = base_command command.
Proof.
  assert (H1 : forall c, get_tier v c = get_tier v (base_command c)).
  { intros c. destruct (Str.all_of CType.isspace c) eqn:E.
    - rewrite (@TierFacts.get_tier_blank v c E).
      rewrite (@TierFacts.base_command_blank c E). reflexivity.
    - rewrite (@TierFacts.get_tier_scan v c E).
      rewrite TierFacts.get_tier_scan by (now rewrite TierMore.blank_base_command).
      now rewrite TierMore.base_command_idem. }
  pose proof (TierMore.base_command_to_lower command) as H3.
  split; [apply H1|]. split; [|exact H3].
  rewrite (H1 (Str.to_lower command)), (H1 command). now rewrite H3.
Qed.

(** X6.  Under the built-in table every command has one of the five tiers, and
    exactly one of [is_safe], [requires_confirmation] and
    [requires_validation] holds of it. *)
Theorem builtin_tiers_partition_commands (command : string) :
  let v := TierValidator_new None in
  exists t,
    get_tier v command = Ret t /\
    In t [1 # 1; 2 # 1; 5 # 2; 3 # 1; 4 # 1] /\
    In (is_safe v command, requires_confirmation v command, requires_validation v command)
       [(Ret true, Ret false, Ret false);
        (Ret false, Ret true, Ret false);
        (Ret false, Ret false, Ret true)].
Proof.
  intros v.
  assert (Hc : In (get_tier v command)
                  [Ret (1 # 1); Ret (2 # 1); Ret (5 # 2); Ret (3 # 1); Ret (4 # 1)]).
  { destruct (Str.all_of CType.isspace command) eqn:E.
    - rewrite (@TierFacts.get_tier_blank v command E). simpl. auto 10.
    - unfold v. rewrite (@TierFacts.get_tier_scan _ command E), TierFacts.builtin_table.
      apply TierMore.builtin_scan_cases. }
  unfold is_safe, requires_confirmation, requires_validation.
  simpl in Hc.
  destruct Hc as [H|[H|[H|[H|[H|[]]]]]]; rewrite <- H;
    eexists; (split; [reflexivity|]); split; vm_compute; auto 10.
Qed.

(** X7.  Whatever the rule table, no two of the three predicates hold of the same
    command, and none holds exactly when the tier lies strictly between 2
    and 3 without being 2.5. *)
Theorem tier_predicates_exclude_each_other
    (v : TierValidator) (command : string) (t : float) :
  get_tier v command = Ret t ->
  exists safe confirm validate,
    is_safe v command = Ret safe /\
    requires_confirmation v command = Ret confirm /\
    requires_validation v command = Ret validate /\
    (safe = true <-> (t <= 2 # 1)%Q) /\
    (confirm = true <-> (t == 5 # 2)%Q) /\
    (validate = true <-> ((3 # 1) <= t)%Q) /\
    (safe && confirm = false) /\ (safe && validate = false) /\
    (confirm && validate = false) /\
    (safe || confirm || validate = false <->
     ((2 # 1) < t)%Q /\ (t < (3 # 1))%Q /\ ~ (t == 5 # 2)%Q).
Proof.
  intros Ht. unfold is_safe, requires_confirmation, requires_validation.
  rewrite Ht. simpl.
  exists (Qle_bool t (2 # 1)), (Qeq_bool t (5 # 2)), (Qle_bool (3 # 1) t).
  split; [reflexivity|]. split; [reflexivity|]. split; [reflexivity|].
  split; [apply Qle_bool_iff|]. split; [apply Qeq_bool_iff|].
  split; [apply Qle_bool_iff|].
  destruct (Qle_bool t (2 # 1)) eqn:E2;
    [apply Qle_bool_iff in E2 | apply not_true_iff_false in E2; rewrite Qle_bool_iff in E2];
  (destruct (Qeq_bool t (5 # 2)) eqn:E25;
    [apply Qeq_bool_iff in E25 | apply Qeq_bool_neq in E25]);
  (destruct (Qle_bool (3 # 1) t) eqn:E3;
    [apply Qle_bool_iff in E3 | apply not_true_iff_false in E3; rewrite Qle_bool_iff in E3]);
  simpl; repeat split; try reflexivity; try discriminate; intros;
    try (exfalso; lra); try lra; try tauto.
Qed.

Lemma tier_predicates_witness :
  is_safe (TierValidator_new None) "ls -la" = Ret true /\
  requires_validation (TierValidator_new None) "ls -la" = Ret false.
Proof.
  destruct (@tier_predicates_exclude_each_other (TierValidator_new None) "ls -la"
              (1 # 1) eq_refl)
    as (safe & confirm & validate & Hs & Hc & Hv & Hsafe & _ & _ & _ & Hsv & _).
  assert (E : safe = true) by (apply Hsafe; discriminate).
  subst safe. simpl in Hsv. subst validate. split; assumption.
Defined.

(* ================================================================== *)
(** * What [parse_json] can read *)

Module ParseFacts.

Ltac only_char c :=
  destruct c as [[] [] [] [] [] [] [] []]; try discriminate.

(** A match of the tier pattern, taken apart. *)
Lemma match_tier_here_inv (s label body rest : string) :
  Regex.match_tier_here s = Some (label, body, rest) ->
  exists s1 ip s2 s3 s4 s6,
    s = String CType.quote s1 /\
    Str.span CType.isdigit s1 = (ip, s2) /\
    ip <> EmptyString /\
    ((label = ip /\ s3 = s2) \/
     (exists r fp, s2 = String "."%char r /\
                   Str.span CType.isdigit r = (fp, s3) /\
                   fp <> EmptyString /\ label = ip ++ "." ++ fp)) /\
    s3 = String CType.quote (String ":"%char s4) /\
    Str.ltrim s4 = String "["%char s6 /\
    Regex.lazy_body s6 = Some (body, rest).
Proof.
  unfold Regex.match_tier_here.
  destruct s as [|q s1]; [discriminate|].
  destruct (Ascii.eqb_spec q CType.quote) as [->|]; [|discriminate]. simpl negb. cbv iota.
  destruct (Str.span CType.isdigit s1) as [ip s2] eqn:Eip.
  destruct ip as [|d ip']; [discriminate|]. cbn [Str.empty].
  set (ip := String d ip') in *.
  assert (Hsplit :
    forall (X : string * string),
      X = match s2 with
          | String "."%char r =>
              let (fp, r') := Str.span CType.isdigit r in
              if Str.empty fp then (ip, s2) else (ip ++ "." ++ fp, r')
          | _ => (ip, s2)
          end ->
      (fst X = ip /\ snd X = s2) \/
      (exists r fp, s2 = String "."%char r /\
                    Str.span CType.isdigit r = (fp, snd X) /\
                    fp <> EmptyString /\ fst X = ip ++ "." ++ fp)).
  { intros X ->. destruct s2 as [|c r]; [now left|].
    destruct c as [[] [] [] [] [] [] [] []]; try (now left).
    destruct (Str.span CType.isdigit r) as [fp r'] eqn:Efp.
    destruct fp as [|f fp']; [now left|].
    right. exists r, (String f fp'). simpl. repeat split; auto. discriminate. }
  match goal with
  | |- context [match ?X with (_, _) => _ end] =>
      specialize (Hsplit X eq_refl); destruct X as [label0 s3]
  end.
  cbn [fst snd] in Hsplit.
  destruct s3 as [|q' [|col s4]]; try discriminate.
  only_char col.
  destruct (Ascii.eqb_spec q' CType.quote) as [->|]; [|discriminate]. simpl negb. cbv iota.
  destruct (Str.ltrim s4) as [|br s6] eqn:Etrim; [discriminate|].
  only_char br.
  destruct (Regex.lazy_body s6) as [[b r0]|] eqn:Elazy; [|discriminate].
  intros [= <- <- <-].
  exists s1, ip, s2, (String CType.quote (String ":"%char s4)), s4, s6.
  split; [reflexivity|]. split; [exact Eip|]. split; [discriminate|].
  split.
  { destruct Hsplit as [[H1 H2] | (r & fp & H1 & H2 & H3 & H4)];
      [left; now split | right; exists r, fp; auto]. }
  split; [reflexivity|]. split; [exact Etrim | exact Elazy].
Qed.

Lemma span_digit_led (s ip s2 : string) :
  Str.span CType.isdigit s = (ip, s2) -> ip <> EmptyString -> digit_led ip = true.
Proof.
  intros Hs Hne. pose proof (TierMore.span_fst_all CType.isdigit s) as Hall.
  rewrite Hs in Hall. simpl in Hall.
  destruct ip as [|c ip']; [congruence|]. simpl in *.
  now apply andb_prop in Hall as [Hc _].
Qed.

Lemma match_tier_here_label (s label body rest : string) :
  Regex.match_tier_here s = Some (label, body, rest) -> digit_led label = true.
Proof.
  intros Hm. apply match_tier_here_inv in Hm
    as (s1 & ip & s2 & s3 & s4 & s6 & _ & Hip & Hne & Hlabel & _).
  pose proof (@span_digit_led s1 ip s2 Hip Hne) as Hd.
  destruct Hlabel as [[-> _] | (r & fp & _ & _ & _ & ->)]; [exact Hd|].
  destruct ip; [discriminate | exact Hd].
Qed.

Lemma search_tier_cons (c : ascii) (s : string) :
  Regex.search_tier (String c s) =
  match Regex.match_tier_here (String c s) with
  | Some r => Some r
  | None => Regex.search_tier s
  end.
Proof. reflexivity. Qed.

Lemma search_tier_label (s label body rest : string) :
  Regex.search_tier s = Some (label, body, rest) -> digit_led label = true.
Proof.
  induction s as [|c s IH]; [discriminate|].
  rewrite search_tier_cons.
  - destruct (Regex.match_tier_here (String c s)) as [[[l b] r]|] eqn:E.
    + intros [= <- <- <-]. now apply match_tier_here_label in E.
    + exact IH.
Qed.

Lemma assign_keys (k : string) (v : list string) (m : StdMap.t) (k' : string) :
  In k' (StdMap.keys (StdMap.assign k v m)) -> k' = k \/ In k' (StdMap.keys m).
Proof.
  unfold StdMap.keys. induction m as [|[k0 v0] m IH]; simpl.
  - intros [<- | []]. now left.
  - destruct (String.compare k k0); simpl; intros Hin.
    + destruct Hin as [<- | Hin]; auto.
    + destruct Hin as [<- | Hin]; auto.
    + destruct Hin as [<- | Hin]; auto. destruct (IH Hin); auto.
Qed.

Lemma parse_tiers_labels (fuel : nat) :
  forall (json : string) (m : StdMap.t),
    Forall (fun k => digit_led k = true) (StdMap.keys m) ->
    Forall (fun k => digit_led k = true) (StdMap.keys (parse_tiers fuel json m)).
Proof.
  induction fuel as [|fuel IH]; intros json m Hm; simpl; [exact Hm|].
  destruct (Regex.search_tier json) as [[[tier body] suffix]|] eqn:E; [|exact Hm].
  apply IH. apply Forall_forall. intros k' Hin.
  apply assign_keys in Hin as [-> | Hin].
  - now apply search_tier_label in E.
  - rewrite Forall_forall in Hm. now apply Hm.
Qed.

Lemma validator_labels (file : option string) :
  Forall (fun k => digit_led k = true) (StdMap.keys (tier_defaults_ (TierValidator_new file))).
Proof.
  destruct file as [json|].
  - apply parse_tiers_labels. constructor.
  - vm_compute. repeat constructor.
Qed.

Lemma strtof_value_range (n d : Z) (e : exception) :
  strtof_value n d = Throw e -> e = out_of_range.
Proof.
  unfold strtof_value.
  repeat match goal with
         | |- context [if ?b then _ else _] => destruct b
         end; intros E; (discriminate E || now injection E).
Qed.

Lemma stof_digit_led (s : string) :
  digit_led s = true -> stof s <> Throw invalid_argument.
Proof.
  destruct s as [|c s]; [discriminate|]. simpl. intros Hc.
  unfold stof. cbn [Str.span]. rewrite Hc.
  destruct (Str.span CType.isdigit s) as [a b]. cbn [Str.empty].
  intros E. apply strtof_value_range in E. discriminate E.
Qed.

Lemma scan_tiers_no_invalid_argument (m : StdMap.t) (b : string) :
  Forall (fun k => digit_led k = true) (StdMap.keys m) ->
  scan_tiers m b <> Throw invalid_argument.
Proof.
  induction m as [|[k v] m IH]; simpl; intros Hm; [discriminate|].
  inversion Hm; subst.
  destruct (matches_any b v); [now apply stof_digit_led | now apply IH].
Qed.

(** ** Texts without the pair the pattern ends with *)

Lemma suffix_refl (s : string) : suffix_of s s.
Proof. now exists EmptyString. Qed.

Lemma suffix_cons (c : ascii) (t s : string) : suffix_of (String c t) s -> suffix_of t s.
Proof.
  intros [a ->]. exists (a ++ String c EmptyString).
  now rewrite StrFacts.append_assoc.
Qed.

Lemma suffix_trans (u t s : string) : suffix_of u t -> suffix_of t s -> suffix_of u s.
Proof.
  intros [a ->] [b ->]. exists (b ++ a). now rewrite StrFacts.append_assoc.
Qed.

Lemma suffix_span (p : ascii -> bool) (s a b : string) :
  Str.span p s = (a, b) -> suffix_of b s.
Proof.
  intros Hs. exists a. pose proof (TierMore.span_app p s) as H.
  now rewrite Hs in H.
Qed.

Lemma suffix_ltrim (s : string) : suffix_of (Str.ltrim s) s.
Proof.
  induction s as [|c s IH]; simpl; [apply suffix_refl|].
  destruct (CType.isspace c); [|apply suffix_refl].
  destruct IH as [a Ha]. exists (String c a). simpl. now rewrite <- Ha.
Qed.

Lemma mentions_suffix (sub t s : string) :
  mentions sub t -> suffix_of t s -> mentions sub s.
Proof.
  intros (a & b & ->) [c ->]. exists (c ++ a), b.
  now rewrite StrFacts.append_assoc.
Qed.

Lemma lazy_body_cons (c : ascii) (s : string) :
  Regex.lazy_body (String c s) =
  match (if Ascii.eqb c "]"%char then
           match s with
           | String q rest => if Ascii.eqb q CType.quote then Some rest else None
           | EmptyString => None
           end
         else None) with
  | Some rest => Some (EmptyString, rest)
  | None =>
      if Ascii.eqb c CType.newline || Ascii.eqb c CType.carriage_return
      then None
      else match Regex.lazy_body s with
           | Some (b, rest) => Some (String c b, rest)
           | None => None
           end
  end.
Proof. reflexivity. Qed.

Lemma lazy_body_shape (s body rest : string) :
  Regex.lazy_body s = Some (body, rest) -> s = body ++ ("]" ++ dq) ++ rest.
Proof.
  revert body rest. induction s as [|c s IH]; intros body rest; [discriminate|].
  rewrite lazy_body_cons.
  assert (Hrec : (if Ascii.eqb c CType.newline || Ascii.eqb c CType.carriage_return
                  then None
                  else match Regex.lazy_body s with
                       | Some (b, rest0) => Some (String c b, rest0)
                       | None => None
                       end) = Some (body, rest) ->
                 String c s = body ++ ("]" ++ dq) ++ rest).
  { destruct (Ascii.eqb c CType.newline || Ascii.eqb c CType.carriage_return);
      [discriminate|].
    destruct (Regex.lazy_body s) as [[b r]|] eqn:E; [|discriminate].
    intros [= <- <-]. cbn [append]. f_equal. now apply IH. }
  destruct (Ascii.eqb_spec c "]"%char) as [->|Hc]; [|exact Hrec].
  destruct s as [|q s']; [exact Hrec|].
  destruct (Ascii.eqb_spec q CType.quote) as [->|Hq]; [|exact Hrec].
  intros [= <- <-]. reflexivity.
Qed.

Lemma match_tier_here_mentions (s label body rest : string) :
  Regex.match_tier_here s = Some (label, body, rest) -> mentions ("]" ++ dq) s.
Proof.
  intros Hm. apply match_tier_here_inv in Hm
    as (s1 & ip & s2 & s3 & s4 & s6 & -> & Hip & _ & Hlabel & -> & Htrim & Hlazy).
  apply lazy_body_shape in Hlazy.
  assert (Hm6 : mentions ("]" ++ dq) s6) by (now exists body, rest).
  apply mentions_suffix with s6; [exact Hm6|].
  assert (H64 : suffix_of s6 s4).
  { apply suffix_cons with "["%char. rewrite <- Htrim. apply suffix_ltrim. }
  assert (H42 : suffix_of s4 s2).
  { apply suffix_cons with ":"%char, suffix_cons with CType.quote.
    destruct Hlabel as [[_ <-] | (r & fp & -> & Hfp & _)]; [apply suffix_refl|].
    apply suffix_trans with r; [|apply suffix_cons with "."%char, suffix_refl].
    now apply suffix_span in Hfp. }
  apply suffix_trans with s4; [exact H64|].
  apply suffix_trans with s2; [exact H42|].
  apply suffix_trans with s1; [now apply suffix_span in Hip|].
  apply suffix_cons with CType.quote, suffix_refl.
Qed.

Lemma search_tier_mentions (s label body rest : string) :
  Regex.search_tier s = Some (label, body, rest) -> mentions ("]" ++ dq) s.
Proof.
  induction s as [|c s IH]; [discriminate|].
  rewrite search_tier_cons.
  - destruct (Regex.match_tier_here (String c s)) as [[[l b] r]|] eqn:E.
    + intros _. now apply match_tier_here_mentions in E.
    + intros Hs. apply IH in Hs. apply mentions_suffix with s; [exact Hs|].
      exists (String c EmptyString). reflexivity.
Qed.

Lemma substring_middle (a sub b : string) :
  substring (String.length a) (String.length sub) (a ++ sub ++ b) = sub.
Proof.
  induction a as [|c a IH]; simpl; [|exact IH].
  induction sub as [|d sub IHs]; simpl.
  - destruct b; reflexivity.
  - now rewrite IHs.
Qed.

(** [s.find(sub) == npos] rules out every occurrence. *)
Lemma find_none_not_mentioned (sub s : string) :
  sub <> EmptyString -> Str.find sub 0 s = None -> ~ mentions sub s.
Proof.
  intros Hne Hfind (a & b & ->).
  apply (index_correct3 0 (String.length a) sub (a ++ sub ++ b) Hfind Hne);
    [lia | apply substring_middle].
Qed.

End ParseFacts.

(** X8.  Whatever the rule file holds, [get_tier] never lets
    [std::invalid_argument] out: every label [parse_json] stores starts with
    a digit, as do the built-in ones, so [std::stof] always finds a number
    to convert.  The only exception it can raise is [std::out_of_range]. *)
Theorem get_tier_never_invalid_argument (file : option string) (command : string) :
  get_tier (TierValidator_new file) command <> Throw invalid_argument /\
  (forall e, get_tier (TierValidator_new file) command = Throw e -> e = out_of_range).
Proof.
  assert (H : get_tier (TierValidator_new file) command <> Throw invalid_argument).
  { unfold get_tier.
    destruct (Str.empty command || Str.all_of CType.isspace command); [discriminate|].
    apply ParseFacts.scan_tiers_no_invalid_argument, ParseFacts.validator_labels. }
  split; [exact H|].
  intros [|] He; [congruence | reflexivity].
Qed.

(** X9.  A rule file in which no closing bracket is directly followed by a double
    quote, as in every well-formed JSON text, gives an empty rule table:
    every command is then classified 3.0, and none is locked down. *)
Theorem rule_file_without_bracket_quote_is_ignored (json_content : string) :
  Str.find ("]" ++ dq) 0 json_content = None ->
  TierValidator_new (Some json_content) = mkTierValidator [] /\
  forall command,
    get_tier (TierValidator_new (Some json_content)) command = Ret (3 # 1) /\
    requires_validation (TierValidator_new (Some json_content)) command = Ret true.
Proof.
  intros Hfind.
  assert (Hnone : Regex.search_tier json_content = None).
  { destruct (Regex.search_tier json_content) as [[[l b] r]|] eqn:E; [|reflexivity].
    apply ParseFacts.search_tier_mentions in E.
    apply ParseFacts.find_none_not_mentioned in Hfind; [contradiction | discriminate]. }
  assert (Hv : TierValidator_new (Some json_content) = mkTierValidator []).
  { unfold TierValidator_new, load_tier_defaults, load_from_file, parse_json.
    cbn [negb tier_defaults_]. f_equal.
    destruct (String.length json_content); simpl; [reflexivity|].
    now rewrite Hnone. }
  split; [exact Hv|].
  intros command. rewrite Hv.
  assert (Ht : get_tier (mkTierValidator []) command = Ret (3 # 1)).
  { unfold get_tier. simpl. now destruct (_ || _). }
  unfold requires_validation. rewrite Ht. split; reflexivity.
Qed.

Lemma rule_file_without_bracket_quote_witness :
  get_tier (TierValidator_new (Some json_rule_file)) "rm -rf /" = Ret (3 # 1).
Proof.
  exact (proj1 (proj2 (@rule_file_without_bracket_quote_is_ignored json_rule_file eq_refl)
                  "rm -rf /")).
Defined.

(* ================================================================== *)
(** * What a routed call does and does not do *)

Section EffectFacts.

Context `{OperatingSystem}.

Lemma pure_constant (strategy : CommandStrategy) (s : Sys) (res : CommandResult) :
  (success res = true <-> exit_code res = 0%Z) ->
  execute_shape strategy s (ret res s).
Proof.
  intros Hres. apply PureAnswer. intros res' [= <-]. exact Hres.
Qed.

Lemma pure_throw (strategy : CommandStrategy) (s : Sys) (e : exception) :
  execute_shape strategy s (Throw e, s).
Proof. apply PureAnswer. discriminate. Qed.

Lemma shell_success_exit (command : string) (s s' : Sys) (r : CommandResult) :
  ShellAdapter.execute command s = (Ret r, s') ->
  success r = true <-> exit_code r = 0%Z.
Proof.
  unfold ShellAdapter.execute.
  pose proof (shell_success_iff_zero command 30 (world s)) as Hz.
  destruct (ShellAdapter.execute_with_timeout command 30 (world s)) as [r0 w'].
  intros [= <- <-]. exact Hz.
Qed.

Lemma shell_shape (strategy : CommandStrategy) (command : string) (s : Sys) :
  In strategy [PipeStrategy; CdStrategy; ForceExecutionStrategy;
               TierExecutionStrategy] ->
  execute_shape strategy s (ShellAdapter.execute command s).
Proof.
  intros Hin. destruct (shell_execute_spec command s) as (r & w' & _ & E).
  rewrite E. apply ShellAnswer with command r; auto.
Qed.

Ltac const_answer :=
  apply pure_constant; simpl; split; intros; (discriminate || reflexivity).

Lemma execute_has_shape (strategy : CommandStrategy) (input : string)
      (context : StrategyContext) (s : Sys) :
  execute_shape strategy s (execute strategy input context s).
Proof.
  destruct strategy; cbn [execute].
  - apply shell_shape. simpl. auto.
  - unfold CdStrategy_execute.
    destruct (IStream.extract (IStream.open input)) as [cmd iss1].
    destruct (IStream.extract iss1) as [dir iss2].
    apply shell_shape. simpl. auto.
  - unfold ForceExecutionStrategy_execute, bind, lift.
    destruct (Str.substr 1 input); [|apply pure_throw].
    apply shell_shape. simpl. auto.
  - const_answer.
  - unfold ConfigStrategy_execute.
    destruct (config_args input) as [|a args]; [const_answer|].
    repeat match goal with
           | |- context [if ?b then _ else _] => destruct b
           end; const_answer.
  - unfold DeviceRoutingStrategy_execute.
    destruct (Str.find_char " " 1 input) as [space_pos|]; [|const_answer].
    unfold bind at 1. unfold lift at 1.
    destruct (Str.substr_n 1 (space_pos - 1) input) as [device_spec|]; [|apply pure_throw].
    unfold bind at 1. unfold lift at 1.
    destruct (Str.substr (space_pos + 1) input) as [device_cmd|]; [|apply pure_throw].
    unfold bind at 1.
    match goal with
    | |- context [match ?N s with _ => _ end] =>
        assert (Hn : (exists p, N s = (Ret p, s)) \/ (exists e, N s = (Throw e, s)))
    end.
    { destruct (Str.find_char ":" 0 device_spec) as [colon_pos|]; unfold bind, lift, ret.
      - destruct (Str.substr_n 0 colon_pos device_spec); [|right; eauto].
        destruct (Str.substr (colon_pos + 1) device_spec); [left | right]; eauto.
      - left. eauto. }
    destruct Hn as [[[a b] Hn] | [e Hn]]; rewrite Hn; [|apply pure_throw].
    unfold bind, print, ret.
    destruct (_ || _); [|destruct (Str.found_at_0 _ _)];
      now apply LoggedAnswer.
  - const_answer.
  - unfold TaskModeStrategy_execute, bind, lift.
    destruct (Str.substr 11 input); [|apply pure_throw].
    destruct (Str.empty _); const_answer.
  - unfold AgenticModeStrategy_execute, bind, lift.
    destruct (Str.substr _ input); [|apply pure_throw].
    destruct (Str.empty _); const_answer.
  - unfold MetaCommandStrategy_execute, bind, lift.
    destruct (Str.substr 1 input); [|apply pure_throw].
    repeat match goal with
           | |- context [if ?b then _ else _] => destruct b
           end; const_answer.
  - unfold NaturalLanguageStrategy_execute, bind, lift.
    destruct (Str.substr 5 input); [|apply pure_throw].
    const_answer.
  - const_answer.
  - unfold TierExecutionStrategy_execute, bind, lift.
    destruct (get_tier (validator context) input) as [tier|]; [|apply pure_throw].
    destruct (shell_execute_spec input s) as (r & w' & _ & E).
    destruct (Qle_bool (4 # 1) tier); [const_answer|].
    destruct (Qle_bool (3 # 1) tier);
      [rewrite E; apply ShellAnswer with input r; simpl; auto 10|].
    destruct (Qeq_bool tier (5 # 2));
      [rewrite E; apply ShellAnswer with input r; simpl; auto 10|].
    apply shell_shape. simpl. auto.
Qed.

Lemma try_strategies_shape (l : list CommandStrategy) (input : string)
      (context : StrategyContext) (s : Sys) :
  exists strategy,
    (selected l input = Some strategy \/ selected l input = None) /\
    execute_shape strategy s (try_strategies l input context s).
Proof.
  rewrite try_strategies_selected.
  destruct (selected l input) as [strategy|].
  - exists strategy. split; [now left | apply execute_has_shape].
  - exists ExitBlockerStrategy. split; [now right|].
    apply pure_constant. simpl. split; intros; discriminate.
Qed.

End EffectFacts.

Section RoutedCalls.

Context `{OperatingSystem} `{StdSort}.

(** Every router built over a rule file looks the same once loaded. *)
Lemma ensure_canonical (file : option string) (r : CommandRouter) :
  router_state file r ->
  ensure_strategies_loaded r =
  mkRouter (TierValidator_new file) (std_sort by_priority registered) true 1.
Proof.
  intros Hr. destruct r as [v l b n].
  destruct Hr as [Hv Hl Hs Hc | Hv Hl Hs Hc]; simpl in *; subst;
    reflexivity.
Qed.

Lemma never_device (input : string) :
  selected registered input <> Some DeviceRoutingStrategy /\
  selected registered input <> Some ExitBlockerStrategy /\
  selected registered input <> Some UnixAliasStrategy.
Proof.
  unfold selected, registered. cbn [List.find].
  change (can_handle DeviceRoutingStrategy input)
    with (can_handle ForceExecutionStrategy input).
  change (can_handle ExitBlockerStrategy input) with false.
  change (can_handle UnixAliasStrategy input) with false.
  cbv iota.
  repeat match goal with
         | |- context [if can_handle ?x input then _ else _] =>
             destruct (can_handle x input)
         end; repeat split; discriminate.
Qed.

(** X10.  The result of a call does not depend on what the router was asked
    before: two routers built over the same rule file, whatever calls each
    has served, answer the same input in the same system state with the same
    outcome, the same effects and the same router afterwards. *)
Theorem route_command_ignores_history
    (file : option string) (history1 history2 : list Call) (s1 s2 : Sys)
    (input : string) (s : Sys) :
  route_command (fst (run history1 (CommandRouter_new file, s1))) input s =
  route_command (fst (run history2 (CommandRouter_new file, s2))) input s.
Proof.
  unfold route_command.
  rewrite (@ensure_canonical file (fst (run history1 (CommandRouter_new file, s1))))
    by apply run_router_state, new_router_state.
  rewrite (@ensure_canonical file (fst (run history2 (CommandRouter_new file, s2))))
    by apply run_router_state, new_router_state.
  reflexivity.
Qed.

(** X11.  Every result [route_command] returns, from whatever strategy and for
    whatever router, is a success exactly when its exit code is zero. *)
Theorem routed_success_iff_exit_code_zero
    (r r' : CommandRouter) (input : string) (s s' : Sys) (res : CommandResult) :
  route_command r input s = (r', Ret res, s') ->
  (success res = true <-> exit_code res = 0%Z).
Proof.
  unfold route_command.
  set (r1 := ensure_strategies_loaded r).
  destruct (try_strategies_shape (strategies_ r1) input (mkContext r1 (validator_ r1)) s)
    as (strategy & _ & Hshape).
  destruct (try_strategies (strategies_ r1) input (mkContext r1 (validator_ r1)) s)
    as [out s1].
  intros [= _ -> ->].
  inversion Hshape as [out Hres | command r0 res0 s0 Hsh Hs He _ | line res0 _ Hs He]; subst.
  - now apply Hres.
  - rewrite Hs, He. now apply shell_success_exit with command s s'.
  - rewrite Hs, He. tauto.
Qed.

(** X12.  A routed call runs the shell once or not at all and never writes to the
    standard output.  When the shell is not run the system state is what it
    was; when it is, exactly one command is added to the record of shell
    calls; and the strategies other than Pipe, Cd, ForceExecution and
    TierExecution never run it. *)
Theorem route_command_runs_the_shell_at_most_once
    (file : option string) (history : list Call) (s0 : Sys) (input : string) :
  let st := run history (CommandRouter_new file, s0) in
  let r := fst st in
  let s := snd st in
  let s' := snd (route_command r input s) in
  cout s' = cout s /\
  (s' = s \/
   exists command w',
     s' = mkSys w' (shell_calls s ++ [command])%list (cout s) /\
     exists strategy,
       selected registered input = Some strategy /\
       In strategy [PipeStrategy; CdStrategy; ForceExecutionStrategy;
                    TierExecutionStrategy]).
Proof.
  intros st r s s'.
  assert (Hr : router_state file r) by apply run_router_state, new_router_state.
  destruct (ensure_loaded_state Hr) as (Hv & Hl & Hs & Hc).
  destruct (selected_registered input) as [strategy Hsel].
  pose proof (@route_command_selected _ _ file r input s strategy Hr Hsel) as Hroute.
  cbv zeta in Hroute. unfold s'. rewrite Hroute.
  pose proof (execute_has_shape strategy input
                (mkContext (ensure_strategies_loaded r)
                           (validator_ (ensure_strategies_loaded r))) s) as Hshape.
  destruct (execute strategy input _ s) as [out s1]. cbn [snd].
  inversion Hshape as [out0 Hres | command r0 res0 s2 Hsh _ _ Hin | line res0 Hd _ _]; subst.
  - split; [reflexivity | now left].
  - destruct (shell_execute_spec command s) as (r1 & w' & _ & E).
    rewrite E in Hsh. injection Hsh as _ <-.
    split; [reflexivity|]. right. exists command, w'. split; [reflexivity|].
    now exists strategy.
  - destruct (never_device input) as (Hnd & _). congruence.
Qed.

(** X13.  Three registered strategies are never the one selected: device routing
    sits behind ForceExecution, which accepts the same inputs, and the exit
    blocker and the Unix alias strategy accept nothing.  An input with a
    leading exclamation mark goes to Pipe or to ForceExecution. *)
Theorem device_routing_is_never_selected
    (file : option string) (history : list Call) (s0 : Sys) (input : string) :
  let r' := ensure_strategies_loaded (fst (run history (CommandRouter_new file, s0))) in
  selected (strategies_ r') input <> Some DeviceRoutingStrategy /\
  selected (strategies_ r') input <> Some ExitBlockerStrategy /\
  selected (strategies_ r') input <> Some UnixAliasStrategy /\
  (can_handle DeviceRoutingStrategy input = true ->
   selected (strategies_ r') input = Some PipeStrategy \/
   selected (strategies_ r') input = Some ForceExecutionStrategy).
Proof.
  intros r'.
  assert (Hr : router_state file (fst (run history (CommandRouter_new file, s0))))
    by apply run_router_state, new_router_state.
  destruct (ensure_loaded_state Hr) as (_ & _ & Hs & _). fold r' in Hs.
  rewrite Hs, selected_sorted.
  destruct (never_device input) as (H1 & H2 & H3).
  repeat split; try assumption.
  intros Hd. unfold selected, registered. cbn [List.find].
  destruct (can_handle PipeStrategy input); [now left|].
  assert (Hcd : can_handle CdStrategy input = false).
  { destruct (can_handle CdStrategy input) eqn:E; [|reflexivity].
    apply StrFacts.first_is_cons in Hd as [rest ->].
    cbn [can_handle] in E. apply orb_prop in E as [E | E].
    - apply StrFacts.found_at_0_prefix, StrFacts.prefix_cons in E as (r0 & E & _).
      discriminate.
    - apply String.eqb_eq in E. discriminate. }
  rewrite Hcd.
  change (can_handle ForceExecutionStrategy input)
    with (can_handle DeviceRoutingStrategy input).
  rewrite Hd. now right.
Qed.

End RoutedCalls.

Lemma routed_success_witness :
  success (mkResult true "ls" 0) = true <-> exit_code (mkResult true "ls" 0) = 0%Z.
Proof.
  exact (@routed_success_iff_exit_code_zero echo_os stable_impl
           (CommandRouter_new None)
           (@ensure_strategies_loaded stable_impl (CommandRouter_new None))
           "ls" echo_boot (echo_after "ls") (mkResult true "ls" 0) eq_refl).
Defined.

Lemma device_routing_witness :
  selected (strategies_ (@ensure_strategies_loaded stable_impl (CommandRouter_new None)))
           "!laptop /status" = Some ForceExecutionStrategy.
Proof.
  destruct (@device_routing_is_never_selected echo_os stable_impl None [] echo_boot
              "!laptop /status") as (_ & _ & _ & Hbang).
  destruct (Hbang eq_refl) as [Hp | Hf]; [discriminate Hp | exact Hf].
Defined.

(* ================================================================== *)
(** * Where the lines of each kind go *)

Module RouteFacts.

Lemma found_at_0_eq_prefix (p s : string) : Str.found_at_0 p s = prefix p s.
Proof.
  unfold Str.found_at_0, Str.find. destruct s as [|b s].
  - destruct p; reflexivity.
  - rewrite StrFacts.index_0_cons.
    destruct (prefix p (String b s)); [reflexivity|].
    destruct (index 0 p s); reflexivity.
Qed.

Lemma contains_cons (c b : ascii) (s : string) :
  contains c (String b s) <-> b = c \/ contains c s.
Proof. unfold contains. simpl. tauto. Qed.

Lemma contains_app (c : ascii) (a b : string) :
  contains c (a ++ b) <-> contains c a \/ contains c b.
Proof.
  unfold contains. induction a as [|x a IH]; simpl; [tauto|].
  rewrite IH. tauto.
Qed.

Lemma blank_no_pipe (tail : string) : blank tail -> ~ contains "|" tail.
Proof.
  unfold blank, contains. induction tail as [|c tail IH]; simpl; [tauto|].
  intros Hb. apply andb_prop in Hb as [Hc Ht].
  intros [-> | Hin]; [discriminate | now apply IH].
Qed.

Lemma tolower_pipe (c : ascii) : CType.tolower c = "|"%char <-> c = "|"%char.
Proof.
  split; [|now intros ->].
  destruct c as [[] [] [] [] [] [] [] []]; vm_compute; intros E;
    (reflexivity || discriminate E).
Qed.

Lemma contains_pipe_to_lower (s : string) :
  contains "|" (Str.to_lower s) <-> contains "|" s.
Proof.
  unfold contains, Str.to_lower. induction s as [|c s IH]; simpl; [tauto|].
  rewrite IH, tolower_pipe. tauto.
Qed.

Lemma find_char_hit (c : ascii) (s : string) : Str.find_char c 0 (String c s) = Some 0.
Proof.
  unfold Str.find_char, Str.find.
  rewrite StrFacts.index_0_cons, StrFacts.prefix_char.
  destruct (ascii_dec c c); [reflexivity | congruence].
Qed.

Lemma find_char_skip (c b : ascii) (s : string) :
  b <> c -> Str.find_char c 0 (String b s) = option_map S (Str.find_char c 0 s).
Proof.
  intros Hne. unfold Str.find_char, Str.find.
  rewrite StrFacts.index_0_cons, StrFacts.prefix_char.
  destruct (ascii_dec c b); [congruence|].
  destruct (index 0 (String c EmptyString) s); reflexivity.
Qed.

(** The first strategies of the list on a line that is neither piped nor a
    change of directory nor forced. *)
Lemma selected_after_three (input : string) :
  can_handle PipeStrategy input = false ->
  can_handle CdStrategy input = false ->
  can_handle ForceExecutionStrategy input = false ->
  selected registered input =
  selected [ExitQuitStrategy; ConfigStrategy; TaskModeStrategy; AgenticModeStrategy;
            MetaCommandStrategy; NaturalLanguageStrategy; TierExecutionStrategy] input.
Proof.
  intros Hp Hc Hf. unfold selected, registered. cbn [List.find].
  rewrite Hp, Hc, Hf.
  change (can_handle DeviceRoutingStrategy input)
    with (can_handle ForceExecutionStrategy input).
  rewrite Hf. reflexivity.
Qed.

Lemma cd_refuses_other_heads (c : ascii) (rest : string) :
  c <> "c"%char -> can_handle CdStrategy (String c rest) = false.
Proof.
  intros Hne. cbn [can_handle]. rewrite found_at_0_eq_prefix.
  apply orb_false_iff. split.
  - destruct (prefix "cd " (String c rest)) eqn:E; [|reflexivity].
    apply StrFacts.prefix_cons in E as (r0 & E & _).
    injection E as E _. congruence.
  - apply String.eqb_neq. intros E. injection E as E _. congruence.
Qed.

Lemma force_refuses_other_heads (c : ascii) (rest : string) :
  c <> "!"%char -> can_handle ForceExecutionStrategy (String c rest) = false.
Proof. intros Hne. cbn [can_handle Str.first_is]. now apply Ascii.eqb_neq. Qed.

Lemma selected_force (command : string) :
  ~ contains "|" command ->
  selected registered (String "!" command) = Some ForceExecutionStrategy.
Proof.
  intros Hp. unfold selected, registered. cbn [List.find].
  rewrite DefaultPath.pipe_refuses
    by (rewrite contains_cons; intros [E | E]; [discriminate | contradiction]).
  rewrite cd_refuses_other_heads by discriminate. reflexivity.
Qed.

Lemma selected_cd (input : string) :
  ~ contains "|" input -> can_handle CdStrategy input = true ->
  selected registered input = Some CdStrategy.
Proof.
  intros Hp Hc. unfold selected, registered. cbn [List.find].
  now rewrite (DefaultPath.pipe_refuses input Hp), Hc.
Qed.

Lemma selected_exit (input : string) :
  In (Str.to_lower input) exit_words ->
  selected registered input = Some ExitQuitStrategy.
Proof.
  intros Hw.
  assert (Hp : can_handle PipeStrategy input = false).
  { apply DefaultPath.pipe_refuses. rewrite <- contains_pipe_to_lower.
    unfold exit_words in Hw. simpl in Hw.
    repeat (destruct Hw as [<- | Hw];
            [unfold contains; simpl; intuition discriminate|]).
    contradiction. }
  assert (Hc : can_handle CdStrategy input = false).
  { destruct (can_handle CdStrategy input) eqn:E; [|reflexivity].
    apply DefaultPath.cd_base_command in E.
    rewrite <- TierMore.base_command_to_lower in E.
    unfold exit_words in Hw. simpl in Hw.
    repeat (destruct Hw as [Hw | Hw]; [rewrite <- Hw in E; discriminate E|]).
    contradiction. }
  assert (Hf : can_handle ForceExecutionStrategy input = false).
  { destruct (can_handle ForceExecutionStrategy input) eqn:E; [|reflexivity].
    apply StrFacts.first_is_cons in E as [rest ->].
    unfold exit_words in Hw. simpl in Hw.
    repeat (destruct Hw as [Hw | Hw]; [discriminate Hw|]).
    contradiction. }
  rewrite (selected_after_three input Hp Hc Hf).
  unfold selected. cbn [List.find can_handle].
  assert (He : existsb (String.eqb (Str.to_lower input)) exit_words = true).
  { apply existsb_exists. exists (Str.to_lower input).
    split; [exact Hw | apply String.eqb_refl]. }
  now rewrite He.
Qed.

Lemma selected_config (rest : string) :
  ~ contains "|" rest ->
  selected registered ("/config" ++ rest) = Some ConfigStrategy.
Proof.
  intros Hp.
  rewrite selected_after_three.
  - unfold selected. cbn [List.find can_handle].
    rewrite found_at_0_eq_prefix.
    replace (prefix "/config" ("/config" ++ rest)) with true
      by (simpl; now rewrite StrFacts.prefix_empty).
    reflexivity.
  - apply DefaultPath.pipe_refuses. rewrite contains_app.
    intros [E | E]; [|contradiction].
    unfold contains in E. simpl in E. intuition discriminate.
  - apply cd_refuses_other_heads. discriminate.
  - apply force_refuses_other_heads. discriminate.
Qed.

Lemma selected_meta (rest : string) :
  ~ contains "|" rest ->
  ~ In (Str.to_lower (String "/" rest)) exit_words ->
  prefix "/config" (String "/" rest) = false ->
  selected registered (String "/" rest) = Some MetaCommandStrategy.
Proof.
  intros Hp He Hc.
  rewrite selected_after_three.
  - unfold selected. cbn [List.find can_handle].
    assert (Hx : existsb (String.eqb (Str.to_lower (String "/" rest))) exit_words = false).
    { destruct (existsb _ exit_words) eqn:E; [|reflexivity].
      apply existsb_exists in E as (w & Hin & Heq).
      apply String.eqb_eq in Heq. subst w. contradiction. }
    rewrite Hx, !found_at_0_eq_prefix, Hc. reflexivity.
  - apply DefaultPath.pipe_refuses. rewrite contains_cons.
    intros [E | E]; [discriminate | contradiction].
  - apply cd_refuses_other_heads. discriminate.
  - apply force_refuses_other_heads. discriminate.
Qed.

End RouteFacts.

(* ================================================================== *)
(** * The strategies called on their own, and the shell adapter *)

Module TextFacts.

Lemma append_empty_r (s : string) : s ++ EmptyString = s.
Proof. induction s as [|c s IH]; simpl; [reflexivity | now rewrite IH]. Qed.

Lemma length_app (a b : string) :
  String.length (a ++ b) = String.length a + String.length b.
Proof. induction a as [|c a IH]; simpl; [reflexivity | now rewrite IH]. Qed.

Lemma drop_app (p rest : string) : Str.drop (String.length p) (p ++ rest) = rest.
Proof. induction p as [|c p IH]; simpl; [now destruct rest | exact IH]. Qed.

Lemma prefix_split (p s : string) :
  prefix p s = true -> exists rest, s = p ++ rest.
Proof.
  revert s. induction p as [|a p IH]; intros s Hp.
  - now exists s.
  - apply StrFacts.prefix_cons in Hp as (r0 & -> & Hp).
    destruct (IH r0 Hp) as [rest ->]. now exists rest.
Qed.

Lemma found_at_0_split (p s : string) :
  Str.found_at_0 p s = true -> exists rest, s = p ++ rest.
Proof. intros Hf. now apply prefix_split, StrFacts.found_at_0_prefix. Qed.

Lemma mentions_middle (before needle after : string) :
  mentions needle (before ++ needle ++ after).
Proof. now exists before, after. Qed.

Lemma mentions_empty (text : string) : mentions EmptyString text.
Proof. now exists EmptyString, text. Qed.

Lemma mentions_here (needle rest : string) : mentions needle (needle ++ rest).
Proof. now exists EmptyString, rest. Qed.

Lemma mentions_after (needle before text : string) :
  mentions needle text -> mentions needle (before ++ text).
Proof.
  intros (a & b & ->). exists (before ++ a), b. now rewrite StrFacts.append_assoc.
Qed.

Lemma prefix_refl (s : string) : prefix s s = true.
Proof.
  induction s as [|c s IH]; simpl; [reflexivity|].
  destruct (ascii_dec c c); [exact IH | congruence].
Qed.

Lemma prefix_substring (n : nat) (s : string) : prefix (substring 0 n s) s = true.
Proof.
  revert n. induction s as [|c s IH]; intros [|n]; simpl; try reflexivity.
  destruct (ascii_dec c c); [apply IH | congruence].
Qed.

Lemma not_contains_find (c : ascii) (s : string) :
  ~ contains c s -> Str.find_char c 0 s = None.
Proof.
  intros Hn. destruct (Str.find_char c 0 s) eqn:E; [|reflexivity].
  elim Hn. apply StrFacts.find_char_occurs. congruence.
Qed.

End TextFacts.

Section DirectCalls.

Context `{OperatingSystem}.

Lemma TaskMode_answers (input : string) (s : Sys) :
  11 <= String.length input ->
  exists res,
    TaskModeStrategy_execute input s = (Ret res, s) /\
    success res = false /\ exit_code res = 1%Z /\
    output res <> EmptyString /\
    mentions (Str.drop 11 input) (output res).
Proof.
  intros Hle. unfold TaskModeStrategy_execute.
  rewrite StrFacts.substr_ok by exact Hle. rewrite bind_lift_ret.
  destruct (Str.drop 11 input) as [|c d] eqn:E.
  - eexists. split; [reflexivity|]. cbn [success exit_code output].
    repeat split; try discriminate. apply TextFacts.mentions_empty.
  - eexists. split; [reflexivity|]. cbn [Str.empty success exit_code output].
    repeat split; try discriminate. apply TextFacts.mentions_middle.
Qed.

(** Where [AgenticModeStrategy::execute] starts its query. *)
Lemma AgenticMode_answers (input : string) (s : Sys) :
  let start := match Str.find_char ":" 0 input with
               | Some colon_pos => colon_pos + 1
               | None => 0
               end in
  exists res,
    AgenticModeStrategy_execute input s = (Ret res, s) /\
    success res = false /\ exit_code res = 1%Z /\
    output res <> EmptyString /\
    mentions (Str.drop start input) (output res).
Proof.
  intros start. unfold AgenticModeStrategy_execute. fold start.
  assert (Hle : start <= String.length input).
  { unfold start. destruct (Str.find_char ":" 0 input) as [pos|] eqn:E; [|lia].
    apply StrFacts.find_char_bound in E. lia. }
  rewrite StrFacts.substr_ok by exact Hle. rewrite bind_lift_ret.
  destruct (Str.drop start input) as [|c text].
  - eexists. split; [reflexivity|]. cbn [success exit_code output].
    repeat split; try discriminate. apply TextFacts.mentions_empty.
  - eexists. split; [reflexivity|]. cbn [success exit_code output].
    repeat split; try discriminate. apply TextFacts.mentions_middle.
Qed.

Lemma first_colon (head query : string) :
  ~ contains ":" head ->
  Str.find_char ":" 0 (head ++ ":" ++ query) = Some (String.length head) /\
  Str.drop (String.length head + 1) (head ++ ":" ++ query) = query.
Proof.
  intros Hn. split.
  - induction head as [|c head IH].
    + apply RouteFacts.find_char_hit.
    + change (String c head ++ ":" ++ query) with (String c (head ++ ":" ++ query)).
      rewrite RouteFacts.find_char_skip.
      * rewrite IH; [reflexivity|].
        intros Hc. apply Hn. apply RouteFacts.contains_cons. now right.
      * intros ->. apply Hn. apply RouteFacts.contains_cons. now left.
  - replace (String.length head + 1) with (String.length (head ++ ":"))
      by (rewrite TextFacts.length_app; reflexivity).
    rewrite <- StrFacts.append_assoc. now rewrite TextFacts.drop_app.
Qed.

(** X15.  [TaskModeStrategy::execute] called on its own, as the bindings allow:
    [substr(11)] throws [std::out_of_range] on an input of fewer than eleven
    characters, whatever they are; on a longer one the call fails with exit
    code 1 and, from the twelfth character on, repeats the input in its
    output.  Every input [can_handle] accepts is long enough. *)
Theorem task_mode_throws_on_short_input (input : string) (s : Sys) :
  (String.length input < 11 ->
   TaskModeStrategy_execute input s = (Throw out_of_range, s)) /\
  (11 <= String.length input ->
   exists res,
     TaskModeStrategy_execute input s = (Ret res, s) /\
     success res = false /\ exit_code res = 1%Z /\
     output res <> EmptyString /\
     mentions (Str.drop 11 input) (output res)) /\
  (can_handle TaskModeStrategy input = true -> 11 <= String.length input).
Proof.
  split; [|split].
  - intros Hlt. unfold TaskModeStrategy_execute, Str.substr.
    destruct (Nat.leb_spec 11 (String.length input)); [lia | reflexivity].
  - apply TaskMode_answers.
  - intros Hc. cbn [can_handle] in Hc.
    apply StrFacts.found_at_0_length in Hc. exact Hc.
Qed.

(** X16.  [AgenticModeStrategy::execute] called on its own never throws: the query
    is what follows the first colon, and when the input has no colon,
    [npos + 1] wraps to 0 and the query is the whole input.  The call always
    fails with exit code 1 and a text, and leaves the system alone. *)
Theorem agentic_mode_never_throws (input : string) (s : Sys) :
  exists res,
    AgenticModeStrategy_execute input s = (Ret res, s) /\
    success res = false /\ exit_code res = 1%Z /\
    output res <> EmptyString /\
    (~ contains ":" input -> mentions input (output res)) /\
    (forall head query, ~ contains ":" head -> input = head ++ ":" ++ query ->
       mentions query (output res)).
Proof.
  destruct (AgenticMode_answers input s) as (res & E & Hs & He & Ho & Hm).
  exists res. repeat split; try assumption.
  - intros Hn. rewrite (@TextFacts.not_contains_find _ _ Hn) in Hm. exact Hm.
  - intros head query Hn ->.
    destruct (@first_colon head query Hn) as [Hpos Hdrop].
    rewrite Hpos, Hdrop in Hm. exact Hm.
Qed.

Ltac exists_device_answer device_alias :=
  destruct (_ || _);
    [|destruct (Str.found_at_0 _ _)];
    (eexists; exists device_alias;
     split; [reflexivity|]; cbn [success exit_code output];
     split; [|split; [reflexivity|split; [reflexivity|]];
              repeat (first [apply TextFacts.mentions_here
                            | apply TextFacts.mentions_after])]).

(** X17.  [DeviceRoutingStrategy::execute] called on its own never throws and
    never runs the shell.  Without a space after the first character it
    returns the usage text as a failure with exit code 1 and changes
    nothing; with one it writes a single line to the standard output, which
    ends with the text after that space, and reports success with exit code
    0. *)
Theorem device_routing_never_runs_anything (input : string) (s : Sys) :
  (Str.find_char " " 1 input = None ->
   DeviceRoutingStrategy_execute input s = (Ret (mkResult false device_usage 1), s)) /\
  (forall space_pos, Str.find_char " " 1 input = Some space_pos ->
   exists res device_alias,
     DeviceRoutingStrategy_execute input s =
       (Ret res,
        mkSys (world s) (shell_calls s)
              (cout s ++ [("Isaac > Executing on " ++ device_alias ++ ": " ++
                           Str.drop (space_pos + 1) input)%string])%list) /\
     prefix device_alias (substring 1 (space_pos - 1) input) = true /\
     success res = true /\ exit_code res = 0%Z /\
     mentions (Str.drop (space_pos + 1) input) (output res)).
Proof.
  split.
  - intros E. unfold DeviceRoutingStrategy_execute. now rewrite E.
  - intros space_pos E. unfold DeviceRoutingStrategy_execute. rewrite E.
    apply StrFacts.find_char_bound in E.
    rewrite StrFacts.substr_n_ok by lia. rewrite bind_lift_ret.
    rewrite StrFacts.substr_ok by lia. rewrite bind_lift_ret.
    set (device_spec := substring 1 (space_pos - 1) input).
    set (device_cmd := Str.drop (space_pos + 1) input).
    destruct (Str.find_char ":" 0 device_spec) as [colon_pos|] eqn:E2.
    + apply StrFacts.find_char_bound in E2.
      rewrite StrFacts.substr_n_ok by lia.
      rewrite StrFacts.substr_ok by lia.
      unfold bind, lift, ret, print.
      exists_device_answer (substring 0 colon_pos device_spec);
        apply TextFacts.prefix_substring.
    + unfold bind, lift, ret, print.
      exists_device_answer device_spec; apply TextFacts.prefix_refl.
Qed.

End DirectCalls.

(* ================================================================== *)
(** * What the router does with each kind of line *)

Section StrategyRoutes.

Context `{OperatingSystem} `{StdSort}.

(** A router built over a rule file, whatever calls it has served, hands an
    input to the first strategy of the registration list that accepts it. *)
Lemma reachable_route (file : option string) (history : list Call) (s0 : Sys)
      (input : string) (s : Sys) (strategy : CommandStrategy) :
  selected registered input = Some strategy ->
  let r' := ensure_strategies_loaded (fst (run history (CommandRouter_new file, s0))) in
  route_command (fst (run history (CommandRouter_new file, s0))) input s =
    (let (res, s') := execute strategy input (mkContext r' (validator_ r')) s in
     (r', res, s')).
Proof.
  intros Hsel.
  apply (@route_command_selected _ _ file); [|exact Hsel].
  apply run_router_state, new_router_state.
Qed.

Lemma cd_execute_word (dir tail : string) :
  word dir -> tail = EmptyString \/ (exists rest, tail = String " " rest) ->
  CdStrategy_execute ("cd " ++ dir ++ tail) = ShellAdapter.execute ("cd " ++ dir).
Proof.
  intros Hw Ht. unfold CdStrategy_execute.
  change (IStream.extract (IStream.open ("cd " ++ dir ++ tail)))
    with ("cd", IStream.mk (String " " (dir ++ tail)) false).
  destruct Ht as [-> | [rest ->]].
  - rewrite TextFacts.append_empty_r, (@ConfigFacts.extract_word_end dir Hw).
    now rewrite (@ConfigFacts.word_not_empty dir Hw).
  - rewrite (@ConfigFacts.extract_word_space dir rest Hw).
    now rewrite (@ConfigFacts.word_not_empty dir Hw).
Qed.

Lemma cd_execute_home (tail : string) :
  blank tail ->
  CdStrategy_execute "cd" = ShellAdapter.execute "cd ~" /\
  CdStrategy_execute ("cd " ++ tail) = ShellAdapter.execute "cd ~".
Proof.
  intros Hb. split; [reflexivity|]. unfold CdStrategy_execute.
  change (IStream.extract (IStream.open ("cd " ++ tail)))
    with ("cd", IStream.mk (String " " tail) false).
  unfold IStream.extract. cbn [IStream.fail IStream.buf].
  change (Str.ltrim (String " " tail)) with (Str.ltrim tail).
  rewrite (@StrFacts.all_of_isspace_ltrim tail Hb). reflexivity.
Qed.

Lemma cd_accepts (rest : string) : can_handle CdStrategy ("cd " ++ rest) = true.
Proof.
  cbn [can_handle]. rewrite RouteFacts.found_at_0_eq_prefix.
  replace (prefix "cd " ("cd " ++ rest)) with true
    by (simpl; now rewrite StrFacts.prefix_empty).
  reflexivity.
Qed.

Lemma cd_no_pipe (rest : string) :
  ~ contains "|" rest -> ~ contains "|" ("cd " ++ rest).
Proof.
  intros Hn. rewrite RouteFacts.contains_app. intros [E | E]; [|contradiction].
  unfold contains in E. simpl in E. intuition discriminate.
Qed.

(** X18.  A line that starts with an exclamation mark and holds no pipe goes to
    the shell without the classifier being asked: what follows the mark,
    leading white space removed, is run as it is, whatever tier it has, and
    the shell's result is returned unchanged. *)
Theorem forced_line_reaches_the_shell_unclassified
    (file : option string) (history : list Call) (s0 s : Sys) (command : string) :
  ~ contains "|" command ->
  let r := fst (run history (CommandRouter_new file, s0)) in
  route_command r (String "!" command) s =
    (let (res, s') := ShellAdapter.execute (Str.ltrim command) s in
     (ensure_strategies_loaded r, res, s')).
Proof.
  intros Hp r. unfold r.
  rewrite (@reachable_route file history s0 _ s _ (@RouteFacts.selected_force command Hp)).
  cbn [execute]. unfold ForceExecutionStrategy_execute.
  rewrite StrFacts.substr_ok by (simpl; lia). rewrite bind_lift_ret.
  reflexivity.
Qed.

(** X19.  [cd] followed by a word: the shell is asked to run [cd] with that word
    only; whatever follows the word on the line is dropped. *)
Theorem cd_passes_the_first_word_only
    (file : option string) (history : list Call) (s0 s : Sys) (dir rest : string) :
  word dir -> ~ contains "|" dir -> ~ contains "|" rest ->
  let r := fst (run history (CommandRouter_new file, s0)) in
  route_command r ("cd " ++ dir) s =
    (let (res, s') := ShellAdapter.execute ("cd " ++ dir) s in
     (ensure_strategies_loaded r, res, s')) /\
  route_command r ("cd " ++ dir ++ " " ++ rest) s =
    (let (res, s') := ShellAdapter.execute ("cd " ++ dir) s in
     (ensure_strategies_loaded r, res, s')).
Proof.
  intros Hw Hd Hr r. unfold r. split.
  - rewrite (@reachable_route file history s0 _ s CdStrategy).
    + cbn [execute].
      pose proof (@cd_execute_word dir EmptyString Hw (or_introl eq_refl)) as E.
      rewrite TextFacts.append_empty_r in E. now rewrite E.
    + apply RouteFacts.selected_cd; [now apply cd_no_pipe | apply cd_accepts].
  - rewrite (@reachable_route file history s0 _ s CdStrategy).
    + cbn [execute].
      now rewrite (@cd_execute_word dir (" " ++ rest) Hw (or_intror (ex_intro _ rest eq_refl))).
    + apply RouteFacts.selected_cd; [|apply cd_accepts].
      apply cd_no_pipe. rewrite RouteFacts.contains_app. intros [E | E]; [contradiction|].
      apply RouteFacts.contains_cons in E as [E | E]; [discriminate | contradiction].
Qed.

(** X20.  [cd] on its own, or followed by white space only, asks the shell to run
    [cd ~]. *)
Theorem cd_without_target_goes_home
    (file : option string) (history : list Call) (s0 s : Sys) (tail : string) :
  blank tail ->
  let r := fst (run history (CommandRouter_new file, s0)) in
  route_command r "cd" s =
    (let (res, s') := ShellAdapter.execute "cd ~" s in
     (ensure_strategies_loaded r, res, s')) /\
  route_command r ("cd " ++ tail) s =
    (let (res, s') := ShellAdapter.execute "cd ~" s in
     (ensure_strategies_loaded r, res, s')).
Proof.
  intros Hb r. unfold r. destruct (cd_execute_home Hb) as [E1 E2]. split.
  - rewrite (@reachable_route file history s0 _ s CdStrategy) by reflexivity.
    cbn [execute]. now rewrite E1.
  - rewrite (@reachable_route file history s0 _ s CdStrategy).
    + cbn [execute]. now rewrite E2.
    + apply RouteFacts.selected_cd; [|apply cd_accepts].
      apply cd_no_pipe. now apply RouteFacts.blank_no_pipe.
Qed.

(** X21.  The six exit words, in any letter case, are answered with the goodbye
    text as a success; the shell is not run and the system is left as it
    was. *)
Theorem exit_words_say_goodbye
    (file : option string) (history : list Call) (s0 s : Sys) (input : string) :
  In (Str.to_lower input) exit_words ->
  let r := fst (run history (CommandRouter_new file, s0)) in
  route_command r input s =
    (ensure_strategies_loaded r, Ret (mkResult true "Isaac > Goodbye!" 0), s).
Proof.
  intros Hw r. unfold r.
  now rewrite (@reachable_route file history s0 _ s _ (@RouteFacts.selected_exit input Hw)).
Qed.

(** X22.  Every line that starts with [/config] and holds no pipe is answered by
    the configuration strategy, not by the meta command strategy, which
    accepts it too: the result is the configuration strategy's and the
    system is left as it was. *)
Theorem config_lines_reach_the_config_strategy
    (file : option string) (history : list Call) (s0 s : Sys) (rest : string) :
  ~ contains "|" rest ->
  let r := fst (run history (CommandRouter_new file, s0)) in
  can_handle MetaCommandStrategy ("/config" ++ rest) = true /\
  exists res,
    ConfigStrategy_execute ("/config" ++ rest) s = (Ret res, s) /\
    route_command r ("/config" ++ rest) s = (ensure_strategies_loaded r, Ret res, s).
Proof.
  intros Hp r. unfold r. split; [reflexivity|].
  rewrite (@reachable_route file history s0 _ s _ (@RouteFacts.selected_config rest Hp)).
  cbn [execute].
  assert (Hret : exists res, ConfigStrategy_execute ("/config" ++ rest) s = (Ret res, s)).
  { unfold ConfigStrategy_execute.
    destruct (config_args ("/config" ++ rest)) as [|a args]; [now eexists|].
    repeat match goal with
           | |- context [if ?b then _ else _] => destruct b
           end; now eexists. }
  destruct Hret as [res E]. exists res. now rewrite E.
Qed.

End StrategyRoutes.

Section MoreRoutes.

Context `{OperatingSystem} `{StdSort}.

(** X23.  A line that starts with a slash, holds no pipe, is not an exit word and
    does not start with [/config] is answered by the meta command strategy
    without the shell: [help], in any letter case and after any white space,
    gives the help text of the router as loaded by this very call, which is
    the full list also on the first call; [status] gives the status line;
    anything else fails with exit code -1 and the command in lower case. *)
Theorem meta_lines_are_answered_without_the_shell
    (file : option string) (history : list Call) (s0 s : Sys) (rest : string) :
  ~ contains "|" rest ->
  ~ In (Str.to_lower (String "/" rest)) exit_words ->
  prefix "/config" (String "/" rest) = false ->
  let r := fst (run history (CommandRouter_new file, s0)) in
  let r' := ensure_strategies_loaded r in
  let command := Str.to_lower (Str.ltrim rest) in
  route_command r (String "/" rest) s =
    (r',
     Ret (if String.eqb command "help" then mkResult true (get_help r') 0
          else if String.eqb command "status"
               then mkResult true "Isaac > System status: C++ core active" 0
               else mkResult false ("Isaac > Unknown meta command: " ++ command) (-1)),
     s) /\
  get_help r' = get_help (mkRouter (TierValidator_new file) registered true 1).
Proof.
  intros Hp He Hc r r' command. split.
  - unfold r', r.
    rewrite (@reachable_route _ _ file history s0 _ s _
               (@RouteFacts.selected_meta rest Hp He Hc)).
    cbn [execute]. unfold MetaCommandStrategy_execute.
    rewrite StrFacts.substr_ok by (simpl; lia). rewrite bind_lift_ret.
    cbn [Str.drop router]. fold command.
    destruct (String.eqb command "help"); [reflexivity|].
    destruct (String.eqb command "status"); reflexivity.
  - unfold r', r. erewrite ensure_canonical
      by (apply run_router_state, new_router_state).
    unfold get_help. cbn [strategies_].
    destruct OrderFacts.std_sort_arrangements as [-> | ->]; reflexivity.
Qed.

(** X24.  A line routed to the task mode strategy starts with [isaac task:] and
    always comes back as a failure with exit code 1 and a text that repeats
    the description; the shell is not run and the call does not throw. *)
Theorem task_lines_always_fail
    (file : option string) (history : list Call) (s0 s : Sys) (input : string) :
  selected registered input = Some TaskModeStrategy ->
  let r := fst (run history (CommandRouter_new file, s0)) in
  exists description res,
    input = "isaac task:" ++ description /\
    route_command r input s = (ensure_strategies_loaded r, Ret res, s) /\
    success res = false /\ exit_code res = 1%Z /\
    output res <> EmptyString /\ mentions description (output res).
Proof.
  intros Hsel r. unfold r.
  destruct (selected_accepts _ _ Hsel) as [_ Hcan].
  cbn [can_handle] in Hcan.
  destruct (TextFacts.found_at_0_split _ _ Hcan) as [description Hin].
  destruct (@TaskMode_answers _ input s) as (res & E & Hs & He & Ho & Hm).
  { apply StrFacts.found_at_0_length in Hcan. exact Hcan. }
  exists description, res.
  rewrite (@reachable_route _ _ file history s0 _ s _ Hsel).
  cbn [execute]. rewrite E.
  repeat split; try assumption.
  rewrite Hin in Hm.
  change 11 with (String.length "isaac task:") in Hm.
  now rewrite TextFacts.drop_app in Hm.
Qed.

(** X25.  A line routed to the agentic mode strategy starts with [isaac agent:] or
    [isaac agentic:]; the query is what follows that first colon, and the
    line always comes back as a failure with exit code 1 and a text that
    repeats the query; the shell is not run and the call does not throw. *)
Theorem agentic_lines_always_fail
    (file : option string) (history : list Call) (s0 s : Sys) (input : string) :
  selected registered input = Some AgenticModeStrategy ->
  let r := fst (run history (CommandRouter_new file, s0)) in
  exists head query res,
    (head = "isaac agent" \/ head = "isaac agentic") /\
    input = head ++ ":" ++ query /\
    route_command r input s = (ensure_strategies_loaded r, Ret res, s) /\
    success res = false /\ exit_code res = 1%Z /\
    output res <> EmptyString /\ mentions query (output res).
Proof.
  intros Hsel r. unfold r.
  destruct (selected_accepts _ _ Hsel) as [_ Hcan].
  cbn [can_handle] in Hcan.
  assert (Hhead : exists head query,
             (head = "isaac agent" \/ head = "isaac agentic") /\
             input = head ++ ":" ++ query).
  { apply orb_prop in Hcan as [Hcan | Hcan];
      destruct (TextFacts.found_at_0_split _ _ Hcan) as [query Hin].
    - exists "isaac agent", query. split; [now left | exact Hin].
    - exists "isaac agentic", query. split; [now right | exact Hin]. }
  destruct Hhead as (head & query & Hh & Hin).
  destruct (@AgenticMode_answers _ input s) as (res & E & Hs & He & Ho & Hm).
  exists head, query, res.
  rewrite (@reachable_route _ _ file history s0 _ s _ Hsel).
  cbn [execute]. rewrite E.
  repeat split; try assumption.
  assert (Hn : ~ contains ":" head).
  { destruct Hh as [-> | ->]; unfold contains; simpl; intuition discriminate. }
  destruct (@first_colon head query Hn) as [Hpos Hdrop].
  rewrite Hin, Hpos, Hdrop in Hm. exact Hm.
Qed.

(** X26.  A line routed to the natural language strategy has at least five
    characters, so that [substr(5)] does not throw; the answer is a success
    that repeats what follows them, leading white space removed, and the
    shell is not run. *)
Theorem natural_language_lines_never_reach_the_shell
    (file : option string) (history : list Call) (s0 s : Sys) (input : string) :
  selected registered input = Some NaturalLanguageStrategy ->
  let r := fst (run history (CommandRouter_new file, s0)) in
  5 <= String.length input /\
  route_command r input s =
    (ensure_strategies_loaded r,
     Ret (mkResult true
            ("Isaac > AI query: " ++ Str.ltrim (Str.drop 5 input) ++ " (C++ processing)") 0),
     s).
Proof.
  intros Hsel r. unfold r.
  destruct (selected_accepts _ _ Hsel) as [_ Hcan].
  cbn [can_handle] in Hcan.
  apply StrFacts.found_at_0_length in Hcan.
  unfold Str.to_lower in Hcan. rewrite StrFacts.length_map in Hcan.
  change (String.length "isaac") with 5 in Hcan.
  split; [exact Hcan|].
  rewrite (@reachable_route _ _ file history s0 _ s _ Hsel).
  cbn [execute]. unfold NaturalLanguageStrategy_execute.
  rewrite StrFacts.substr_ok by exact Hcan. rewrite bind_lift_ret.
  reflexivity.
Qed.

End MoreRoutes.

(* ================================================================== *)
(** * The statements above on examples *)

Lemma deallocate_frees_one_object_witness :
  nth_error (MemoryPool.deallocate 0 [MemoryPool.mkSlot true lockdown_result]) 0
  = Some (MemoryPool.mkSlot false lockdown_result).
Proof.
  destruct (@deallocate_frees_one_object 0 [MemoryPool.mkSlot true lockdown_result])
    as (_ & _ & Hfree & _).
  exact (Hfree (MemoryPool.mkSlot true lockdown_result) eq_refl).
Defined.

Lemma task_mode_short_input_witness :
  @TaskModeStrategy_execute echo_os "isaac" echo_boot = (Throw out_of_range, echo_boot).
Proof.
  apply (proj1 (@task_mode_throws_on_short_input echo_os "isaac" echo_boot)).
  simpl. lia.
Defined.

Lemma agentic_mode_witness :
  exists res,
    @AgenticModeStrategy_execute echo_os "plan the day" echo_boot = (Ret res, echo_boot) /\
    mentions "plan the day" (output res).
Proof.
  destruct (@agentic_mode_never_throws echo_os "plan the day" echo_boot)
    as (res & E & _ & _ & _ & Hwhole & _).
  exists res. split; [exact E|].
  apply Hwhole. unfold contains. simpl. intuition discriminate.
Defined.

Lemma device_routing_direct_witness :
  exists res device_alias,
    @DeviceRoutingStrategy_execute echo_os "!laptop:fast /status" echo_boot =
      (Ret res,
       @mkSys echo_os 0%nat []
         [("Isaac > Executing on " ++ device_alias ++ ": " ++ "/status")%string]) /\
    success res = true.
Proof.
  destruct (proj2 (@device_routing_never_runs_anything echo_os "!laptop:fast /status"
                     echo_boot) 12 eq_refl)
    as (res & device_alias & E & _ & Hs & _).
  exists res, device_alias. split; [exact E | exact Hs].
Defined.

Lemma forced_line_witness :
  @route_command echo_os stable_impl (CommandRouter_new None) "!rm -rf /" echo_boot
  = (@ensure_strategies_loaded stable_impl (CommandRouter_new None),
     Ret (mkResult true "rm -rf /" 0), echo_after "rm -rf /").
Proof.
  exact (@forced_line_reaches_the_shell_unclassified echo_os stable_impl None []
           echo_boot echo_boot "rm -rf /" no_pipe_in_rm).
Defined.

Lemma cd_first_word_witness :
  @route_command echo_os stable_impl (CommandRouter_new None) "cd /tmp now" echo_boot
  = (@ensure_strategies_loaded stable_impl (CommandRouter_new None),
     Ret (mkResult true "cd /tmp" 0), echo_after "cd /tmp").
Proof.
  assert (Hw : word "/tmp") by (split; [discriminate | reflexivity]).
  assert (Hd : ~ contains "|" "/tmp") by (unfold contains; simpl; intuition discriminate).
  assert (Hr : ~ contains "|" "now") by (unfold contains; simpl; intuition discriminate).
  exact (proj2 (@cd_passes_the_first_word_only echo_os stable_impl None []
                  echo_boot echo_boot "/tmp" "now" Hw Hd Hr)).
Defined.

Lemma cd_home_witness :
  @route_command echo_os stable_impl (CommandRouter_new None) "cd   " echo_boot
  = (@ensure_strategies_loaded stable_impl (CommandRouter_new None),
     Ret (mkResult true "cd ~" 0), echo_after "cd ~").
Proof.
  exact (proj2 (@cd_without_target_goes_home echo_os stable_impl None []
                  echo_boot echo_boot "  " eq_refl)).
Defined.

Lemma exit_words_witness :
  @route_command echo_os stable_impl (CommandRouter_new None) "/QUIT" echo_boot
  = (@ensure_strategies_loaded stable_impl (CommandRouter_new None),
     Ret (mkResult true "Isaac > Goodbye!" 0), echo_boot).
Proof.
  apply (@exit_words_say_goodbye echo_os stable_impl None [] echo_boot echo_boot "/QUIT").
  simpl. auto 10.
Defined.

Lemma config_lines_witness :
  @route_command echo_os stable_impl (CommandRouter_new None) "/config list" echo_boot
  = (@ensure_strategies_loaded stable_impl (CommandRouter_new None),
     Ret (mkResult true config_list_text 0), echo_boot).
Proof.
  assert (Hp : ~ contains "|" " list") by (unfold contains; simpl; intuition discriminate).
  destruct (@config_lines_reach_the_config_strategy echo_os stable_impl None []
              echo_boot echo_boot " list" Hp) as (_ & res & E & Hroute).
  injection E as <-. exact Hroute.
Defined.

Lemma meta_lines_witness :
  @route_command echo_os stable_impl (CommandRouter_new None) "/ Help" echo_boot
  = (@ensure_strategies_loaded stable_impl (CommandRouter_new None),
     Ret (mkResult true
            (get_help (@ensure_strategies_loaded stable_impl (CommandRouter_new None))) 0),
     echo_boot).
Proof.
  assert (Hp : ~ contains "|" " Help") by (unfold contains; simpl; intuition discriminate).
  assert (He : ~ In (Str.to_lower "/ Help") exit_words) by (simpl; intuition discriminate).
  exact (proj1 (@meta_lines_are_answered_without_the_shell echo_os stable_impl None []
                  echo_boot echo_boot " Help" Hp He eq_refl)).
Defined.

Lemma task_lines_witness :
  exists res,
    @route_command echo_os stable_impl (CommandRouter_new None)
      "isaac task: write tests" echo_boot
    = (@ensure_strategies_loaded stable_impl (CommandRouter_new None), Ret res, echo_boot) /\
    success res = false /\ mentions " write tests" (output res).
Proof.
  destruct (@task_lines_always_fail echo_os stable_impl None [] echo_boot echo_boot
              "isaac task: write tests" eq_refl)
    as (description & res & Hin & Hroute & Hs & _ & _ & Hm).
  injection Hin as <-.
  exists res. split; [exact Hroute | split; [exact Hs | exact Hm]].
Defined.

Lemma agentic_lines_witness :
  exists res,
    @route_command echo_os stable_impl (CommandRouter_new None)
      "isaac agent: plan" echo_boot
    = (@ensure_strategies_loaded stable_impl (CommandRouter_new None), Ret res, echo_boot) /\
    success res = false /\ exit_code res = 1%Z.
Proof.
  destruct (@agentic_lines_always_fail echo_os stable_impl None [] echo_boot echo_boot
              "isaac agent: plan" eq_refl)
    as (head & query & res & _ & _ & Hroute & Hs & He & _).
  exists res. split; [exact Hroute | split; [exact Hs | exact He]].
Defined.

Lemma natural_language_witness :
  @route_command echo_os stable_impl (CommandRouter_new None)
    "Isaac what time is it" echo_boot
  = (@ensure_strategies_loaded stable_impl (CommandRouter_new None),
     Ret (mkResult true "Isaac > AI query: what time is it (C++ processing)" 0),
     echo_boot).
Proof.
  exact (proj2 (@natural_language_lines_never_reach_the_shell echo_os stable_impl None []
                  echo_boot echo_boot "Isaac what time is it" eq_refl)).
Defined.
